(** * Rollback application (ft/roll.cc) and read views (read/read0read.cc)

    A shallow embedding of the two translation units and the properties
    their specification states about them.

    Conventions of the embedding:
    - transaction ids, LSNs and block numbers are [Z]; no arithmetic is done
      on them apart from the one unsigned decrement of the rollback walker,
      whose wrap-around is written out;
    - sizes and array indices ([ulint]) are [nat];
    - a heap array is the list of its cells; an access outside the
      allocation is undefined behaviour in C++ and [None] here;
    - an assertion that fails aborts the process: [None] in the read view
      code, [Fatal] in the rollback code. *)

From Stdlib Require Import ZArith Lia Sorted Permutation.
From Stdlib.Strings Require Import Byte.
From stdpp Require Import base option list sorting gmap.

Local Open Scope Z_scope.

(** ** Heap arrays *)

(** [::memmove(dst + d, src + s, n * sizeof(value_type))]: the [n] cells
    are read before any is written, so the two ranges may overlap. *)
Definition memmove (dst : list Z) (d : nat) (src : list Z) (s n : nat)
  : option (list Z) :=
  if bool_decide (s + n ≤ length src ∧ d + n ≤ length dst)%nat
  then Some (take d dst ++ take n (drop s src) ++ drop (d + n) dst)
  else None.

(** [p[i] = x]. *)
Definition store (p : list Z) (i : nat) (x : Z) : option (list Z) :=
  if bool_decide (i < length p)%nat then Some (<[i:=x]> p) else None.

(** The loop of [std::lower_bound] and [std::upper_bound] (libstdc++): the
    range [first, first + len) is halved while it is not empty; [go_right]
    tells whether the middle cell sends the search to the upper half. *)
Fixpoint bound_loop (go_right : Z → bool) (a : list Z) (fuel : nat)
    (first len : nat) : option nat :=
  match fuel with
  | O => Some first
  | S fuel' =>
      if bool_decide (len = 0)%nat then Some first
      else
        let half := (len / 2)%nat in
        let middle := (first + half)%nat in
        x ← a !! middle;
        if go_right x
        then bound_loop go_right a fuel' (middle + 1)%nat (len - half - 1)%nat
        else bound_loop go_right a fuel' first half
  end.

(** [std::upper_bound(a + first, a + first + len, value) - a]. *)
Definition upper_bound (a : list Z) (first len : nat) (value : Z)
  : option nat :=
  bound_loop (λ x, negb (value <? x)) a len first len.

(** [std::lower_bound(a + first, a + first + len, value) - a]. *)
Definition lower_bound (a : list Z) (first len : nat) (value : Z)
  : option nat :=
  bound_loop (λ x, x <? value) a len first len.

(** ** Debug assertions *)

(** [ut_ad(c)]: checked in a build with [UNIV_DEBUG], compiled away
    otherwise. *)
Definition ut_ad (UNIV_DEBUG : bool) (c : bool) : option unit :=
  if UNIV_DEBUG then (if c then Some () else None) else Some ().

(** [ut_a(c)]: checked in every build. *)
Definition ut_a (c : bool) : option unit := if c then Some () else None.

(** ** ReadView::ids_t *)

(** Minimum number of elements to reserve in ReadView::ids_t *)
Definition MIN_TRX_IDS : nat := 32.

Module ids_t.

(** Modelled from the spec: the class [ids_t], declared in
    read0types.h ("vector of active transaction ids with
    capacity-doubling growth"), with the members read0read.cc uses:
    [m_ptr] is the allocation ([[]] for the null pointer), [m_size] the
    number of live cells and [m_reserved] the number of allocated
    ones. *)
Record t : Type := mk {
  m_ptr : list Z;
  m_size : nat;
  m_reserved : nat
}.

(** The live cells, in order. *)
Definition contents (v : t) : list Z := take (m_size v) (m_ptr v).

Section Methods.
Variable UNIV_DEBUG : bool.

(** Modelled from the spec: the default constructor, an empty vector
    without allocation. *)
Definition init : t := mk [] 0 0.

(** Modelled from the spec: [capacity()], the number of allocated
    cells. *)
Definition capacity (v : t) : nat := m_reserved v.

(** Modelled from the spec: [size()]. *)
Definition size (v : t) : nat := m_size v.

(** Modelled from the spec: [empty()]. *)
Definition empty (v : t) : bool := bool_decide (size v = 0%nat).

(** Modelled from the spec: [data()]. *)
Definition data (v : t) : list Z := m_ptr v.

(** Modelled from the spec: [resize(n)] "resets size"; it asserts that
    [n] is within the capacity. *)
Definition resize (n : nat) (v : t) : option t :=
  _ ← ut_ad UNIV_DEBUG (bool_decide (n ≤ capacity v)%nat);
  Some (mk (m_ptr v) n (m_reserved v)).

(** Modelled from the spec: [clear()]. *)
Definition clear (v : t) : option t := resize 0 v.

(** Modelled from the spec: [front()], the first cell of a vector that is
    asserted not to be empty. *)
Definition front (v : t) : option Z :=
  _ ← ut_ad UNIV_DEBUG (negb (empty v));
  m_ptr v !! 0%nat.

(** Modelled from the spec: [back()], the cell at [m_size - 1] of a
    vector that is asserted not to be empty. *)
Definition back (v : t) : option Z :=
  _ ← ut_ad UNIV_DEBUG (negb (empty v));
  if bool_decide (m_size v = 0%nat) then None
  else m_ptr v !! (m_size v - 1)%nat.

(** Try and increase the size of the array. Old elements are copied
    across. The cells of a fresh allocation hold [0] here. *)
Definition reserve (n : nat) (v : t) : option t :=
  if bool_decide (n ≤ capacity v)%nat then Some v
  else
    let n := if bool_decide (n < MIN_TRX_IDS)%nat then MIN_TRX_IDS else n in
    let p := m_ptr v in
    let v := mk (replicate n 0) (m_size v) n in
    _ ← ut_ad UNIV_DEBUG (bool_decide (size v < capacity v)%nat);
    match p with
    | [] => Some v
    | _ :: _ =>
        q ← memmove (m_ptr v) 0 p 0 (size v);
        Some (mk q (m_size v) (m_reserved v))
    end.

(** Copy and overwrite this array contents: [assign(start, end)], with
    [start] the array the first pointer points into and [n] the distance
    [end - start]. *)
Definition assign (start : list Z) (n : nat) (v : t) : option t :=
  v ← clear v;
  v ← reserve n v;
  v ← resize n v;
  _ ← ut_ad UNIV_DEBUG (bool_decide (size v = n));
  q ← memmove (m_ptr v) 0 start 0 (size v);
  Some (mk q (m_size v) (m_reserved v)).

(** Append a value to the array. *)
Definition push_back (value : Z) (v : t) : option t :=
  v ← (if bool_decide (capacity v ≤ size v)%nat
       then reserve (size v * 2) v else Some v);
  q ← store (m_ptr v) (m_size v) value;
  let v := mk q (S (m_size v)) (m_reserved v) in
  _ ← ut_ad UNIV_DEBUG (bool_decide (size v ≤ capacity v)%nat);
  Some v.

(** Insert the value in the correct slot, preserving the order. Doesn't
    check for duplicates. *)
Definition insert (value : Z) (v : t) : option t :=
  _ ← ut_ad UNIV_DEBUG (bool_decide (0 < value));
  v ← reserve (size v + 1) v;
  b ← (if empty v then Some true
       else x ← back v; Some (bool_decide (x < value)));
  if (b : bool) then push_back value v
  else
    let end_ := size v in
    ub ← upper_bound (data v) 0 (size v) value;
    if bool_decide (ub = end_) then push_back value v
    else
      _ ← ut_ad UNIV_DEBUG (bool_decide (ub < end_)%nat);
      let n_elems := (end_ - ub)%nat in
      q ← memmove (m_ptr v) (ub + 1) (m_ptr v) ub n_elems;
      q ← store q ub value;
      resize (size v + 1) (mk q (m_size v) (m_reserved v)).

End Methods.
End ids_t.

(** ** trx_sys *)

(** Modelled from the spec: the part of the global [trx_sys], declared in
    trx0sys.h, that the read view code reads: [get_max_trx_id()], the
    sorted vector [rw_trx_ids], the [trx->no] of the transactions of
    [serialisation_list] (first one first), and whether the calling thread
    holds [trx_sys.mutex]. *)
Record trx_sys_t : Type := mk_trx_sys {
  max_trx_id : Z;
  rw_trx_ids : list Z;
  serialisation_list : list Z;
  mutex : bool
}.

(** Modelled from the spec: "trx_sys.max_xid()". *)
Definition get_max_trx_id (sys : trx_sys_t) : Z := max_trx_id sys.

(** Modelled from the spec: [mutex_own(&trx_sys.mutex)], whether the
    calling thread holds the mutex. *)
Definition mutex_own (sys : trx_sys_t) : bool := mutex sys.

(** Modelled from the spec: [mutex_enter(&trx_sys.mutex)]; entering a
    mutex the thread already holds never returns. *)
Definition mutex_enter (sys : trx_sys_t) : option trx_sys_t :=
  if mutex sys then None
  else Some (mk_trx_sys (max_trx_id sys) (rw_trx_ids sys)
               (serialisation_list sys) true).

(** Modelled from the spec: [mutex_exit(&trx_sys.mutex)], by the thread
    that holds the mutex. *)
Definition mutex_exit (sys : trx_sys_t) : option trx_sys_t :=
  if mutex sys
  then Some (mk_trx_sys (max_trx_id sys) (rw_trx_ids sys)
               (serialisation_list sys) false)
  else None.

(** ** ReadView *)

Module ReadView.

(** Modelled from the spec: the class [ReadView], declared in
    read0types.h, with the members read0read.cc uses and the two flags
    "registered" and "open". *)
Record t : Type := mk {
  m_low_limit_id : Z;
  m_up_limit_id : Z;
  m_creator_trx_id : Z;
  m_ids : ids_t.t;
  m_low_limit_no : Z;
  m_open : bool;
  m_registered : bool
}.

(** Modelled from the spec: [is_open()]. *)
Definition is_open (view : t) : bool := m_open view.

(** Modelled from the spec: [is_registered()]. *)
Definition is_registered (view : t) : bool := m_registered view.

(** Assignments to one member of a view. *)

Definition set_ids (ids : ids_t.t) (view : t) : t :=
  mk (m_low_limit_id view) (m_up_limit_id view) (m_creator_trx_id view)
     ids (m_low_limit_no view) (m_open view) (m_registered view).
Definition set_up_limit_id (id : Z) (view : t) : t :=
  mk (m_low_limit_id view) id (m_creator_trx_id view)
     (m_ids view) (m_low_limit_no view) (m_open view) (m_registered view).
Definition set_low_limit_no (no : Z) (view : t) : t :=
  mk (m_low_limit_id view) (m_up_limit_id view) (m_creator_trx_id view)
     (m_ids view) no (m_open view) (m_registered view).

(** Modelled from the spec: [set_open(open)], one of the "independent
    bits". *)
Definition set_open (open : bool) (view : t) : t :=
  mk (m_low_limit_id view) (m_up_limit_id view) (m_creator_trx_id view)
     (m_ids view) (m_low_limit_no view) open (m_registered view).

(** Modelled from the spec: [set_registered(registered)], the other
    bit. *)
Definition set_registered (registered : bool) (view : t) : t :=
  mk (m_low_limit_id view) (m_up_limit_id view) (m_creator_trx_id view)
     (m_ids view) (m_low_limit_no view) (m_open view) registered.

(** Modelled from the spec: "le(other): defines the total order on views
    by low_limit_no". *)
Definition le (view rhs : t) : bool :=
  bool_decide (m_low_limit_no view ≤ m_low_limit_no rhs).

(** Modelled from the spec: "empty(): ids.empty() && creator_xid == 0". *)
Definition empty (view : t) : bool :=
  ids_t.empty (m_ids view) && bool_decide (m_creator_trx_id view = 0).

Section Methods.
Variable UNIV_DEBUG : bool.

(** Copy the transaction ids from the source vector. The debug-only
    loop at the end of the function, which waits until [rw_trx_hash]
    holds every id, does not touch the view and is left out. *)
Definition copy_trx_ids (sys : trx_sys_t) (trx_ids : list Z) (view : t)
  : option t :=
  _ ← ut_ad UNIV_DEBUG (mutex_own sys);
  let size := length trx_ids in
  size ← (if bool_decide (0 < m_creator_trx_id view)
          then _ ← ut_ad UNIV_DEBUG (bool_decide (0 < size)%nat);
               (* [--size] of an unsigned 0 is a size no allocation
                  will satisfy *)
               if bool_decide (size = 0%nat) then None
               else Some (size - 1)%nat
          else Some size);
  if bool_decide (size = 0%nat)
  then ids ← ids_t.clear UNIV_DEBUG (m_ids view); Some (set_ids ids view)
  else
    ids ← ids_t.reserve UNIV_DEBUG size (m_ids view);
    ids ← ids_t.resize UNIV_DEBUG size ids;
    let p := ids_t.data ids in
    (* Copy all the trx_ids except the creator trx id *)
    q ← (if bool_decide (0 < m_creator_trx_id view)
         then
           it ← lower_bound trx_ids 0 (length trx_ids)
                  (m_creator_trx_id view);
           _ ← ut_ad UNIV_DEBUG
                 (bool_decide (it ≠ length trx_ids
                               ∧ trx_ids !! it = Some (m_creator_trx_id view)));
           let i := it in
           q ← memmove p 0 trx_ids 0 i;
           (* [trx_ids.size() - i - 1] is unsigned *)
           if bool_decide (i + 1 ≤ length trx_ids)%nat
           then
             let n := (length trx_ids - i - 1)%nat in
             _ ← ut_ad UNIV_DEBUG (bool_decide (i + n = ids_t.size ids)%nat);
             if bool_decide (0 < n)%nat
             then memmove q i trx_ids (i + 1) n
             else Some q
           else None
         else memmove p 0 trx_ids 0 size);
    let ids := ids_t.mk q (ids_t.m_size ids) (ids_t.m_reserved ids) in
    up ← ids_t.front UNIV_DEBUG ids;
    Some (set_up_limit_id up (set_ids ids view)).

(** Opens a read view where exactly the transactions serialized before
    this point in time are seen in the view. *)
Definition prepare (sys : trx_sys_t) (id : Z) (view : t) : option t :=
  _ ← ut_ad UNIV_DEBUG (mutex_own sys);
  let view :=
    mk (get_max_trx_id sys) (get_max_trx_id sys) id (m_ids view)
       (get_max_trx_id sys) (m_open view) (m_registered view) in
  view ← (if negb (bool_decide (rw_trx_ids sys = []))
          then copy_trx_ids sys (rw_trx_ids sys) view
          else ids ← ids_t.clear UNIV_DEBUG (m_ids view);
               Some (set_ids ids view));
  _ ← ut_ad UNIV_DEBUG
        (bool_decide (m_up_limit_id view ≤ m_low_limit_id view));
  match serialisation_list sys with
  | trx_no :: _ =>
      if bool_decide (trx_no < m_low_limit_no view)
      then Some (set_low_limit_no trx_no view)
      else Some view
  | [] => Some view
  end.



End Methods.
End ReadView.

(** ** MVCC *)

Module MVCC.
Section Methods.
Variable UNIV_DEBUG : bool.

(** The loop of [clone_oldest_view]: [views] are the views from
    [UT_LIST_GET_LAST(m_views)] on, each followed by its
    [UT_LIST_GET_PREV]. *)
Fixpoint find_oldest_open (views : list ReadView.t) : option ReadView.t :=
  match views with
  | [] => None
  | oldest_view :: prev =>
      if ReadView.is_open oldest_view then Some oldest_view
      else find_oldest_open prev
  end.


(** Modelled from the spec: [UT_LIST_GET_FIRST(m_views)] with
    [UT_LIST_GET_NEXT], the views from the first one on, under the same
    protection. *)
Definition UT_LIST_GET_FIRST (sys : trx_sys_t) (m_views : list ReadView.t)
  : option (list ReadView.t) :=
  if mutex_own sys then Some m_views else None.



(** Functor to validate the view list: [operator()] on [view] when
    [m_prev_view] is the view of the call before (none at the first
    call); the result is the new [m_prev_view]. *)
Definition ViewCheck (m_prev_view : option ReadView.t) (view : ReadView.t)
  : option (option ReadView.t) :=
  _ ← ut_ad UNIV_DEBUG (ReadView.is_registered view);
  _ ← ut_a (match m_prev_view with
            | None => true
            | Some prev =>
                negb (ReadView.is_open view) || ReadView.le view prev
            end);
  Some (Some view).

(** Modelled from the spec: [ut_list_map(m_views, check)], which calls the
    functor on each view from the first to the last. *)
Fixpoint ut_list_map (views : list ReadView.t)
    (m_prev_view : option ReadView.t) : option (option ReadView.t) :=
  match views with
  | [] => Some m_prev_view
  | view :: next =>
      m_prev_view ← ViewCheck m_prev_view view;
      ut_list_map next m_prev_view
  end.

(** Validates a read view list. The function exists in a debug build
    only. *)
Definition validate (sys : trx_sys_t) (m_views : list ReadView.t)
  : option bool :=
  _ ← ut_ad UNIV_DEBUG (mutex_own sys);
  _ ← ut_list_map m_views None;
  Some true.

(** The loop of [size]: [views] are the views from
    [UT_LIST_GET_FIRST(m_views)] on, each followed by its
    [UT_LIST_GET_NEXT]. *)
Fixpoint count_open (views : list ReadView.t) (size : nat) : nat :=
  match views with
  | [] => size
  | view :: next =>
      count_open next (if ReadView.is_open view then S size else size)
  end.

(** The number of active views, with the state of [trx_sys] on return. *)
Definition size (sys : trx_sys_t) (m_views : list ReadView.t)
  : option (trx_sys_t * nat) :=
  sys ← mutex_enter sys;
  views ← UT_LIST_GET_FIRST sys m_views;
  let size := count_open views 0 in
  sys ← mutex_exit sys;
  Some (sys, size).

(** Modelled from the spec: a transaction, as far as [view_open] looks at
    it: its id, whether it "is an autocommit non-locking reader", and its
    read view, which is an object of its own ([read_view] is its
    address). *)
Record trx_t : Type := mk_trx {
  trx_id : Z;
  autocommit_non_locking : bool;
  read_view : nat
}.

(** Modelled from the spec: [trx_is_autocommit_non_locking(trx)]. *)
Definition trx_is_autocommit_non_locking (trx : trx_t) : bool :=
  autocommit_non_locking trx.

(** The registry with the views it points to: [m_views] holds the
    addresses of the registered views, first one first ("intrusive
    doubly-linked list of views"), and [objects] the read views of the
    transactions by address. *)
Record t : Type := mk {
  m_views : list nat;
  objects : gmap nat ReadView.t
}.

(** The views of the list, in its order. *)
Definition views_of (mvcc : t) : option (list ReadView.t) :=
  mapM (λ elem, objects mvcc !! elem) (m_views mvcc).

(** The list without the node [elem], which has to be in it. *)
Fixpoint detach (views : list nat) (elem : nat) : option (list nat) :=
  match views with
  | [] => None
  | first :: next =>
      if bool_decide (first = elem) then Some next
      else next' ← detach next elem; Some (first :: next')
  end.

(** Modelled from the spec: [UT_LIST_REMOVE(m_views, elem)], the "O(1)
    detach" of a node; the node has to be in the list, which the thread
    changes only while it holds [trx_sys.mutex]. *)
Definition UT_LIST_REMOVE (sys : trx_sys_t) (views : list nat) (elem : nat)
  : option (list nat) :=
  if mutex_own sys then detach views elem else None.

(** Modelled from the spec: [UT_LIST_ADD_FIRST(m_views, elem)], the "O(1)
    attach" of a node at the head; the node must not be in the list,
    which the thread changes only while it holds [trx_sys.mutex]. *)
Definition UT_LIST_ADD_FIRST (sys : trx_sys_t) (views : list nat)
    (elem : nat) : option (list nat) :=
  if mutex_own sys
  then if bool_decide (elem ∈ views) then None else Some (elem :: views)
  else None.

(** Create a view. [srv_read_only_mode] is the global of that name; the
    result is the state of [trx_sys] and of the registry on return. *)
Definition view_open (srv_read_only_mode : bool) (sys : trx_sys_t)
    (trx : trx_t) (mvcc : t) : option (trx_sys_t * t) :=
  let elem := read_view trx in
  view ← objects mvcc !! elem;
  if srv_read_only_mode
  then _ ← ut_ad UNIV_DEBUG (negb (ReadView.is_open view)); Some (sys, mvcc)
  else if ReadView.is_open view then Some (sys, mvcc)
  else if ReadView.is_registered view
          && trx_is_autocommit_non_locking trx
          && ReadView.empty view
          && bool_decide (ReadView.m_low_limit_id view = get_max_trx_id sys)
  then
    (* Reuse closed view if there were no read-write transactions since
       (and at) it's creation time. *)
    Some (sys, mk (m_views mvcc)
                 (<[elem:=ReadView.set_open true view]> (objects mvcc)))
  else
    sys ← mutex_enter sys;
    view ← ReadView.prepare UNIV_DEBUG sys (trx_id trx) view;
    '(view, views) ← (if ReadView.is_registered view
                     then views ← UT_LIST_REMOVE sys (m_views mvcc) elem;
                          Some (view, views)
                     else Some (ReadView.set_registered true view,
                                m_views mvcc));
    let view := ReadView.set_open true view in
    views ← UT_LIST_ADD_FIRST sys views elem;
    let mvcc := mk views (<[elem:=view]> (objects mvcc)) in
    _ ← (if UNIV_DEBUG
         then all ← views_of mvcc;
              valid ← validate sys all;
              ut_ad UNIV_DEBUG valid
         else Some ());
    sys ← mutex_exit sys;
    Some (sys, mvcc).

End Methods.
End MVCC.

(** ** ft/roll.cc: data *)

Module Roll.

(** Modelled from the spec: the error codes and the zero constants of the
    headers roll.cc includes. [ENOENT] is the cache lookup's "no such
    file" and [DB_NOTFOUND] the absence of a tree in [open_fts]; of their
    values (those of errno.h and db.h) only that they differ from 0
    matters. *)
Definition ENOENT : Z := 2.
Definition DB_NOTFOUND : Z := -30989.
Definition ZERO_LSN : Z := 0.
Definition ZERO_MSN : Z := 0.
Definition TXNID_NONE : Z := 0.

(** Modelled from the spec: the block number sentinel [ROLLBACK_NONE],
    whose declaration is not part of roll.cc ("BlockNo: i64; sentinel
    NONE = -1"). *)
Definition ROLLBACK_NONE : Z := -1.

(** Modelled from the spec: byte strings ("key", "optional value",
    "iname: bytes"). A [BYTESTRING] is its [len] bytes and a [DBT] its
    [size] bytes; [toku_fill_dbt] makes a [DBT] of [len] bytes of [data]
    and [toku_init_dbt] the empty one. *)
Abbreviation BYTESTRING := (list byte).
Abbreviation DBT := (list byte).
#[global] Instance byte_eq_decision : EqDecision byte := Byte.byte_eq_dec.
Definition toku_fill_dbt (data : list byte) (len : nat) : DBT := take len data.
Definition toku_init_dbt : DBT := [].

(** Modelled from the spec: the types of the messages roll.cc sends
    ("Messages emitted to the tree"). *)
Inductive ft_msg_type : Type :=
| FT_COMMIT_ANY
| FT_ABORT_ANY
| FT_COMMIT_BROADCAST_ALL
| FT_COMMIT_BROADCAST_TXN
| FT_ABORT_BROADCAST_TXN.

(** Modelled from the spec: a message, "(kind, key, optional value,
    xid_stack)" with its "zero-valued message-sequence". *)
Record ft_msg : Type := mk_ft_msg {
  msg_key : DBT;
  msg_val : DBT;
  msg_type : ft_msg_type;
  msg_msn : Z;
  msg_xids : list Z
}.

(** Modelled from the spec: the garbage collection context ("GcInfo"),
    with the two uses of the oldest referenced xid and the flag that
    permits implicit promotion. *)
Record txn_gc_info : Type := mk_txn_gc_info {
  oldest_referenced_xid_for_simple_gc : Z;
  oldest_referenced_xid_for_implicit_promotion : Z;
  mvcc_needed : bool
}.

(** Modelled from the spec: a fractal tree, as far as roll.cc looks at
    it: the file number of its cachefile, its checkpoint LSN, the messages
    put at its root (oldest first), [root_xid_that_created] and its
    descriptor. *)
Record FT : Type := mk_FT {
  ft_filenum : Z;
  checkpoint_lsn : Z;
  root_msgs : list (ft_msg * txn_gc_info);
  root_xid_that_created : Z;
  descriptor : DBT
}.

(** Modelled from the spec: a cachefile, with its file number, its name
    in the environment and the unlink-on-close bit. *)
Record CACHEFILE : Type := mk_CACHEFILE {
  cf_filenum : Z;
  fname_in_env : BYTESTRING;
  unlink_on_close : bool
}.

(** Modelled from the spec: the logger ("owns the cachetable and the
    wal"): its cachetable [ct], the LSN up to which the log is fsynced,
    and the "oldest referenced xid estimate" of its transaction
    manager. *)
Record TOKULOGGER : Type := mk_TOKULOGGER {
  ct : list CACHEFILE;
  fsynced_lsn : Z;
  oldest_referenced_xid_estimate : Z
}.

(** Modelled from the spec: [struct tokutxn], declared outside roll.cc
    ("Transaction (Txn)", and the spilled-head and spilled-tail pointers
    of its rollback chain). [xids] lists the outermost transaction
    first. *)
Record TOKUTXN : Type := mk_TOKUTXN {
  for_recovery : bool;
  do_fsync_lsn : Z;
  xids : list Z;
  open_fts : list FT;
  spilled_rollback_head : Z;
  spilled_rollback_tail : Z
}.

(** Modelled from the spec: [struct roll_entry] of the generated
    log_header.h, one case per logged operation ("Rollback entry wire
    format"). *)
Inductive roll_entry : Type :=
| CmdInsert (filenum : Z) (key : BYTESTRING)
| CmdDelete (filenum : Z) (key : BYTESTRING)
| CmdUpdate (filenum : Z) (key : BYTESTRING)
| CmdUpdateBroadcast (filenum : Z) (is_resetting_op : bool)
| FCreate (filenum : Z) (iname : BYTESTRING)
| FDelete (filenum : Z)
| Load (old_filenum : Z) (new_iname : BYTESTRING)
| HotIndex (hot_index_filenums : list Z)
| DictionaryRedirect (old_filenum new_filenum : Z)
| ChangeFDescriptor (filenum : Z) (old_descriptor : BYTESTRING)
| RollInclude (xid : Z * Z) (num_nodes : Z) (spilled_head spilled_tail : Z).

(** Modelled from the spec: a rollback log node ("RollbackLogNode");
    [newest_logentry] is the list of its entries, each followed by its
    [prev]. *)
Record ROLLBACK_LOG_NODE : Type := mk_ROLLBACK_LOG_NODE {
  txnid : Z * Z;
  sequence : Z;
  previous : Z;
  newest_logentry : list roll_entry
}.

(** The calls to the collaborators whose order matters. *)
Inductive event : Type :=
| EvFsync (lsn : Z)
| EvUnlinkOnClose (filenum : Z)
| EvUnlink (fname : BYTESTRING)
| EvRedirectAbort (old_filenum new_filenum : Z)
| EvPrefetch (blocknum : Z).

(** Everything the functions of roll.cc reach through [txn]: the
    transaction, its logger, the rollback log storage with the block
    numbers that are pinned (one occurrence per pin), the files of the
    environment directory, the trace of events so far, and the names
    that [unlink(2)] refuses to remove, each with the [errno] it sets
    ([EISDIR] for a directory, [EACCES], [EPERM], ...). *)
Record state : Type := mk_state {
  txn : TOKUTXN;
  logger : option TOKULOGGER;
  logs : gmap Z ROLLBACK_LOG_NODE;
  pinned : list Z;
  files : list BYTESTRING;
  trace : list event;
  refused : list (BYTESTRING * Z)
}.

Definition set_txn (t : TOKUTXN) (st : state) : state :=
  mk_state t (logger st) (logs st) (pinned st) (files st) (trace st)
    (refused st).
Definition set_logger (l : TOKULOGGER) (st : state) : state :=
  mk_state (txn st) (Some l) (logs st) (pinned st) (files st) (trace st)
    (refused st).
Definition set_logs (m : gmap Z ROLLBACK_LOG_NODE) (st : state) : state :=
  mk_state (txn st) (logger st) m (pinned st) (files st) (trace st)
    (refused st).
Definition set_pinned (p : list Z) (st : state) : state :=
  mk_state (txn st) (logger st) (logs st) p (files st) (trace st)
    (refused st).
Definition set_files (f : list BYTESTRING) (st : state) : state :=
  mk_state (txn st) (logger st) (logs st) (pinned st) f (trace st)
    (refused st).
Definition emit (e : event) (st : state) : state :=
  mk_state (txn st) (logger st) (logs st) (pinned st) (files st)
    (trace st ++ [e]) (refused st).

(** What a call does: it returns [r] in state [st], or an assertion
    fails and the process aborts, or (for the walker only) the fuel of
    the model is used up. *)
Inductive outcome (A : Type) : Type :=
| Returned (r : A) (st : state)
| Fatal
| OutOfFuel.
Arguments Returned {A} r st.
Arguments Fatal {A}.
Arguments OutOfFuel {A}.

(** ** ft/roll.cc: the collaborators *)

(** Modelled from the spec: the cachefile layer ("maps file-ids to open
    files; supports open_by_fileid, unlink_on_close,
    is_unlink_on_close"). A cachefile is named by its position in the
    cachetable; a lookup gives the return code and the cachefile found. *)
Definition toku_cachefile_of_filenum (ct : list CACHEFILE) (filenum : Z)
  : Z * option nat :=
  match list_find (λ cf, cf_filenum cf = filenum) ct with
  | Some (i, _) => (0, Some i)
  | None => (ENOENT, None)
  end.

(** Modelled from the spec: the lookup of a cachefile by its name in the
    environment, like the one by file number. *)
Definition toku_cachefile_of_iname_in_env (ct : list CACHEFILE)
    (iname : BYTESTRING) : Z * option nat :=
  match list_find (λ cf, fname_in_env cf = iname) ct with
  | Some (i, _) => (0, Some i)
  | None => (ENOENT, None)
  end.

(** Modelled from the spec: "is_unlink_on_close". *)
Definition toku_cachefile_is_unlink_on_close (cf : nat) (st : state) : bool :=
  match logger st with
  | Some lg => default false (unlink_on_close <$> ct lg !! cf)
  | None => false
  end.

(** Modelled from the spec: "mark_unlink_on_close(cf): sets a bit on the
    cachefile". *)
Definition toku_cachefile_unlink_on_close (cf : nat) (st : state) : state :=
  match logger st with
  | Some lg =>
      match ct lg !! cf with
      | Some c =>
          let c' := mk_CACHEFILE (cf_filenum c) (fname_in_env c) true in
          emit (EvUnlinkOnClose (cf_filenum c))
            (set_logger (mk_TOKULOGGER (<[cf:=c']> (ct lg)) (fsynced_lsn lg)
                           (oldest_referenced_xid_estimate lg)) st)
      | None => st
      end
  | None => st
  end.

(** Modelled from the spec: "fsync_up_to(lsn): if the WAL has not yet
    flushed lsn, flush; idempotent otherwise". *)
Definition toku_logger_fsync_if_lsn_not_fsynced (lsn : Z) (st : state)
  : state :=
  match logger st with
  | Some lg =>
      if bool_decide (fsynced_lsn lg < lsn)
      then emit (EvFsync lsn)
             (set_logger (mk_TOKULOGGER (ct lg) lsn
                            (oldest_referenced_xid_estimate lg)) st)
      else st
  | None => st
  end.

(** Modelled from the spec: "the targeted tree's checkpoint LSN". *)
Definition toku_ft_checkpoint_lsn (ft : FT) : Z := checkpoint_lsn ft.

(** Modelled from the spec: the message application path
    ("put_message_at_root(ft, msg, gc_info)"); the tree keeps the messages
    put at its root. *)
Definition toku_ft_root_put_msg (ft : FT) (msg : ft_msg) (gc : txn_gc_info)
  : FT :=
  mk_FT (ft_filenum ft) (checkpoint_lsn ft) (root_msgs ft ++ [(msg, gc)])
    (root_xid_that_created ft) (descriptor ft).
(** Modelled from the spec: "reset the tree's root-xid-that-created". *)
Definition toku_reset_root_xid_that_created (ft : FT) (xid : Z) : FT :=
  mk_FT (ft_filenum ft) (checkpoint_lsn ft) (root_msgs ft) xid
    (descriptor ft).
(** Modelled from the spec: the "descriptor update". *)
Definition toku_ft_update_descriptor (ft : FT) (d : DBT) : FT :=
  mk_FT (ft_filenum ft) (checkpoint_lsn ft) (root_msgs ft)
    (root_xid_that_created ft) d.

(** Modelled from the spec: "the txn's current stack". *)
Definition toku_txn_get_xids (t : TOKUTXN) : list Z := xids t.

(** Modelled from the spec: "the outermost xid of the stack", which is
    [TXNID_NONE] for an empty stack. *)
Definition toku_xids_get_outermost_xid (xs : list Z) : Z :=
  match xs with
  | [] => TXNID_NONE
  | x :: _ => x
  end.

(** Modelled from the spec: "pin" of the rollback log storage. Pinning a
    block that the storage does not hold is fatal. *)
Definition toku_get_and_pin_rollback_log (blocknum : Z) (st : state)
  : option (ROLLBACK_LOG_NODE * state) :=
  log ← logs st !! blocknum;
  Some (log, set_pinned (blocknum :: pinned st) st).

(** Modelled from the spec: "Verify (L.owner_xid, L.sequence) matches
    the expected walker state"; a mismatch is fatal. *)
Definition toku_rollback_verify_contents (log : ROLLBACK_LOG_NODE)
    (xid : Z * Z) (seq : Z) : bool :=
  bool_decide (txnid log = xid) && bool_decide (sequence log = seq).

(** Modelled from the spec: "Issue a prefetch hint for L.previous". *)
Definition toku_maybe_prefetch_previous_rollback_log
    (log : ROLLBACK_LOG_NODE) (st : state) : state :=
  if bool_decide (previous log = ROLLBACK_NONE) then st
  else emit (EvPrefetch (previous log)) st.

(** The pins without one pin of the block. *)
Fixpoint remove_pin (blocknum : Z) (pins : list Z) : list Z :=
  match pins with
  | [] => []
  | b :: pins' =>
      if bool_decide (b = blocknum) then pins'
      else b :: remove_pin blocknum pins'
  end.

(** Modelled from the spec: "unpin_and_remove" of the rollback log
    storage, which takes one pin of the block away and the block out of
    the storage. *)
Definition toku_rollback_log_unpin_and_remove (blocknum : Z) (st : state)
  : state :=
  set_logs (delete blocknum (logs st))
    (set_pinned (remove_pin blocknum (pinned st)) st).

(** The [errno] with which [unlink(2)] refuses to remove [fname], if it
    does. *)
Definition unlink_refused (fname : BYTESTRING) (st : state) : option Z :=
  match list_find (λ e, e.1 = fname) (refused st) with
  | Some (_, (_, errno)) => Some errno
  | None => None
  end.

(** Modelled from the spec: the "best-effort unlink of the path", with
    the return value of [unlink(2)] and, when that is not 0, [errno]. The
    call removes the file, or fails because there is no file of that name
    ([ENOENT]), or fails with the [errno] of a refusal and removes
    nothing. *)
Definition unlink (fname : BYTESTRING) (st : state) : Z * Z * state :=
  match unlink_refused fname st with
  | Some errno => (-1, errno, st)
  | None =>
      if bool_decide (fname ∈ files st)
      then (0, 0, emit (EvUnlink fname)
                    (set_files (base.filter (λ f, f ≠ fname) (files st)) st))
      else (-1, ENOENT, st)
  end.

(** The bytes of a C string: those before the first NUL. *)
Fixpoint c_string (data : list byte) : list byte :=
  match data with
  | [] => []
  | b :: data' => if bool_decide (b = x00) then [] else b :: c_string data'
  end.

(** Modelled from the spec: the "path" of the new file of a load.
    [fixup_fname] of the logger, which is not in src/, copies the bytes of
    the name, of which it asserts that there is at least one, and ends
    them with a NUL: the callee sees the name up to its first NUL. *)
Definition fixup_fname (f : BYTESTRING) : option (list byte) :=
  if bool_decide (0 < length f)%nat then Some (c_string f) else None.

(** ** ft/roll.cc: the entry functions *)

(* these flags control whether or not we send commit messages for
   various operations *)
Definition TOKU_DO_COMMIT_CMD_INSERT : bool := false.
Definition TOKU_DO_COMMIT_CMD_DELETE : bool := true.
Definition TOKU_DO_COMMIT_CMD_UPDATE : bool := false.

Definition toku_commit_fdelete (filenum : Z) (oplsn : Z) (st : state)
  : outcome Z :=
  match logger st with
  | None => Fatal
  | Some lg =>
      let ct := ct lg in
      (* Try to get the cachefile for this filenum. A missing file on
         recovery is not an error, but a missing file outside of recovery
         is. *)
      let '(r, cf) := toku_cachefile_of_filenum ct filenum in
      if bool_decide (r = ENOENT)
      then if for_recovery (txn st) then Returned 0 st else Fatal
      else if negb (bool_decide (r = 0)) then Fatal
      else
        match cf with
        | None => Fatal
        | Some cf =>
            let st :=
              match logger st with
              | Some _ =>
                  toku_logger_fsync_if_lsn_not_fsynced
                    (do_fsync_lsn (txn st)) st
              | None => st
              end in
            (* Mark the cachefile as unlink on close. *)
            let st := toku_cachefile_unlink_on_close cf st in
            Returned r st
        end
  end.

Definition toku_rollback_fdelete (filenum : Z) (oplsn : Z) (st : state)
  : outcome Z :=
  (* Rolling back an fdelete is an no-op. *)
  Returned 0 st.

Definition toku_commit_fcreate (filenum : Z) (bs_fname : BYTESTRING)
    (oplsn : Z) (st : state) : outcome Z :=
  Returned 0 st.

Definition toku_rollback_fcreate (filenum : Z) (bs_fname : BYTESTRING)
    (oplsn : Z) (st : state) : outcome Z :=
  match logger st with
  | None => Fatal
  | Some lg =>
      let ct := ct lg in
      (* Try to get the cachefile for this filenum. A missing file on
         recovery is not an error, but a missing file outside of recovery
         is. *)
      let '(r, cf) := toku_cachefile_of_filenum ct filenum in
      if bool_decide (r = ENOENT) then Returned 0 st
      else if negb (bool_decide (r = 0)) then Fatal
      else
        match cf with
        | None => Fatal
        | Some cf =>
            (* Mark the cachefile as unlink on close. *)
            let st := toku_cachefile_unlink_on_close cf st in
            Returned 0 st
        end
  end.

Definition find_ft_from_filenum (ft : FT) (filenum : Z) : Z :=
  let thisfnum := ft_filenum ft in
  if bool_decide (thisfnum < filenum) then -1
  else if bool_decide (thisfnum > filenum) then 1
  else 0.

(** [txn->open_fts.find_zero<FILENUM, find_ft_from_filenum>]: the return
    code, and the position of the tree for which the comparison gives
    0. *)
Definition find_zero (fts : list FT) (filenum : Z) : Z * option (nat * FT) :=
  match list_find (λ ft, find_ft_from_filenum ft filenum = 0) fts with
  | Some found => (0, Some found)
  | None => (DB_NOTFOUND, None)
  end.

(** The tree at position [i] of [txn->open_fts] becomes [ft]. *)
Definition write_ft (i : nat) (ft : FT) (st : state) : state :=
  let t := txn st in
  set_txn (mk_TOKUTXN (for_recovery t) (do_fsync_lsn t) (xids t)
             (<[i:=ft]> (open_fts t)) (spilled_rollback_head t)
             (spilled_rollback_tail t)) st.

(* Input arg reset_root_xid_that_created true means that this operation
   has changed the definition of this dictionary. The oplsn argument is
   ZERO_LSN for normal operation.  When this function is called for
   recovery, it has the LSN of the operation (insert, delete, update,
   etc). *)
Definition do_insertion (type : ft_msg_type) (filenum : Z)
    (key : BYTESTRING) (data : option BYTESTRING) (oplsn : Z)
    (reset_root_xid_that_created : bool) (st : state) : outcome Z :=
  let '(r, found) := find_zero (open_fts (txn st)) filenum in
  if bool_decide (r = DB_NOTFOUND)
  then if for_recovery (txn st) then Returned 0 st else Fatal
  else if negb (bool_decide (r = 0)) then Fatal
  else
    match found with
    | None => Fatal
    | Some (i, ft) =>
        if negb (bool_decide (oplsn = 0))
           && bool_decide (oplsn ≤ toku_ft_checkpoint_lsn ft)
        then
          (* operation was already applied to tree: do not apply it
             again. *)
          Returned 0 st
        else
          let xids := toku_txn_get_xids (txn st) in
          let kdbt := if bool_decide (0 < length key)%nat
                      then toku_fill_dbt key (length key)
                      else toku_init_dbt in
          let vdbt := match data with
                      | Some d => toku_fill_dbt d (length d)
                      | None => toku_init_dbt
                      end in
          let msg := mk_ft_msg kdbt vdbt type ZERO_MSN xids in
          match logger st with
          | None => Fatal
          | Some lg =>
              let estimate := oldest_referenced_xid_estimate lg in
              let gc_info :=
                mk_txn_gc_info estimate estimate
                  (negb (for_recovery (txn st))) in
              let ft := toku_ft_root_put_msg ft msg gc_info in
              let ft :=
                if reset_root_xid_that_created
                then toku_reset_root_xid_that_created ft
                       (toku_xids_get_outermost_xid xids)
                else ft in
              Returned r (write_ft i ft st)
          end
    end.

Definition do_nothing_with_filenum (filenum : Z) (st : state) : outcome Z :=
  Returned 0 st.

Definition toku_commit_cmdinsert (filenum : Z) (key : BYTESTRING)
    (oplsn : Z) (st : state) : outcome Z :=
  if TOKU_DO_COMMIT_CMD_INSERT
  then do_insertion FT_COMMIT_ANY filenum key None oplsn false st
  else do_nothing_with_filenum filenum st.

Definition toku_rollback_cmdinsert (filenum : Z) (key : BYTESTRING)
    (oplsn : Z) (st : state) : outcome Z :=
  do_insertion FT_ABORT_ANY filenum key None oplsn false st.

Definition toku_commit_cmdupdate (filenum : Z) (key : BYTESTRING)
    (oplsn : Z) (st : state) : outcome Z :=
  if TOKU_DO_COMMIT_CMD_UPDATE
  then do_insertion FT_COMMIT_ANY filenum key None oplsn false st
  else do_nothing_with_filenum filenum st.

Definition toku_rollback_cmdupdate (filenum : Z) (key : BYTESTRING)
    (oplsn : Z) (st : state) : outcome Z :=
  do_insertion FT_ABORT_ANY filenum key None oplsn false st.

Definition toku_commit_cmdupdatebroadcast (filenum : Z)
    (is_resetting_op : bool) (oplsn : Z) (st : state) : outcome Z :=
  (* if is_resetting_op, reset root_xid_that_created in relevant ft. *)
  let reset_root_xid_that_created := if is_resetting_op then true else false in
  let msg_type := if is_resetting_op then FT_COMMIT_BROADCAST_ALL
                  else FT_COMMIT_BROADCAST_TXN in
  let nullkey : BYTESTRING := [] in
  do_insertion msg_type filenum nullkey None oplsn
    reset_root_xid_that_created st.

Definition toku_rollback_cmdupdatebroadcast (filenum : Z)
    (is_resetting_op : bool) (oplsn : Z) (st : state) : outcome Z :=
  let nullkey : BYTESTRING := [] in
  do_insertion FT_ABORT_BROADCAST_TXN filenum nullkey None oplsn false st.

Definition toku_commit_cmddelete (filenum : Z) (key : BYTESTRING)
    (oplsn : Z) (st : state) : outcome Z :=
  if TOKU_DO_COMMIT_CMD_DELETE
  then do_insertion FT_COMMIT_ANY filenum key None oplsn false st
  else do_nothing_with_filenum filenum st.

Definition toku_rollback_cmddelete (filenum : Z) (key : BYTESTRING)
    (oplsn : Z) (st : state) : outcome Z :=
  do_insertion FT_ABORT_ANY filenum key None oplsn false st.

(** *** The walker of a spliced subchain *)

(** The local variables of [toku_apply_rollinclude], the two by-value
    parameters [spilled_head] and [spilled_tail] among them. *)
Record locals : Type := mk_locals {
  next_log : Z;
  last_sequence : Z;
  found_head : bool;
  spilled_head_arg : Z;
  spilled_tail_arg : Z
}.

Section Apply.
(** [apply_rollback_item func]; the [txn] argument is in the state. *)
Variable func : roll_entry → Z → state → outcome Z.

(** The inner loop, on the pinned node [log] of block [blocknum]:
[[
  while ((item=log->newest_logentry)) {
      log->newest_logentry = item->prev;
      r = func(txn, item, oplsn);
      if (r!=0) return r;
  }
]]
    [log] points into the storage, so that the node is read again on each
    turn. The result is the [r] of the early return, or 0 when the list
    is exhausted. *)
Fixpoint apply_items (fuel : nat) (blocknum : Z) (oplsn : Z) (st : state)
  : outcome Z :=
  match fuel with
  | O => OutOfFuel
  | S fuel' =>
      match logs st !! blocknum with
      | None => Fatal
      | Some log =>
          match newest_logentry log with
          | [] => Returned 0 st
          | item :: prev =>
              let log := mk_ROLLBACK_LOG_NODE (txnid log) (sequence log)
                           (previous log) prev in
              let st := set_logs (<[blocknum:=log]> (logs st)) st in
              match func item oplsn st with
              | Returned r st =>
                  if negb (bool_decide (r = 0)) then Returned r st
                  else apply_items fuel' blocknum oplsn st
              | Fatal => Fatal
              | OutOfFuel => OutOfFuel
              end
          end
      end
  end.

(** The outer loop [while (next_log.b != ROLLBACK_NONE.b)]. The result is
    the value returned and the local variables at that point. *)
Fixpoint apply_nodes (fuel : nat) (xid : Z * Z) (l : locals) (oplsn : Z)
    (st : state) : outcome (Z * locals) :=
  match fuel with
  | O => OutOfFuel
  | S fuel' =>
      if bool_decide (next_log l = ROLLBACK_NONE) then Returned (0, l) st
      else
        let blocknum := next_log l in
        (* pin log *)
        match toku_get_and_pin_rollback_log blocknum st with
        | None => Fatal
        | Some (log, st) =>
            if negb (toku_rollback_verify_contents log xid
                       ((last_sequence l - 1) `mod` 2 ^ 64))
            then Fatal
            else
              let l := mk_locals (next_log l) (sequence log) (found_head l)
                         (spilled_head_arg l) (spilled_tail_arg l) in
              let st := toku_maybe_prefetch_previous_rollback_log log st in
              match apply_items fuel' blocknum oplsn st with
              | Returned r st =>
                  if negb (bool_decide (r = 0)) then Returned (r, l) st
                  else
                    match logs st !! blocknum with
                    | None => Fatal
                    | Some log =>
                        let at_head :=
                          bool_decide (next_log l = spilled_head_arg l) in
                        if at_head
                           && (found_head l
                               || negb (bool_decide (sequence log = 0)))
                        then Fatal
                        else
                          let found := if at_head then true else found_head l in
                          let next := previous log in
                          (* Clean up transaction structure to prevent
                             toku_txn_close from double-freeing *)
                          if found && negb (bool_decide (next = ROLLBACK_NONE))
                          then Fatal
                          else
                            let l :=
                              mk_locals next (last_sequence l) found
                                (if found then next else spilled_head_arg l)
                                next in
                            let st :=
                              toku_rollback_log_unpin_and_remove blocknum st in
                            apply_nodes fuel' xid l oplsn st
                    end
              | Fatal => Fatal
              | OutOfFuel => OutOfFuel
              end
        end
  end.

Definition toku_apply_rollinclude (fuel : nat) (xid : Z * Z) (num_nodes : Z)
    (spilled_head spilled_tail : Z) (oplsn : Z) (st : state) : outcome Z :=
  let l := mk_locals spilled_tail num_nodes false spilled_head spilled_tail in
  if bool_decide (next_log l = ROLLBACK_NONE) then Fatal
  else
    match apply_nodes fuel xid l oplsn st with
    | Returned (r, _) st => Returned r st
    | Fatal => Fatal
    | OutOfFuel => OutOfFuel
    end.

End Apply.

Section RollInclude.
(** The two dispatchers of the generated header, which call the entry
    function of the case of [item] with its fields. *)
Variable toku_commit_rollback_item : roll_entry → Z → state → outcome Z.
Variable toku_abort_rollback_item : roll_entry → Z → state → outcome Z.

Definition toku_commit_rollinclude (fuel : nat) (xid : Z * Z) (num_nodes : Z)
    (spilled_head spilled_tail : Z) (oplsn : Z) (st : state) : outcome Z :=
  toku_apply_rollinclude toku_commit_rollback_item fuel xid num_nodes
    spilled_head spilled_tail oplsn st.

Definition toku_rollback_rollinclude (fuel : nat) (xid : Z * Z)
    (num_nodes : Z) (spilled_head spilled_tail : Z) (oplsn : Z) (st : state)
  : outcome Z :=
  toku_apply_rollinclude toku_abort_rollback_item fuel xid num_nodes
    spilled_head spilled_tail oplsn st.

End RollInclude.

(** *** Load, hot index, redirect and descriptor change *)

Definition toku_commit_load (old_filenum : Z) (new_iname : BYTESTRING)
    (oplsn : Z) (st : state) : outcome Z :=
  match logger st with
  | None => Fatal
  | Some lg =>
      let ct := ct lg in
      (* To commit a dictionary load, we delete the old file *)
      let '(r, old_cf) := toku_cachefile_of_filenum ct old_filenum in
      if bool_decide (r = ENOENT)
      then if for_recovery (txn st) then Returned 0 st else Fatal
      else if negb (bool_decide (r = 0)) then Fatal
      else
        match old_cf with
        | None => Fatal
        | Some old_cf =>
            let st :=
              match logger st with
              | Some _ =>
                  toku_logger_fsync_if_lsn_not_fsynced
                    (do_fsync_lsn (txn st)) st
              | None => st
              end in
            let st :=
              if negb (toku_cachefile_is_unlink_on_close old_cf st)
              then toku_cachefile_unlink_on_close old_cf st
              else st in
            Returned r st
        end
  end.

Definition toku_rollback_load (old_filenum : Z) (new_iname : BYTESTRING)
    (oplsn : Z) (st : state) : outcome Z :=
  match logger st with
  | None => Fatal
  | Some lg =>
      let ct := ct lg in
      (* To rollback a dictionary load, we delete the new file. *)
      match fixup_fname new_iname with
      | None => Fatal
      | Some fname_in_env =>
          let '(r, new_cf) :=
            toku_cachefile_of_iname_in_env ct fname_in_env in
          if bool_decide (r = ENOENT)
          then
            (* It's possible the new iname was never created, so just try
               to unlink it if it's there and ignore the error if it's
               not. *)
            let fname_in_cwd := fname_in_env in
            let '(r, errno, st) := unlink fname_in_cwd st in
            if bool_decide (r = 0) || bool_decide (errno = ENOENT)
            then Returned 0 st
            else Fatal
          else if negb (bool_decide (r = 0)) then Fatal
          else
            match new_cf with
            | None => Fatal
            | Some new_cf =>
                Returned r (toku_cachefile_unlink_on_close new_cf st)
            end
      end
  end.

Definition toku_commit_hot_index (hot_index_filenums : list Z) (oplsn : Z)
    (st : state) : outcome Z :=
  Returned 0 st.

Definition toku_rollback_hot_index (hot_index_filenums : list Z) (oplsn : Z)
    (st : state) : outcome Z :=
  Returned 0 st.

Definition toku_commit_dictionary_redirect (old_filenum new_filenum : Z)
    (oplsn : Z) (st : state) : outcome Z :=
  Returned 0 st.

(** Modelled from the spec: "the engine's redirect-abort primitive", which
    is recorded as an event and returns 0. *)
Definition toku_dictionary_redirect_abort (old_filenum new_filenum : Z)
    (st : state) : Z * state :=
  (0, emit (EvRedirectAbort old_filenum new_filenum) st).

Definition toku_rollback_dictionary_redirect (old_filenum new_filenum : Z)
    (oplsn : Z) (st : state) : outcome Z :=
  (* Redirect only has meaning during normal operation (NOT during
     recovery). *)
  if negb (for_recovery (txn st))
  then
    match logger st with
    | None => Fatal
    | Some lg =>
        let '(r, new_cf) := toku_cachefile_of_filenum (ct lg) new_filenum in
        if negb (bool_decide (r = 0)) then Fatal
        else
          let '(r, old_cf) := toku_cachefile_of_filenum (ct lg) old_filenum in
          if negb (bool_decide (r = 0)) then Fatal
          else
            (* Redirect back from new to old. *)
            let '(r, st) :=
              toku_dictionary_redirect_abort old_filenum new_filenum st in
            if negb (bool_decide (r = 0)) then Fatal else Returned r st
    end
  else Returned 0 st.

Definition toku_commit_change_fdescriptor (filenum : Z)
    (old_descriptor : BYTESTRING) (oplsn : Z) (st : state) : outcome Z :=
  do_nothing_with_filenum filenum st.

Definition toku_rollback_change_fdescriptor (filenum : Z)
    (old_descriptor : BYTESTRING) (oplsn : Z) (st : state) : outcome Z :=
  match logger st with
  | None => Fatal
  | Some lg =>
      let '(r, cf) := toku_cachefile_of_filenum (ct lg) filenum in
      if bool_decide (r = ENOENT)
      then
        (* Missing file on recovered transaction is not an error *)
        if for_recovery (txn st) then Returned 0 st else Fatal
      else if negb (bool_decide (r = 0)) then Fatal
      else
        (* file must be open, because the txn that created it opened it
           and noted it, *)
        let '(r, found) := find_zero (open_fts (txn st)) filenum in
        if negb (bool_decide (r = 0)) then Fatal
        else
          match found with
          | None => Fatal
          | Some (i, ft) =>
              let d := toku_fill_dbt old_descriptor (length old_descriptor) in
              Returned r (write_ft i (toku_ft_update_descriptor ft d) st)
          end
  end.

(** *** The dispatchers *)

(** Modelled from the spec: [toku_commit_rollback_item] of the generated
    header ("entry_fn dispatches on the entry's variant tag to one of
    §4.4's functions"), the dispatcher to the commit side of each case.
    The fuel bounds the nesting of [RollInclude] entries and the walks
    below them. *)
Fixpoint toku_commit_rollback_item (fuel : nat) (item : roll_entry)
    (oplsn : Z) (st : state) : outcome Z :=
  match fuel with
  | O => OutOfFuel
  | S fuel' =>
      match item with
      | CmdInsert filenum key => toku_commit_cmdinsert filenum key oplsn st
      | CmdDelete filenum key => toku_commit_cmddelete filenum key oplsn st
      | CmdUpdate filenum key => toku_commit_cmdupdate filenum key oplsn st
      | CmdUpdateBroadcast filenum is_resetting_op =>
          toku_commit_cmdupdatebroadcast filenum is_resetting_op oplsn st
      | FCreate filenum iname => toku_commit_fcreate filenum iname oplsn st
      | FDelete filenum => toku_commit_fdelete filenum oplsn st
      | Load old_filenum new_iname =>
          toku_commit_load old_filenum new_iname oplsn st
      | HotIndex filenums => toku_commit_hot_index filenums oplsn st
      | DictionaryRedirect old_filenum new_filenum =>
          toku_commit_dictionary_redirect old_filenum new_filenum oplsn st
      | ChangeFDescriptor filenum old_descriptor =>
          toku_commit_change_fdescriptor filenum old_descriptor oplsn st
      | RollInclude xid num_nodes spilled_head spilled_tail =>
          toku_commit_rollinclude (toku_commit_rollback_item fuel') fuel'
            xid num_nodes spilled_head spilled_tail oplsn st
      end
  end.

(** Modelled from the spec: [toku_abort_rollback_item], the dispatcher
    to the abort side of each case. *)
Fixpoint toku_abort_rollback_item (fuel : nat) (item : roll_entry)
    (oplsn : Z) (st : state) : outcome Z :=
  match fuel with
  | O => OutOfFuel
  | S fuel' =>
      match item with
      | CmdInsert filenum key => toku_rollback_cmdinsert filenum key oplsn st
      | CmdDelete filenum key => toku_rollback_cmddelete filenum key oplsn st
      | CmdUpdate filenum key => toku_rollback_cmdupdate filenum key oplsn st
      | CmdUpdateBroadcast filenum is_resetting_op =>
          toku_rollback_cmdupdatebroadcast filenum is_resetting_op oplsn st
      | FCreate filenum iname => toku_rollback_fcreate filenum iname oplsn st
      | FDelete filenum => toku_rollback_fdelete filenum oplsn st
      | Load old_filenum new_iname =>
          toku_rollback_load old_filenum new_iname oplsn st
      | HotIndex filenums => toku_rollback_hot_index filenums oplsn st
      | DictionaryRedirect old_filenum new_filenum =>
          toku_rollback_dictionary_redirect old_filenum new_filenum oplsn st
      | ChangeFDescriptor filenum old_descriptor =>
          toku_rollback_change_fdescriptor filenum old_descriptor oplsn st
      | RollInclude xid num_nodes spilled_head spilled_tail =>
          toku_rollback_rollinclude (toku_abort_rollback_item fuel') fuel'
            xid num_nodes spilled_head spilled_tail oplsn st
      end
  end.

End Roll.

Import Roll.

(** * Properties *)

(** ** Predicates of the specification *)

(** The representation invariant of an [ids_t]: [m_ptr] has [m_reserved]
    cells, of which the first [m_size] are live. *)
Definition ids_wf (v : ids_t.t) : Prop :=
  length (ids_t.m_ptr v) = ids_t.m_reserved v
  ∧ (ids_t.m_size v ≤ ids_t.m_reserved v)%nat.

(** Ascending order; [insert] does not check for duplicates, so that equal
    neighbours are allowed. *)
Definition ascending (l : list Z) : Prop := StronglySorted Z.le l.

(** Ascending order without duplicates. *)
Definition strictly_ascending (l : list Z) : Prop := StronglySorted Z.lt l.

(** How many cells of [l] hold [x]. *)
Definition occurrences (x : Z) (l : list Z) : nat :=
  length (base.filter (λ y, y = x) l).

(** The ids a view keeps of [rw_trx_ids]: all of them but the creator's,
    which is there when it is positive. *)
Definition without_creator (id : Z) (rw_trx_ids : list Z) : list Z :=
  if bool_decide (0 < id) then base.filter (λ x, x ≠ id) rw_trx_ids
  else rw_trx_ids.

(** The invariants of a registered view that the clone relies on: its
    [m_ids] is a well-formed vector in ascending order without duplicates,
    a positive creator id is not among them, and (asserted in a debug
    build) [m_up_limit_id] is not above [m_low_limit_id]. *)
Definition view_invariant (UNIV_DEBUG : bool) (view : ReadView.t) : Prop :=
  ids_wf (ReadView.m_ids view)
  ∧ strictly_ascending (ids_t.contents (ReadView.m_ids view))
  ∧ (0 < ReadView.m_creator_trx_id view →
     ReadView.m_creator_trx_id view ∉ ids_t.contents (ReadView.m_ids view))
  ∧ (UNIV_DEBUG = true →
     ReadView.m_up_limit_id view ≤ ReadView.m_low_limit_id view).

(** [trx_sys] with its mutex held by the calling thread. *)
Definition locked (sys : trx_sys_t) : trx_sys_t :=
  mk_trx_sys (max_trx_id sys) (rw_trx_ids sys) (serialisation_list sys) true.

(** A sequence of calls of [insert], first value first. *)
Fixpoint insert_all (UNIV_DEBUG : bool) (values : list Z) (v : ids_t.t)
  : option ids_t.t :=
  match values with
  | [] => Some v
  | x :: values' =>
      v' ← ids_t.insert UNIV_DEBUG x v;
      insert_all UNIV_DEBUG values' v'
  end.

(** Replaying the events of a trace from a log that is fsynced up to
    [flushed]: whenever a cachefile is marked unlink-on-close, the log is
    fsynced up to [lsn] at least. *)
Fixpoint unlinks_after_fsync (lsn flushed : Z) (tr : list Roll.event) : bool :=
  match tr with
  | [] => true
  | Roll.EvFsync l :: tr' => unlinks_after_fsync lsn (Z.max flushed l) tr'
  | Roll.EvUnlinkOnClose _ :: tr' =>
      bool_decide (lsn ≤ flushed) && unlinks_after_fsync lsn flushed tr'
  | _ :: tr' => unlinks_after_fsync lsn flushed tr'
  end.

(** The message [do_insertion] builds for [key]. *)
Definition key_msg (type : ft_msg_type) (key : list byte) (st : state)
  : ft_msg :=
  mk_ft_msg key [] type ZERO_MSN (xids (txn st)).

(** The garbage collection context [do_insertion] builds. *)
Definition gc_info_of (lg : TOKULOGGER) (st : state) : txn_gc_info :=
  mk_txn_gc_info (oldest_referenced_xid_estimate lg)
    (oldest_referenced_xid_estimate lg) (negb (for_recovery (txn st))).

(** The transaction keeps its spilled-head and spilled-tail pointers. *)
Definition same_spilled (st st' : state) : Prop :=
  spilled_rollback_head (txn st') = spilled_rollback_head (txn st)
  ∧ spilled_rollback_tail (txn st') = spilled_rollback_tail (txn st).

(** The order [ViewCheck] asks of a view and of the view before it in the
    list: an open view is not above its predecessor in
    [m_low_limit_no]. *)
Definition view_after (prev view : ReadView.t) : Prop :=
  ReadView.is_open view = true →
  ReadView.m_low_limit_no view ≤ ReadView.m_low_limit_no prev.

(** The list of a registry agrees with the flags of the views: no view is
    in [m_views] twice, the views of the list are the registered ones, and
    an open view is registered. *)
Definition registry_wf (mvcc : MVCC.t) : Prop :=
  NoDup (MVCC.m_views mvcc)
  ∧ (∀ elem, elem ∈ MVCC.m_views mvcc
             ↔ ∃ view, MVCC.objects mvcc !! elem = Some view
                       ∧ ReadView.is_registered view = true)
  ∧ (∀ elem view, MVCC.objects mvcc !! elem = Some view →
                  ReadView.is_open view = true →
                  ReadView.is_registered view = true).

(** The views of the list other than the one at [elem], in the order of
    the list. *)
Definition other_views (mvcc : MVCC.t) (elem : nat) : list ReadView.t :=
  omap (λ e, MVCC.objects mvcc !! e)
    (base.filter (λ e, e ≠ elem) (MVCC.m_views mvcc)).

(** What [validate] asks of [views] when a view with the [m_low_limit_no]
    [no] is put in front of them: they are in the order of [ViewCheck],
    and the first of them, if it is open, is not above [no]. *)
Definition valid_behind (no : Z) (views : list ReadView.t) : Prop :=
  Sorted view_after views
  ∧ match views with
    | first :: _ =>
        ReadView.is_open first = true → ReadView.m_low_limit_no first ≤ no
    | [] => True
    end.

(** The test of [view_open] for the reuse of a closed view. *)
Definition reusable (sys : trx_sys_t) (trx : MVCC.trx_t)
    (view : ReadView.t) : bool :=
  ReadView.is_registered view
  && MVCC.trx_is_autocommit_non_locking trx
  && ReadView.empty view
  && bool_decide (ReadView.m_low_limit_id view = get_max_trx_id sys).

(** A tree after entry functions ran on it: the same file and checkpoint
    LSN, and the messages it had at its root, followed by new ones. *)
Definition tree_grows (ft ft' : FT) : Prop :=
  ft_filenum ft' = ft_filenum ft
  ∧ checkpoint_lsn ft' = checkpoint_lsn ft
  ∧ root_msgs ft `prefix_of` root_msgs ft'.

(** A cachefile with, possibly, the unlink-on-close bit set. *)
Definition cachefile_kept (c c' : CACHEFILE) : Prop :=
  cf_filenum c' = cf_filenum c
  ∧ fname_in_env c' = fname_in_env c
  ∧ (unlink_on_close c = true → unlink_on_close c' = true).

(** A logger with the same cachefiles, fsynced at least as far. *)
Definition logger_advances (lg lg' : TOKULOGGER) : Prop :=
  Forall2 cachefile_kept (ct lg) (ct lg')
  ∧ fsynced_lsn lg ≤ fsynced_lsn lg'
  ∧ oldest_referenced_xid_estimate lg' = oldest_referenced_xid_estimate lg.

(** What the entry functions keep of a state: the flags and the xids of
    the transaction, its trees up to new messages, the cachefiles up to
    new marks; the log is fsynced no less far, no file is created, and the
    trace is extended. *)
Definition advances (st st' : state) : Prop :=
  for_recovery (txn st') = for_recovery (txn st)
  ∧ do_fsync_lsn (txn st') = do_fsync_lsn (txn st)
  ∧ xids (txn st') = xids (txn st)
  ∧ Forall2 tree_grows (open_fts (txn st)) (open_fts (txn st'))
  ∧ option_Forall2 logger_advances (logger st) (logger st')
  ∧ (∀ f, f ∈ files st' → f ∈ files st)
  ∧ trace st `prefix_of` trace st'.

(** An outcome with the rollback log storage and the pins replaced. *)
Definition with_storage (m : gmap Z ROLLBACK_LOG_NODE) (p : list Z)
    (o : outcome Z) : outcome Z :=
  match o with
  | Returned r st => Returned r (set_pinned p (set_logs m st))
  | Fatal => Fatal
  | OutOfFuel => OutOfFuel
  end.

(** The entry function neither reads nor writes the rollback log storage
    and the pins when it is called on [item]. *)
Definition ignores_storage (func : roll_entry → Z → state → outcome Z)
    (item : roll_entry) : Prop :=
  ∀ oplsn st m p,
    func item oplsn (set_pinned p (set_logs m st))
    = with_storage m p (func item oplsn st).

(** The entries of a node, newest first, applied one after the other until
    one of them does not return 0. *)
Fixpoint run_items (func : roll_entry → Z → state → outcome Z) (oplsn : Z)
    (items : list roll_entry) (st : state) : outcome Z :=
  match items with
  | [] => Returned 0 st
  | item :: prev =>
      match func item oplsn st with
      | Returned r st' =>
          if negb (bool_decide (r = 0)) then Returned r st'
          else run_items func oplsn prev st'
      | Fatal => Fatal
      | OutOfFuel => OutOfFuel
      end
  end.

(** The nodes of a chain, tail first: the prefetch hint for the node
    before, then the entries of the node. *)
Fixpoint run_nodes (func : roll_entry → Z → state → outcome Z) (oplsn : Z)
    (nodes : list ROLLBACK_LOG_NODE) (st : state) : outcome Z :=
  match nodes with
  | [] => Returned 0 st
  | log :: nodes' =>
      match run_items func oplsn (newest_logentry log)
              (toku_maybe_prefetch_previous_rollback_log log st) with
      | Returned r st' =>
          if negb (bool_decide (r = 0)) then Returned r st'
          else run_nodes func oplsn nodes' st'
      | Fatal => Fatal
      | OutOfFuel => OutOfFuel
      end
  end.

(** The blocks of [chain], tail first, are a chain of the storage [m] that
    starts at [blocknum]: each block holds its node, the nodes belong to
    [xid], their sequence numbers count down from [last_sequence - 1],
    each node names the next block as its previous, and the last names
    none. The block [spilled_head], if it is met, has sequence number 0
    and is the last. *)
Fixpoint chain_from (m : gmap Z ROLLBACK_LOG_NODE) (xid : Z * Z)
    (spilled_head : Z) (last_sequence : Z) (blocknum : Z)
    (chain : list (Z * ROLLBACK_LOG_NODE)) : Prop :=
  match chain with
  | [] => blocknum = ROLLBACK_NONE
  | (b, log) :: chain' =>
      b = blocknum
      ∧ blocknum ≠ ROLLBACK_NONE
      ∧ m !! b = Some log
      ∧ txnid log = xid
      ∧ sequence log = (last_sequence - 1) `mod` 2 ^ 64
      ∧ (b = spilled_head →
         sequence log = 0 ∧ previous log = ROLLBACK_NONE)
      ∧ chain_from m xid spilled_head (sequence log) (previous log) chain'
  end.

(** The entries of the nodes of a chain, in the order of the walk. *)
Definition entries_of (chain : list (Z * ROLLBACK_LOG_NODE))
  : list roll_entry :=
  concat (newest_logentry <$> chain.*2).

(** The rollback log storage only loses nodes: a node of [st'] is a node
    of [st] with the same owner, sequence number and previous block. *)
Definition storage_shrinks (st st' : state) : Prop :=
  ∀ b log',
    logs st' !! b = Some log' →
    ∃ log, logs st !! b = Some log
           ∧ txnid log' = txnid log
           ∧ sequence log' = sequence log
           ∧ previous log' = previous log.

(** From [st] to [st'] the storage has only lost nodes, and every node
    that a walk went on to in between, which the prefetch hint for it
    records, is no longer in the storage. *)
Definition drains (st st' : state) : Prop :=
  storage_shrinks st st'
  ∧ ∃ events,
      trace st' = trace st ++ events
      ∧ ∀ b, EvPrefetch b ∈ events → logs st' !! b = None.

(** ** Example states *)

(** The views of a registry, first one first: a young open view, the view
    a transaction 5 prepared when the ids 3, 5 and 8 were active, and a
    closed view that is still registered. *)
Definition ex_sys : trx_sys_t := mk_trx_sys 9 [3; 5; 8] [] false.
Definition ex_view_young : ReadView.t :=
  ReadView.mk 12 12 0 ids_t.init 12 true true.
Definition ex_view_oldest : ReadView.t :=
  ReadView.mk 9 3 5 (ids_t.mk (3 :: 8 :: replicate 30 0) 2 32) 9 true true.
Definition ex_view_closed : ReadView.t :=
  ReadView.mk 4 4 0 ids_t.init 4 false true.
Definition ex_views : list ReadView.t :=
  [ex_view_young; ex_view_oldest; ex_view_closed].
Definition ex_view : ReadView.t := ReadView.mk 0 0 0 ids_t.init 0 false false.

(** A registry with the views above at the addresses 1 and 2, and with
    the unregistered view of a transaction 5 at the address 3. *)
Definition ex_mvcc : MVCC.t :=
  MVCC.mk [1; 2]%nat
    (<[1%nat:=ex_view_young]>
       (<[2%nat:=ex_view_closed]> (<[3%nat:=ex_view]> ∅))).
Definition ex_trx : MVCC.trx_t := MVCC.mk_trx 5 false 3.


(** A transaction outside recovery (xid 1) that has tree 7 open and one
    spilled rollback node of its own, block 5, which the walker of the
    transaction has pinned and emptied. Its child (xid 10) logged the
    insertions of the keys "k" and "l" into tree 7, in the nodes 20, 21
    and 22, and committed into it. The log is fsynced up to LSN 30, and the
    cachetable holds the files 7 and 9. *)
Definition ex_ft : Roll.FT := Roll.mk_FT 7 150 [] 0 [].
Definition ex_txn : Roll.TOKUTXN := Roll.mk_TOKUTXN false 42 [1] [ex_ft] 5 5.
Definition ex_logger : Roll.TOKULOGGER :=
  Roll.mk_TOKULOGGER
    [Roll.mk_CACHEFILE 7 ["f"%byte] false; Roll.mk_CACHEFILE 9 ["g"%byte] false]
    30 1.
Definition ex_logs : gmap Z Roll.ROLLBACK_LOG_NODE :=
  list_to_map
    [(5, Roll.mk_ROLLBACK_LOG_NODE (1, 0) 0 Roll.ROLLBACK_NONE []);
     (20, Roll.mk_ROLLBACK_LOG_NODE (1, 10) 0 Roll.ROLLBACK_NONE
            [Roll.CmdInsert 7 ["k"%byte]]);
     (21, Roll.mk_ROLLBACK_LOG_NODE (1, 10) 1 20 []);
     (22, Roll.mk_ROLLBACK_LOG_NODE (1, 10) 2 21
            [Roll.CmdInsert 7 ["l"%byte]])].
Definition ex_state : Roll.state :=
  Roll.mk_state ex_txn (Some ex_logger) ex_logs [5] [] [] [].

(** The subchain of the child transaction in the storage of the example,
    tail first. *)
Definition ex_chain : list (Z * Roll.ROLLBACK_LOG_NODE) :=
  [(22, Roll.mk_ROLLBACK_LOG_NODE (1, 10) 2 21 [Roll.CmdInsert 7 ["l"%byte]]);
   (21, Roll.mk_ROLLBACK_LOG_NODE (1, 10) 1 20 []);
   (20, Roll.mk_ROLLBACK_LOG_NODE (1, 10) 0 Roll.ROLLBACK_NONE
          [Roll.CmdInsert 7 ["k"%byte]])].

(** ** Heap arrays and the binary search *)

Section Arrays.
Implicit Types (a p : list Z) (i j n : nat).

Lemma ut_ad_true d c : c = true → ut_ad d c = Some ().
Proof. intros ->. by destruct d. Qed.

Lemma sorted_lookup_le a i j x y :
  ascending a → (i < j)%nat → a !! i = Some x → a !! j = Some y → x ≤ y.
Proof.
  intros Hs. revert i j. induction Hs as [|z a Hs IH Hall]; intros i j Hij Hi Hj.
  - by rewrite lookup_nil in Hi.
  - destruct j as [|j]; [lia|]. simpl in Hj. destruct i as [|i]; simpl in Hi.
    + injection Hi as ->. rewrite Forall_forall in Hall.
      apply Hall, list_elem_of_lookup. eauto.
    + apply (IH i j); [lia|done..].
Qed.

Lemma bound_loop_spec (go_right : Z → bool) a fuel : ∀ first len,
  (len ≤ fuel)%nat →
  (first + len ≤ length a)%nat →
  (∀ i j x y, (first ≤ i)%nat → (i < j)%nat → (j < first + len)%nat →
     a !! i = Some x → a !! j = Some y → go_right y = true → go_right x = true) →
  ∃ r, bound_loop go_right a fuel first len = Some r
       ∧ (first ≤ r ≤ first + len)%nat
       ∧ (∀ i x, (first ≤ i < r)%nat → a !! i = Some x → go_right x = true)
       ∧ (∀ i x, (r ≤ i < first + len)%nat → a !! i = Some x →
            go_right x = false).
Proof.
  induction fuel as [|fuel IH]; intros first len Hfuel Hlen Hmono.
  - exists first. simpl. repeat split; try lia; intros; lia.
  - cbn [bound_loop]. case_bool_decide as Hz.
    { exists first. repeat split; try lia; intros; lia. }
    assert (len / 2 < len)%nat as Hhalf by (apply Nat.div_lt; lia).
    remember (len / 2)%nat as half eqn:Hhalf_def. clear Hhalf_def.
    destruct (a !! (first + half)%nat) as [x|] eqn:Hx;
      [|apply lookup_ge_None in Hx; lia].
    cbn [mbind option_bind]. destruct (go_right x) eqn:Hgo.
    + destruct (IH (first + half + 1)%nat (len - half - 1)%nat)
        as (r & Hr & Hb & Hl & Hu); [lia|lia|..].
      { intros i j y z ???. apply Hmono; lia. }
      exists r. split; [done|]. split; [lia|]. split.
      * intros i y Hi Hy. destruct (decide (i < first + half)%nat).
        -- by apply (Hmono i (first + half)%nat y x); try lia.
        -- destruct (decide (i = first + half)%nat) as [->|]; [congruence|].
           apply (Hl i); [lia|done].
      * intros i y Hi Hy. apply (Hu i); [lia|done].
    + destruct (IH first half) as (r & Hr & Hb & Hl & Hu); [lia|lia|..].
      { intros i j y z ???. apply Hmono; lia. }
      exists r. split; [done|]. split; [lia|]. split; [done|].
      intros i y Hi Hy. destruct (decide (i < first + half)%nat).
      * apply (Hu i); [lia|done].
      * destruct (decide (i = first + half)%nat) as [->|]; [congruence|].
        destruct (go_right y) eqn:Hy'; [|done].
        rewrite <- Hgo. symmetry.
        apply (Hmono (first + half)%nat i x y); try done; lia.
Qed.

(** On the [n] ascending cells at the front of [a], [upper_bound] gives
    the position of the first cell above [value]. *)
Lemma upper_bound_spec a n value :
  (n ≤ length a)%nat → ascending (take n a) →
  ∃ ub, upper_bound a 0 n value = Some ub ∧ (ub ≤ n)%nat
        ∧ Forall (λ x, x ≤ value) (take ub a)
        ∧ Forall (λ x, value < x) (drop ub (take n a)).
Proof.
  intros Hn Hs. unfold upper_bound.
  destruct (bound_loop_spec (λ x, negb (value <? x)) a n 0 n)
    as (r & Hr & Hb & Hl & Hu); [lia|lia|..].
  { intros i j x y _ Hij Hj Hx Hy Hgo.
    assert (x ≤ y).
    { apply (sorted_lookup_le (take n a) i j); [done|done|..];
        rewrite lookup_take_lt; try done; lia. }
    apply negb_true_iff, Z.ltb_ge in Hgo. apply negb_true_iff, Z.ltb_ge. lia. }
  exists r. split; [done|]. split; [lia|]. split.
  - apply Forall_lookup. intros i x Hx.
    apply lookup_take_Some in Hx as [Hx Hi].
    specialize (Hl i x). rewrite Hx in Hl.
    apply negb_true_iff, Z.ltb_ge in Hl; [lia|lia|done].
  - apply Forall_lookup. intros i x Hx.
    rewrite lookup_drop in Hx. apply lookup_take_Some in Hx as [Hx Hi].
    specialize (Hu (r + i)%nat x). rewrite Hx in Hu.
    apply negb_false_iff, Z.ltb_lt in Hu; [lia|lia|done].
Qed.

End Arrays.

(** ** ReadView::ids_t *)

Section IdsT.
Variable UNIV_DEBUG : bool.
Implicit Types (v : ids_t.t) (x value : Z) (n : nat).

Lemma memmove_Some dst d src s n :
  (s + n ≤ length src)%nat → (d + n ≤ length dst)%nat →
  memmove dst d src s n
  = Some (take d dst ++ take n (drop s src) ++ drop (d + n) dst).
Proof. intros. unfold memmove. by rewrite bool_decide_eq_true_2. Qed.

Lemma store_Some (p : list Z) i x :
  (i < length p)%nat → store p i x = Some (<[i:=x]> p).
Proof. intros. unfold store. by rewrite bool_decide_eq_true_2. Qed.

Lemma length_contents v : ids_wf v → length (ids_t.contents v) = ids_t.m_size v.
Proof. intros [Hl Hs]. unfold ids_t.contents. rewrite length_take. lia. Qed.

Lemma resize_spec n v :
  (n ≤ ids_t.m_reserved v)%nat →
  ids_t.resize UNIV_DEBUG n v
  = Some (ids_t.mk (ids_t.m_ptr v) n (ids_t.m_reserved v)).
Proof.
  intros Hn. unfold ids_t.resize, ids_t.capacity.
  rewrite ut_ad_true; [done|]. by apply bool_decide_eq_true_2.
Qed.

Lemma reserve_spec n v :
  ids_wf v →
  ∃ v', ids_t.reserve UNIV_DEBUG n v = Some v' ∧ ids_wf v'
        ∧ ids_t.contents v' = ids_t.contents v
        ∧ ids_t.m_size v' = ids_t.m_size v
        ∧ (n ≤ ids_t.m_reserved v')%nat.
Proof.
  intros [Hlen Hsize]. unfold ids_t.reserve, ids_t.capacity, ids_t.size.
  case_bool_decide as Hn.
  { exists v. by repeat split. }
  set (n' := if bool_decide (n < MIN_TRX_IDS)%nat then MIN_TRX_IDS else n).
  assert (n ≤ n')%nat as Hn' by (subst n'; case_bool_decide; lia).
  cbn [ids_t.m_size ids_t.m_reserved ids_t.m_ptr].
  rewrite ut_ad_true by (apply bool_decide_eq_true_2; lia).
  cbn [mbind option_bind].
  destruct (ids_t.m_ptr v) as [|z p] eqn:Hp.
  - simpl in Hlen. eexists. split; [done|].
    unfold ids_wf, ids_t.contents. cbn [ids_t.m_size ids_t.m_reserved ids_t.m_ptr].
    rewrite length_replicate, Hp.
    assert (ids_t.m_size v = 0%nat) as -> by lia. repeat split; try done; lia.
  - rewrite memmove_Some; [|lia|rewrite length_replicate; lia].
    cbn [mbind option_bind]. eexists. split; [done|].
    unfold ids_wf, ids_t.contents. cbn [ids_t.m_size ids_t.m_reserved ids_t.m_ptr].
    rewrite take_0, drop_0, app_nil_l, Hp.
    assert (length (take (ids_t.m_size v) (z :: p)) = ids_t.m_size v) as Htake
      by (rewrite length_take; lia).
    repeat split; try done; try lia.
    + rewrite length_app, Htake, length_drop, length_replicate. lia.
    + by rewrite take_app_length' by done.
Qed.

Lemma push_back_spec value v :
  ids_wf v → (ids_t.m_size v < ids_t.m_reserved v)%nat →
  ∃ v', ids_t.push_back UNIV_DEBUG value v = Some v' ∧ ids_wf v'
        ∧ ids_t.contents v' = ids_t.contents v ++ [value].
Proof.
  intros [Hlen Hsize] Hroom. unfold ids_t.push_back, ids_t.capacity, ids_t.size.
  rewrite bool_decide_eq_false_2 by lia. cbn [mbind option_bind].
  rewrite store_Some by lia. cbn [mbind option_bind].
  cbn [ids_t.m_size ids_t.m_reserved].
  rewrite ut_ad_true by (apply bool_decide_eq_true_2; lia).
  cbn [mbind option_bind]. eexists. split; [done|].
  unfold ids_wf, ids_t.contents. cbn [ids_t.m_size ids_t.m_reserved ids_t.m_ptr].
  rewrite length_insert. split; [split; [done|lia]|].
  erewrite take_S_r by (apply list_lookup_insert_eq; lia).
  by rewrite take_insert_ge by lia.
Qed.

(** [insert] puts the value behind the cells that are not above it. *)
Lemma insert_spec value v :
  ids_wf v → ascending (ids_t.contents v) → 0 < value →
  ∃ v' k, ids_t.insert UNIV_DEBUG value v = Some v' ∧ ids_wf v'
    ∧ ids_t.contents v'
      = take k (ids_t.contents v) ++ value :: drop k (ids_t.contents v)
    ∧ Forall (λ x, x ≤ value) (take k (ids_t.contents v))
    ∧ Forall (λ x, value < x) (drop k (ids_t.contents v)).
Proof.
  intros Hwf Hasc Hpos. unfold ids_t.insert.
  rewrite ut_ad_true by (apply bool_decide_eq_true_2; lia).
  cbn [mbind option_bind].
  destruct (reserve_spec (ids_t.size v + 1) v Hwf)
    as (v1 & -> & Hwf1 & Hc1 & Hs1 & Hr1).
  cbn [mbind option_bind]. rewrite <- Hc1 in *. unfold ids_t.size in *.
  rewrite <- Hs1 in Hr1. clear Hc1 Hs1 Hwf v. rename v1 into v.
  destruct Hwf1 as [Hlen Hsize].
  assert (length (ids_t.contents v) = ids_t.m_size v) as Hclen
    by (apply length_contents; by split).
  (* the live cells in front of position [m_size] *)
  destruct (ids_t.empty v) eqn:Hempty.
  { (* empty *)
    apply bool_decide_eq_true_1 in Hempty. unfold ids_t.size in Hempty.
    cbn [mbind option_bind].
    destruct (push_back_spec value v) as (v' & Hpb & Hwf' & Hc'); [by split|lia|].
    exists v', 0%nat. rewrite Hpb. split; [done|]. split; [done|].
    assert (ids_t.contents v = []) as Hnil
      by (apply nil_length_inv; lia).
    rewrite Hc', Hnil. by repeat split. }
  apply bool_decide_eq_false_1 in Hempty. unfold ids_t.size in Hempty.
  unfold ids_t.back. rewrite ut_ad_true
    by (unfold ids_t.empty, ids_t.size; by rewrite bool_decide_eq_false_2).
  cbn [mbind option_bind]. rewrite bool_decide_eq_false_2 by done.
  destruct (ids_t.m_ptr v !! (ids_t.m_size v - 1)%nat) as [b|] eqn:Hb;
    [|apply lookup_ge_None in Hb; lia].
  cbn [mbind option_bind].
  assert (ids_t.contents v !! (ids_t.m_size v - 1)%nat = Some b) as Hbc
    by (unfold ids_t.contents; rewrite lookup_take_lt; [done|lia]).
  assert (Forall (λ x, x ≤ b) (ids_t.contents v)) as Hmax.
  { apply Forall_lookup. intros i x Hx.
    destruct (decide (i = ids_t.m_size v - 1)%nat) as [->|]; [naive_solver lia|].
    apply lookup_lt_Some in Hx as Hi.
    apply (sorted_lookup_le (ids_t.contents v) i (ids_t.m_size v - 1)%nat);
      [done|lia|done..]. }
  case_bool_decide as Hlt.
  { (* the last cell is below the value *)
    destruct (push_back_spec value v) as (v' & Hpb & Hwf' & Hc'); [by split|lia|].
    exists v', (ids_t.m_size v). rewrite Hpb. split; [done|]. split; [done|].
    rewrite take_ge, drop_ge by lia. rewrite Hc'. split; [done|]. split.
    - eapply Forall_impl; [done|]. simpl. lia.
    - constructor. }
  destruct (upper_bound_spec (ids_t.m_ptr v) (ids_t.m_size v) value)
    as (ub & Hub & Hle & Hlow & Hhigh); [lia|done|].
  unfold ids_t.data, ids_t.size. rewrite Hub. cbn [mbind option_bind].
  assert (take ub (ids_t.contents v) = take ub (ids_t.m_ptr v)) as Htk.
  { unfold ids_t.contents. rewrite take_take. f_equal. lia. }
  case_bool_decide as Hend.
  { (* no cell is above the value *)
    destruct (push_back_spec value v) as (v' & Hpb & Hwf' & Hc'); [by split|lia|].
    exists v', (ids_t.m_size v). rewrite Hpb. split; [done|]. split; [done|].
    rewrite take_ge, drop_ge by lia. rewrite Hc'. split; [done|]. split.
    - subst ub. exact Hlow.
    - constructor. }
  rewrite ut_ad_true by (apply bool_decide_eq_true_2; lia).
  cbn [mbind option_bind].
  rewrite memmove_Some by lia. cbn [mbind option_bind].
  set (p := ids_t.m_ptr v) in *. set (m := ids_t.m_size v) in *.
  assert (length (take (ub + 1) p) = (ub + 1)%nat) as Hl1
    by (rewrite length_take; lia).
  rewrite store_Some by (rewrite length_app, Hl1; lia).
  cbn [mbind option_bind].
  rewrite resize_spec
    by (cbn [ids_t.m_reserved]; unfold ids_t.size; cbn [ids_t.m_size]; lia).
  cbn [ids_t.m_size ids_t.m_reserved ids_t.m_ptr].
  eexists _, ub. split; [done|]. unfold ids_t.size. cbn [ids_t.m_size].
  assert (<[ub:=value]> (take (ub + 1) p ++ take (m - ub) (drop ub p)
                           ++ drop (ub + 1 + (m - ub)) p)
          = take ub p ++ [value] ++ take (m - ub) (drop ub p)
              ++ drop (ub + 1 + (m - ub)) p) as Hins.
  { destruct (p !! ub) as [y|] eqn:Hy; [|apply lookup_ge_None in Hy; lia].
    replace (ub + 1)%nat with (S ub) by lia.
    rewrite (take_S_r _ _ y) by done. rewrite <- !app_assoc.
    assert (length (take ub p) = ub) as Hl0 by (rewrite length_take; lia).
    rewrite <- (Nat.add_0_r ub) at 1. rewrite <- Hl0 at 1.
    by rewrite insert_app_r. }
  rewrite Hins. split.
  { split; cbn [ids_t.m_size ids_t.m_reserved ids_t.m_ptr]; [|lia].
    rewrite !length_app, !length_take, !length_drop. simpl. lia. }
  split; [|by rewrite Htk].
  unfold ids_t.contents at 1. cbn [ids_t.m_size ids_t.m_ptr].
  rewrite Htk. unfold ids_t.contents. fold p m.
  rewrite (take_drop_commute p (m - ub) ub).
  replace (ub + (m - ub))%nat with m by lia.
  rewrite !app_assoc. rewrite take_app_length'; [by rewrite <- !app_assoc|].
  rewrite !length_app, length_take, length_drop, length_take. simpl. lia.
Qed.

End IdsT.

Section Ascending.
Implicit Types (l : list Z) (x : Z) (k : nat).

Lemma ascending_put l k x :
  ascending l → Forall (λ y, y ≤ x) (take k l) → Forall (λ y, x < y) (drop k l) →
  ascending (take k l ++ x :: drop k l).
Proof.
  unfold ascending. intros Hs Hlow Hhigh.
  rewrite <- (take_drop k l) in Hs.
  apply StronglySorted_app in Hs as (Hcross & Hs1 & Hs2).
  apply StronglySorted_app. split; [|split; [done|]].
  - intros y z Hy Hz. rewrite Forall_forall in Hlow, Hhigh.
    apply elem_of_cons in Hz as [->|Hz]; [by apply Hlow|].
    by apply Hcross.
  - apply StronglySorted_cons. split; [|done].
    eapply Forall_impl; [done|]. simpl. lia.
Qed.


Lemma strictly_ascending_ascending l : strictly_ascending l → ascending l.
Proof.
  unfold strictly_ascending, ascending. induction 1 as [|x l Hs IH Hall].
  - constructor.
  - constructor; [done|]. eapply Forall_impl; [done|]. simpl. lia.
Qed.

Lemma put_perm l k x : take k l ++ x :: drop k l ≡ₚ x :: l.
Proof. by rewrite <- Permutation_middle, take_drop. Qed.

End Ascending.

Lemma insert_all_spec (UNIV_DEBUG : bool) (values : list Z) : ∀ v : ids_t.t,
  ids_wf v → ascending (ids_t.contents v) → Forall (λ x, 0 < x) values →
  ∃ v', insert_all UNIV_DEBUG values v = Some v' ∧ ids_wf v'
        ∧ ascending (ids_t.contents v')
        ∧ ids_t.contents v' ≡ₚ values ++ ids_t.contents v.
Proof.
  induction values as [|x values IH]; intros v Hwf Hasc Hpos.
  - exists v. by split_and!.
  - apply Forall_cons in Hpos as [Hx Hpos]. cbn [insert_all].
    destruct (insert_spec UNIV_DEBUG x v Hwf Hasc Hx)
      as (v1 & k & -> & Hwf1 & Hc1 & Hlow & Hhigh).
    cbn [mbind option_bind].
    destruct (IH v1) as (v' & Hv' & Hwf' & Hasc' & Hperm); [done| |done|].
    { rewrite Hc1. by apply ascending_put. }
    exists v'. split_and!; [done..|].
    rewrite Hperm, Hc1, put_perm. simpl. symmetry. apply Permutation_middle.
Qed.

(** C9. Any sequence of calls of [ReadView::ids_t::insert] with positive
    values, on a vector that is empty or in ascending order, returns and
    leaves the vector in ascending order, holding the values inserted and
    the cells it had; one call on an empty vector leaves the vector with
    that one value. *)
Theorem ids_insert_keeps_ascending (UNIV_DEBUG : bool) (values : list Z)
    (v : ids_t.t) :
  ids_wf v → ascending (ids_t.contents v) → Forall (λ x, 0 < x) values →
  ∃ v', insert_all UNIV_DEBUG values v = Some v'
        ∧ ids_wf v'
        ∧ ascending (ids_t.contents v')
        ∧ ids_t.contents v' ≡ₚ values ++ ids_t.contents v
        ∧ (∀ x, values = [x] → ids_t.empty v = true →
             ids_t.contents v' = [x]).
Proof.
  intros Hwf Hasc Hpos.
  destruct (insert_all_spec UNIV_DEBUG values v Hwf Hasc Hpos)
    as (v' & Hv' & Hwf' & Hasc' & Hperm).
  exists v'. split_and!; [done..|].
  intros x -> Hempty. apply bool_decide_eq_true_1 in Hempty.
  assert (ids_t.contents v = []) as Hnil.
  { apply nil_length_inv. rewrite length_contents by done. exact Hempty. }
  rewrite Hnil in Hperm. simpl in Hperm.
  by apply Permutation_singleton_r.
Qed.

Lemma ids_insert_keeps_ascending_witness :
  ∃ v', insert_all true [5; 3; 8; 3] ids_t.init = Some v'
        ∧ ids_wf v'
        ∧ ascending (ids_t.contents v')
        ∧ ids_t.contents v' ≡ₚ [5; 3; 8; 3] ++ ids_t.contents ids_t.init
        ∧ (∀ x, [5; 3; 8; 3] = [x] → ids_t.empty ids_t.init = true →
             ids_t.contents v' = [x]).
Proof.
  apply (ids_insert_keeps_ascending true [5; 3; 8; 3] ids_t.init).
  - split; simpl; lia.
  - constructor.
  - repeat constructor.
Defined.

(** ** ReadView *)

Section ReadViewProofs.
Variable UNIV_DEBUG : bool.
Implicit Types (view : ReadView.t) (sys : trx_sys_t) (l : list Z) (id : Z).

Lemma ut_ad_ok c : (UNIV_DEBUG = true → c = true) → ut_ad UNIV_DEBUG c = Some ().
Proof. unfold ut_ad. destruct UNIV_DEBUG; [|done]. by intros ->. Qed.

Lemma lower_bound_spec l value :
  ascending l →
  ∃ lb, lower_bound l 0 (length l) value = Some lb ∧ (lb ≤ length l)%nat
        ∧ Forall (λ x, x < value) (take lb l)
        ∧ Forall (λ x, value ≤ x) (drop lb l).
Proof.
  intros Hs. unfold lower_bound.
  destruct (bound_loop_spec (λ x, x <? value) l (length l) 0 (length l))
    as (r & Hr & Hb & Hl & Hu); [lia|lia|..].
  { intros i j x y _ Hij Hj Hx Hy Hgo.
    assert (x ≤ y) by by apply (sorted_lookup_le l i j).
    apply Z.ltb_lt in Hgo. apply Z.ltb_lt. lia. }
  exists r. split; [done|]. split; [lia|]. split.
  - apply Forall_lookup. intros i x Hx.
    apply lookup_take_Some in Hx as [Hx Hi].
    apply Z.ltb_lt. apply (Hl i); [lia|done].
  - apply Forall_lookup. intros i x Hx. rewrite lookup_drop in Hx.
    apply lookup_lt_Some in Hx as Hi.
    apply Z.ltb_ge. apply (Hu (r + i)%nat); [lia|done].
Qed.

Lemma occurrences_split id l :
  occurrences id l = 1%nat →
  ∃ l1 l2, l = l1 ++ id :: l2 ∧ (id ∉ l1) ∧ (id ∉ l2).
Proof.
  unfold occurrences. induction l as [|x l IH]; [done|].
  rewrite filter_cons. case_decide as Hx; simpl.
  - subst x. intros Hlen. exists [], l. split; [done|]. split; [apply not_elem_of_nil|].
    intros Hin. assert (id ∈ base.filter (λ y, y = id) l) as Hf
      by by apply list_elem_of_filter.
    destruct (base.filter (λ y, y = id) l); [by apply elem_of_nil in Hf|].
    simpl in Hlen. lia.
  - intros Hlen. destruct (IH Hlen) as (l1 & l2 & -> & H1 & H2).
    exists (x :: l1), l2. split; [done|]. split; [|done].
    apply not_elem_of_cons. by split.
Qed.

Lemma filter_all (P : Z → Prop) `{∀ x, Decision (P x)} l :
  Forall P l → base.filter P l = l.
Proof.
  induction 1 as [|x l Hx Hl IH]; [done|].
  by rewrite filter_cons_True, IH.
Qed.

Lemma filter_without id l1 l2 :
  id ∉ l1 → id ∉ l2 →
  base.filter (λ x, x ≠ id) (l1 ++ id :: l2) = l1 ++ l2.
Proof.
  intros H1 H2. rewrite filter_app, filter_cons.
  rewrite decide_False by naive_solver.
  rewrite !filter_all; [done|..];
    apply Forall_forall; intros x Hx ->; done.
Qed.

Lemma lower_bound_of_member id l1 l2 :
  ascending (l1 ++ id :: l2) → id ∉ l1 →
  lower_bound (l1 ++ id :: l2) 0 (length (l1 ++ id :: l2)) id
  = Some (length l1).
Proof.
  intros Hs H1.
  destruct (lower_bound_spec (l1 ++ id :: l2) id Hs) as (lb & -> & Hb & Hl & Hu).
  f_equal. destruct (decide (lb < length l1)%nat) as [Hlt|].
  - (* a cell of [l1] would be at least [id] *)
    exfalso. destruct (l1 !! lb) as [x|] eqn:Hx;
      [|apply lookup_ge_None in Hx; lia].
    rewrite Forall_lookup in Hu. specialize (Hu 0%nat x).
    rewrite lookup_drop, Nat.add_0_r, lookup_app_l, Hx in Hu by done.
    specialize (Hu eq_refl). simpl in Hu.
    assert (x ≤ id).
    { apply (sorted_lookup_le (l1 ++ id :: l2) lb (length l1)); [done|done|..].
      - by rewrite lookup_app_l.
      - by rewrite list_lookup_middle. }
    assert (x ≠ id) by (intros ->; apply H1; by eapply list_elem_of_lookup_2).
    lia.
  - destruct (decide (lb = length l1)) as [|Hne]; [done|].
    exfalso. rewrite Forall_lookup in Hl. specialize (Hl (length l1) id).
    rewrite lookup_take_lt, list_lookup_middle in Hl by (done || lia).
    specialize (Hl eq_refl). simpl in Hl. lia.
Qed.

Lemma clear_spec (v : ids_t.t) :
  ids_t.clear UNIV_DEBUG v
  = Some (ids_t.mk (ids_t.m_ptr v) 0 (ids_t.m_reserved v)).
Proof.
  unfold ids_t.clear, ids_t.resize, ids_t.capacity.
  rewrite ut_ad_true; [done|]. apply bool_decide_eq_true_2. lia.
Qed.

Lemma contents_mk_app (c rest : list Z) r :
  ids_t.contents (ids_t.mk (c ++ rest) (length c) r) = c.
Proof. unfold ids_t.contents. simpl. by rewrite take_app_length. Qed.

Lemma copy_trx_ids_spec sys l view :
  (UNIV_DEBUG = true → mutex sys = true) →
  ids_wf (ReadView.m_ids view) →
  l ≠ [] →
  ascending l →
  (0 < ReadView.m_creator_trx_id view →
   occurrences (ReadView.m_creator_trx_id view) l = 1%nat) →
  ∃ ids,
    ReadView.copy_trx_ids UNIV_DEBUG sys l view
    = Some (ReadView.set_up_limit_id
              (hd (ReadView.m_up_limit_id view)
                 (without_creator (ReadView.m_creator_trx_id view) l))
              (ReadView.set_ids ids view))
    ∧ ids_wf ids
    ∧ ids_t.contents ids
      = without_creator (ReadView.m_creator_trx_id view) l.
Proof.
  intros Hmutex Hwf Hne Hasc Honce. unfold ReadView.copy_trx_ids, without_creator.
  rewrite (ut_ad_ok (mutex_own sys)) by exact Hmutex. cbn [mbind option_bind].
  assert (0 < length l)%nat as Hlen by (destruct l; [done|simpl; lia]).
  set (c := ReadView.m_creator_trx_id view) in *.
  case_bool_decide as Hc.
  - (* the creator is in [l] *)
    destruct (occurrences_split c l (Honce Hc)) as (l1 & l2 & Hl & H1 & H2).
    assert (lower_bound l 0 (length l) c = Some (length l1)) as Hlb
      by (rewrite Hl in *; by apply lower_bound_of_member).
    assert (l !! length l1 = Some c) as Hat
      by (rewrite Hl; by apply list_lookup_middle).
    assert (take (length l1) l = l1) as Htake
      by (rewrite Hl; apply take_app_length).
    assert (drop (length l1 + 1) l = l2) as Hdrop.
    { rewrite Hl, (cons_middle c l1 l2), app_assoc.
      apply drop_app_length'. rewrite length_app. simpl. lia. }
    assert (length l = length l1 + 1 + length l2)%nat as Hll
      by (rewrite Hl, length_app; simpl; lia).
    assert (base.filter (λ x, x ≠ c) l = l1 ++ l2) as ->
      by (rewrite Hl; by apply filter_without).
    clear Hl.
    rewrite ut_ad_true by by apply bool_decide_eq_true_2.
    cbn [mbind option_bind].
    rewrite bool_decide_eq_false_2 by lia. cbn [mbind option_bind].
    case_bool_decide as Hz.
    { (* nothing is left *)
      rewrite clear_spec. cbn [mbind option_bind].
      assert (l1 = []) as -> by (apply nil_length_inv; lia).
      assert (l2 = []) as -> by (apply nil_length_inv; lia).
      eexists. split; [done|]. destruct Hwf as [Hp Hs].
      split; [split; simpl; lia|done]. }
    destruct (reserve_spec UNIV_DEBUG (length l - 1) _ Hwf)
      as (ids1 & -> & Hwf1 & _ & _ & Hr1).
    cbn [mbind option_bind]. rewrite resize_spec by done.
    cbn [mbind option_bind]. unfold ids_t.data. cbn [ids_t.m_ptr].
    destruct Hwf1 as [Hp1 _]. set (p := ids_t.m_ptr ids1) in *.
    rewrite Hlb. cbn [mbind option_bind].
    rewrite (ut_ad_true _ (bool_decide (_ ≠ _ ∧ _)))
      by (apply bool_decide_eq_true_2; split; [lia|done]).
    cbn [mbind option_bind].
    rewrite memmove_Some by lia. cbn [mbind option_bind].
    rewrite bool_decide_eq_true_2 by lia.
    unfold ids_t.size. cbn [ids_t.m_size].
    rewrite (ut_ad_true _ (bool_decide (_ = _)))
      by (apply bool_decide_eq_true_2; lia).
    cbn [mbind option_bind].
    rewrite take_0, drop_0, app_nil_l, Htake. cbn [Nat.add].
    replace (length l - length l1 - 1)%nat with (length l2) by lia.
    assert (∃ rest, (if bool_decide (0 < length l2)%nat
                     then memmove (l1 ++ drop (length l1) p) (length l1)
                            l (length l1 + 1) (length l2)
                     else Some (l1 ++ drop (length l1) p))
                    = Some ((l1 ++ l2) ++ rest)
                    ∧ length ((l1 ++ l2) ++ rest) = ids_t.m_reserved ids1)
      as (rest & -> & Hrest).
    { case_bool_decide as Hn.
      - rewrite memmove_Some;
          [|lia|rewrite length_app, length_drop; lia].
        rewrite take_app_length, Hdrop, firstn_all.
        eexists. rewrite <- app_assoc. split; [done|].
        rewrite !length_app, !length_drop, length_app, length_drop. lia.
      - assert (l2 = []) as -> by (apply nil_length_inv; lia).
        rewrite app_nil_r. eexists. split; [done|].
        rewrite length_app, length_drop. simpl in *. lia. }
    cbn [mbind option_bind]. unfold ids_t.front, ids_t.empty, ids_t.size.
    cbn [ids_t.m_size ids_t.m_ptr].
    rewrite ut_ad_true by by rewrite bool_decide_eq_false_2.
    cbn [mbind option_bind].
    replace (length l - 1)%nat with (length (l1 ++ l2))
      by (rewrite length_app; lia).
    destruct (l1 ++ l2) as [|x l'] eqn:Hl'.
    { apply (f_equal length) in Hl'. rewrite length_app in Hl'. simpl in Hl'. lia. }
    cbn [app lookup list_lookup mbind option_bind hd].
    eexists. split; [done|]. split.
    + split; cbn [ids_t.m_ptr ids_t.m_size ids_t.m_reserved]; [done|].
      rewrite <- Hrest, length_app. lia.
    + apply (contents_mk_app (x :: l')).
  - (* no creator: all of [l] is copied *)
    cbn [mbind option_bind]. rewrite bool_decide_eq_false_2 by lia.
    destruct (reserve_spec UNIV_DEBUG (length l) _ Hwf)
      as (ids1 & -> & Hwf1 & _ & _ & Hr1).
    cbn [mbind option_bind]. rewrite resize_spec by done.
    cbn [mbind option_bind]. unfold ids_t.data. cbn [ids_t.m_ptr].
    destruct Hwf1 as [Hp1 _].
    rewrite memmove_Some by lia. cbn [mbind option_bind].
    rewrite take_0, drop_0, app_nil_l, firstn_all. cbn [Nat.add].
    unfold ids_t.front, ids_t.empty, ids_t.size.
    cbn [ids_t.m_size ids_t.m_ptr].
    rewrite ut_ad_true by (rewrite bool_decide_eq_false_2; [done|lia]).
    cbn [mbind option_bind].
    destruct l as [|x l']; [done|].
    cbn [app lookup list_lookup mbind option_bind hd].
    eexists. split; [done|]. split.
    + split; cbn [ids_t.m_ptr ids_t.m_size ids_t.m_reserved]; [|lia].
      cbn [length] in *. rewrite length_app, length_drop. lia.
    + apply (contents_mk_app (x :: l')).
Qed.

Lemma without_creator_bound id l (bound : Z) :
  Forall (λ x, x ≤ bound) l → hd bound (without_creator id l) ≤ bound.
Proof.
  intros Hall. unfold without_creator.
  assert (Forall (λ x, x ≤ bound)
            (if bool_decide (0 < id) then base.filter (λ x, x ≠ id) l else l))
    as Hall'.
  { case_bool_decide; [|done]. apply Forall_forall. intros x Hx.
    apply list_elem_of_filter in Hx as [_ Hx].
    rewrite Forall_forall in Hall. by apply Hall. }
  destruct Hall' as [|x l' Hx _]; simpl; [lia|done].
Qed.

End ReadViewProofs.

(** C5. [ReadView::prepare(id)], when [rw_trx_ids] is in ascending order
    and holds [id] exactly once if [id > 0], returns with [m_low_limit_id]
    equal to [max_trx_id], with the ids of [rw_trx_ids] except the
    creator's in [m_ids], and with [m_up_limit_id] the first of these ids,
    or [max_trx_id] when there is none. [m_low_limit_no] is set to
    [max_trx_id] as well and then lowered to the [no] of the first
    transaction of the serialisation list when that is smaller. In a debug
    build the assertions of the function must hold: the caller holds
    [trx_sys.mutex] and no id of [rw_trx_ids] is above [max_trx_id]. *)
Theorem prepare_spec (UNIV_DEBUG : bool) (sys : trx_sys_t) (id : Z)
    (view : ReadView.t) :
  ids_wf (ReadView.m_ids view) →
  ascending (rw_trx_ids sys) →
  (0 < id → occurrences id (rw_trx_ids sys) = 1%nat) →
  (UNIV_DEBUG = true →
   mutex sys = true ∧ Forall (λ x, x ≤ max_trx_id sys) (rw_trx_ids sys)) →
  ∃ view',
    ReadView.prepare UNIV_DEBUG sys id view = Some view'
    ∧ ReadView.m_creator_trx_id view' = id
    ∧ ReadView.m_low_limit_id view' = max_trx_id sys
    ∧ ids_wf (ReadView.m_ids view')
    ∧ ids_t.contents (ReadView.m_ids view')
      = without_creator id (rw_trx_ids sys)
    ∧ ReadView.m_up_limit_id view'
      = hd (max_trx_id sys) (without_creator id (rw_trx_ids sys))
    ∧ ReadView.m_low_limit_no view'
      = match serialisation_list sys with
        | trx_no :: _ => Z.min trx_no (max_trx_id sys)
        | [] => max_trx_id sys
        end
    ∧ ReadView.m_open view' = ReadView.m_open view
    ∧ ReadView.m_registered view' = ReadView.m_registered view.
Proof.
  intros Hwf Hasc Honce Hdebug. unfold ReadView.prepare, get_max_trx_id.
  rewrite (ut_ad_ok UNIV_DEBUG (mutex_own sys)) by (intros Hd; by apply Hdebug).
  cbn [mbind option_bind].
  set (view0 := ReadView.mk _ _ _ _ _ _ _).
  assert (∃ ids,
    (if negb (bool_decide (rw_trx_ids sys = []))
     then ReadView.copy_trx_ids UNIV_DEBUG sys (rw_trx_ids sys) view0
     else ids_t.clear UNIV_DEBUG (ReadView.m_ids view0)
          ≫= λ ids, Some (ReadView.set_ids ids view0))
    = Some (ReadView.set_up_limit_id
              (hd (max_trx_id sys) (without_creator id (rw_trx_ids sys)))
              (ReadView.set_ids ids view0))
    ∧ ids_wf ids
    ∧ ids_t.contents ids = without_creator id (rw_trx_ids sys))
    as (ids & -> & Hwf' & Hc).
  { case_bool_decide as Hrw; cbn [negb].
    - rewrite clear_spec. cbn [mbind option_bind]. rewrite Hrw.
      assert (without_creator id [] = []) as ->
        by (unfold without_creator; by case_bool_decide).
      exists (ids_t.mk (ids_t.m_ptr (ReadView.m_ids view)) 0
                (ids_t.m_reserved (ReadView.m_ids view))).
      split; [reflexivity|]. split; [|done].
      destruct Hwf. split; simpl; [done|lia].
    - apply (copy_trx_ids_spec UNIV_DEBUG sys (rw_trx_ids sys) view0);
        [intros Hd; by apply Hdebug|done..]. }
  cbn [mbind option_bind].
  cbn [ReadView.set_up_limit_id ReadView.set_ids ReadView.m_up_limit_id
       ReadView.m_low_limit_id ReadView.m_low_limit_no view0].
  rewrite ut_ad_ok; cycle 1.
  { intros Hd. apply bool_decide_eq_true_2.
    apply without_creator_bound. by apply Hdebug. }
  cbn [mbind option_bind].
  destruct (serialisation_list sys) as [|trx_no ?].
  - eexists. split; [done|]. by split_and!.
  - case_bool_decide as Hno; (eexists; split; [done|]); simpl;
      split_and!; try done; lia.
Qed.

Lemma prepare_spec_witness :
  ∃ view',
    ReadView.prepare true (mk_trx_sys 9 [3; 5; 8] [] true) 5
      (ReadView.mk 0 0 0 ids_t.init 0 false false) = Some view'
    ∧ ids_t.contents (ReadView.m_ids view') = [3; 8]
    ∧ ReadView.m_up_limit_id view' = 3
    ∧ ReadView.m_low_limit_id view' = 9
    ∧ ReadView.m_low_limit_no view' = 9.
Proof.
  destruct (prepare_spec true (mk_trx_sys 9 [3; 5; 8] [] true) 5
              (ReadView.mk 0 0 0 ids_t.init 0 false false))
    as (view' & Hview' & _ & Hlow & _ & Hids & Hup & Hno & _).
  - split; simpl; lia.
  - unfold ascending. simpl. by apply (bool_decide_unpack _); vm_compute.
  - intros _. reflexivity.
  - intros _. split; [reflexivity|]. simpl.
    by apply (bool_decide_unpack _); vm_compute.
  - exists view'. split; [exact Hview'|]. split; [exact Hids|].
    split; [exact Hup|]. split; [exact Hlow|exact Hno].
Defined.

(** ** MVCC *)

Section CloneProofs.
Variable UNIV_DEBUG : bool.
Implicit Types (view other : ReadView.t) (sys : trx_sys_t).





Lemma find_oldest_open_None views :
  MVCC.find_oldest_open views = None →
  Forall (λ v, ReadView.is_open v = false) views.
Proof.
  induction views as [|v views IH]; [constructor|]. simpl.
  destruct (ReadView.is_open v) eqn:Hv; [done|]. intros H. constructor; auto.
Qed.

End CloneProofs.

Lemma mutex_enter_exit sys :
  mutex sys = false →
  mutex_enter sys = Some (locked sys) ∧ mutex_exit (locked sys) = Some sys.
Proof. destruct sys as [m r s b]. simpl. by intros ->. Qed.



(** ** ft/roll.cc: the entry functions *)

Section EntryProofs.
Implicit Types (st : state) (lg : TOKULOGGER) (ft : FT) (filenum oplsn : Z).

Lemma cachefile_of_filenum_found (cfs : list CACHEFILE) filenum r cf :
  toku_cachefile_of_filenum cfs filenum = (r, Some cf) →
  r = 0 ∧ ∃ c, cfs !! cf = Some c ∧ cf_filenum c = filenum.
Proof.
  unfold toku_cachefile_of_filenum.
  destruct (list_find _ cfs) as [[j c]|] eqn:Hfind; [|done].
  intros [= <- <-]. apply list_find_Some in Hfind as (Hi & Hc & _). eauto.
Qed.

(** The guard of [do_insertion], for every message type. *)
Lemma do_insertion_already_applied type filenum key data oplsn reset st i ft :
  find_zero (open_fts (txn st)) filenum = (0, Some (i, ft)) →
  0 < oplsn → oplsn ≤ checkpoint_lsn ft →
  do_insertion type filenum key data oplsn reset st = Returned 0 st.
Proof.
  intros Hfind Hpos Hle. unfold do_insertion. rewrite Hfind.
  rewrite bool_decide_eq_false_2 by done.
  rewrite (bool_decide_eq_true_2 (0 = 0)) by done. cbn [negb].
  rewrite (bool_decide_eq_false_2 (oplsn = 0)) by lia.
  unfold toku_ft_checkpoint_lsn. by rewrite bool_decide_eq_true_2.
Qed.

End EntryProofs.

(** C1. When the tree that [filenum] names is open in the transaction and
    [oplsn] is positive and not above its checkpoint LSN, [do_insertion]
    and each entry function of insert, delete, update and update-broadcast
    (commit side and abort side) returns 0 and leaves the state, the tree
    with it, as it was. *)
Theorem recovery_guard_is_noop (type : ft_msg_type) (filenum : Z)
    (key : list byte) (data : option (list byte)) (oplsn : Z)
    (reset is_resetting_op : bool) (st : state) (i : nat) (ft : FT) :
  find_zero (open_fts (txn st)) filenum = (0, Some (i, ft)) →
  0 < oplsn →
  oplsn ≤ checkpoint_lsn ft →
  do_insertion type filenum key data oplsn reset st = Returned 0 st
  ∧ toku_commit_cmdinsert filenum key oplsn st = Returned 0 st
  ∧ toku_rollback_cmdinsert filenum key oplsn st = Returned 0 st
  ∧ toku_commit_cmddelete filenum key oplsn st = Returned 0 st
  ∧ toku_rollback_cmddelete filenum key oplsn st = Returned 0 st
  ∧ toku_commit_cmdupdate filenum key oplsn st = Returned 0 st
  ∧ toku_rollback_cmdupdate filenum key oplsn st = Returned 0 st
  ∧ toku_commit_cmdupdatebroadcast filenum is_resetting_op oplsn st
    = Returned 0 st
  ∧ toku_rollback_cmdupdatebroadcast filenum is_resetting_op oplsn st
    = Returned 0 st.
Proof.
  intros Hfind Hpos Hle.
  unfold toku_commit_cmdinsert, toku_rollback_cmdinsert,
    toku_commit_cmddelete, toku_rollback_cmddelete, toku_commit_cmdupdate,
    toku_rollback_cmdupdate, toku_commit_cmdupdatebroadcast,
    toku_rollback_cmdupdatebroadcast, do_nothing_with_filenum.
  cbn [TOKU_DO_COMMIT_CMD_INSERT TOKU_DO_COMMIT_CMD_DELETE
       TOKU_DO_COMMIT_CMD_UPDATE].
  split_and!; try done; by eapply do_insertion_already_applied.
Qed.

Lemma recovery_guard_is_noop_witness :
  do_insertion FT_ABORT_ANY 7 ["k"%byte] None 100 false ex_state
  = Returned 0 ex_state
  ∧ toku_commit_cmdinsert 7 ["k"%byte] 100 ex_state = Returned 0 ex_state
  ∧ toku_rollback_cmdinsert 7 ["k"%byte] 100 ex_state = Returned 0 ex_state
  ∧ toku_commit_cmddelete 7 ["k"%byte] 100 ex_state = Returned 0 ex_state
  ∧ toku_rollback_cmddelete 7 ["k"%byte] 100 ex_state = Returned 0 ex_state
  ∧ toku_commit_cmdupdate 7 ["k"%byte] 100 ex_state = Returned 0 ex_state
  ∧ toku_rollback_cmdupdate 7 ["k"%byte] 100 ex_state = Returned 0 ex_state
  ∧ toku_commit_cmdupdatebroadcast 7 true 100 ex_state = Returned 0 ex_state
  ∧ toku_rollback_cmdupdatebroadcast 7 true 100 ex_state
    = Returned 0 ex_state.
Proof.
  apply (recovery_guard_is_noop FT_ABORT_ANY 7 ["k"%byte] None 100 false true
           ex_state 0 ex_ft).
  - reflexivity.
  - lia.
  - simpl. lia.
Defined.

(** C10. [toku_apply_rollinclude] asserts that [spilled_tail] is not
    [ROLLBACK_NONE] before it pins anything: with that tail it is a fatal
    assertion failure, whatever the entry function, and so are
    [toku_commit_rollinclude] and [toku_rollback_rollinclude]. *)
Theorem apply_rollinclude_none_tail_fatal
    (func : roll_entry → Z → state → outcome Z) (fuel : nat) (xid : Z * Z)
    (num_nodes spilled_head oplsn : Z) (st : state) :
  toku_apply_rollinclude func fuel xid num_nodes spilled_head ROLLBACK_NONE
    oplsn st = Fatal
  ∧ toku_commit_rollinclude func fuel xid num_nodes spilled_head ROLLBACK_NONE
      oplsn st = Fatal
  ∧ toku_rollback_rollinclude func fuel xid num_nodes spilled_head
      ROLLBACK_NONE oplsn st = Fatal
  ∧ toku_commit_rollback_item (S fuel)
      (RollInclude xid num_nodes spilled_head ROLLBACK_NONE) oplsn st = Fatal
  ∧ toku_abort_rollback_item (S fuel)
      (RollInclude xid num_nodes spilled_head ROLLBACK_NONE) oplsn st = Fatal.
Proof.
  cbn [toku_commit_rollback_item toku_abort_rollback_item].
  unfold toku_commit_rollinclude, toku_rollback_rollinclude,
    toku_apply_rollinclude.
  cbn [next_log]. by rewrite bool_decide_eq_true_2.
Qed.

(** C6. When [toku_commit_fdelete] finds the cachefile of [filenum], it
    returns 0 and the events it adds to the trace are the fsync of the log
    up to [txn->do_fsync_lsn], if the log was not fsynced that far, followed
    by the mark of the cachefile: the log is fsynced up to that LSN when
    the cachefile is marked unlink-on-close. *)
Theorem commit_fdelete_fsync_before_unlink (filenum oplsn : Z) (st : state)
    (lg : TOKULOGGER) (cf : nat) :
  logger st = Some lg →
  toku_cachefile_of_filenum (ct lg) filenum = (0, Some cf) →
  ∃ st' lg',
    toku_commit_fdelete filenum oplsn st = Returned 0 st'
    ∧ trace st'
      = trace st
        ++ (if bool_decide (fsynced_lsn lg < do_fsync_lsn (txn st))
            then [EvFsync (do_fsync_lsn (txn st))] else [])
        ++ [EvUnlinkOnClose filenum]
    ∧ unlinks_after_fsync (do_fsync_lsn (txn st)) (fsynced_lsn lg)
        (drop (length (trace st)) (trace st')) = true
    ∧ logger st' = Some lg'
    ∧ do_fsync_lsn (txn st) ≤ fsynced_lsn lg'
    ∧ ct lg' !! cf
      = (λ c, mk_CACHEFILE (cf_filenum c) (fname_in_env c) true)
          <$> ct lg !! cf.
Proof.
  intros Hlg Hcf. unfold toku_commit_fdelete. rewrite Hlg, Hcf.
  destruct (cachefile_of_filenum_found _ _ _ _ Hcf) as (_ & c & Hc & Hnum).
  rewrite (bool_decide_eq_false_2 (0 = ENOENT)) by done.
  rewrite (bool_decide_eq_true_2 (0 = 0)) by done. cbn [negb].
  unfold toku_logger_fsync_if_lsn_not_fsynced. rewrite Hlg.
  case_bool_decide as Hfsync;
    unfold toku_cachefile_unlink_on_close, emit, set_logger;
    cbn [logger ct fsynced_lsn oldest_referenced_xid_estimate trace txn];
    rewrite ?Hlg; cbn [ct]; rewrite Hc, Hnum.
  - eexists _, _. split; [done|]. cbn [trace logger ct fsynced_lsn txn].
    rewrite <- app_assoc. split; [done|]. rewrite drop_app_length.
    split; [simpl; rewrite bool_decide_eq_true_2 by lia; done|].
    split; [done|]. cbn [fsynced_lsn ct]. split; [lia|].
    rewrite list_lookup_insert_eq by by eapply lookup_lt_Some.
    simpl. by rewrite Hnum.
  - eexists _, _. split; [done|]. cbn [trace logger ct fsynced_lsn txn].
    split; [done|]. rewrite drop_app_length.
    split; [simpl; rewrite bool_decide_eq_true_2 by lia; done|].
    split; [done|]. cbn [fsynced_lsn ct]. split; [lia|].
    rewrite list_lookup_insert_eq by by eapply lookup_lt_Some.
    simpl. by rewrite Hnum.
Qed.

Lemma commit_fdelete_fsync_before_unlink_witness :
  ∃ st' lg',
    toku_commit_fdelete 9 0 ex_state = Returned 0 st'
    ∧ trace st' = [] ++ [EvFsync 42] ++ [EvUnlinkOnClose 9]
    ∧ unlinks_after_fsync 42 30 (drop 0 (trace st')) = true
    ∧ logger st' = Some lg'
    ∧ 42 ≤ fsynced_lsn lg'
    ∧ ct lg' !! 1%nat = Some (mk_CACHEFILE 9 ["g"%byte] true).
Proof.
  apply (commit_fdelete_fsync_before_unlink 9 0 ex_state ex_logger 1).
  - reflexivity.
  - reflexivity.
Defined.

(** *** A file that the cachetable does not hold *)

(** The entry functions that look a file up by its number and check
    [txn->for_recovery] when it is absent. *)
Lemma absent_file_is_checked (filenum oplsn : Z) (old_descriptor new_iname : list byte)
    (st : state) (lg : TOKULOGGER) :
  logger st = Some lg →
  toku_cachefile_of_filenum (ct lg) filenum = (ENOENT, None) →
  let tolerated := if for_recovery (txn st) then Returned 0 st else Fatal in
  toku_commit_fdelete filenum oplsn st = tolerated
  ∧ toku_commit_load filenum new_iname oplsn st = tolerated
  ∧ toku_rollback_change_fdescriptor filenum old_descriptor oplsn st
    = tolerated.
Proof.
  intros Hlg Habsent.
  unfold toku_commit_fdelete, toku_commit_load,
    toku_rollback_change_fdescriptor.
  rewrite Hlg, Habsent. by rewrite bool_decide_eq_true_2.
Qed.

(** [toku_rollback_fcreate] does not look at [txn->for_recovery]. *)
Lemma rollback_fcreate_absent (filenum oplsn : Z) (bs_fname : list byte)
    (st : state) (lg : TOKULOGGER) :
  logger st = Some lg →
  toku_cachefile_of_filenum (ct lg) filenum = (ENOENT, None) →
  toku_rollback_fcreate filenum bs_fname oplsn st = Returned 0 st.
Proof.
  intros Hlg Habsent. unfold toku_rollback_fcreate.
  rewrite Hlg, Habsent. by rewrite bool_decide_eq_true_2.
Qed.

(** C7. Outside recovery, with no cachefile for file 11 in the cachetable,
    [toku_rollback_fcreate] returns 0 and changes nothing, where
    [toku_commit_fdelete], [toku_commit_load] and
    [toku_rollback_change_fdescriptor] fail their assertion. *)
Theorem rollback_fcreate_absent_outside_recovery :
  for_recovery (txn ex_state) = false
  ∧ toku_cachefile_of_filenum (ct ex_logger) 11 = (ENOENT, None)
  ∧ toku_rollback_fcreate 11 ["h"%byte] 0 ex_state = Returned 0 ex_state
  ∧ toku_commit_fdelete 11 0 ex_state = Fatal
  ∧ toku_commit_load 11 ["h"%byte] 0 ex_state = Fatal
  ∧ toku_rollback_change_fdescriptor 11 [] 0 ex_state = Fatal.
Proof. by split_and!. Qed.

(** *** The commit side of a logged delete *)

(** With [TOKU_DO_COMMIT_CMD_DELETE] at 1, committing the delete of key
    "k" in tree 7 puts a message at the root of the tree. *)
Lemma commit_cmddelete_not_noop :
  toku_commit_cmddelete 7 ["k"%byte] 0 ex_state ≠ Returned 0 ex_state
  ∧ ∃ st',
      toku_commit_cmddelete 7 ["k"%byte] 0 ex_state = Returned 0 st'
      ∧ root_msgs <$> open_fts (txn ex_state) = [[]]
      ∧ root_msgs <$> open_fts (txn st')
        = [[(mk_ft_msg ["k"%byte] [] FT_COMMIT_ANY 0 [1],
             mk_txn_gc_info 1 1 true)]].
Proof.
  split; [by vm_compute|]. eexists. by split_and!.
Qed.

Lemma do_insertion_emits type filenum key oplsn st i ft lg :
  find_zero (open_fts (txn st)) filenum = (0, Some (i, ft)) →
  logger st = Some lg →
  oplsn = 0 ∨ checkpoint_lsn ft < oplsn →
  do_insertion type filenum key None oplsn false st
  = Returned 0
      (write_ft i (toku_ft_root_put_msg ft (key_msg type key st)
                     (gc_info_of lg st)) st).
Proof.
  intros Hfind Hlg Hguard. unfold do_insertion. rewrite Hfind, Hlg.
  rewrite bool_decide_eq_false_2 by done.
  rewrite (bool_decide_eq_true_2 (0 = 0)) by done. cbn [negb].
  assert (negb (bool_decide (oplsn = 0))
          && bool_decide (oplsn ≤ toku_ft_checkpoint_lsn ft) = false) as ->.
  { unfold toku_ft_checkpoint_lsn. destruct Hguard as [->|Hlt].
    - by rewrite bool_decide_eq_true_2.
    - rewrite (bool_decide_eq_false_2 (oplsn ≤ _)) by lia.
      by rewrite andb_false_r. }
  unfold key_msg, gc_info_of, toku_txn_get_xids, toku_fill_dbt, toku_init_dbt.
  rewrite firstn_all. by destruct key.
Qed.

(** C8, as the code has it. With the switches of roll.cc
    ([TOKU_DO_COMMIT_CMD_DELETE] is 1), when the tree is open in the
    transaction and the recovery guard does not apply,
    [toku_commit_cmddelete] returns 0 after putting [FT_COMMIT_ANY] for
    the key at the root of the tree, and [toku_rollback_cmddelete] returns
    0 after putting [FT_ABORT_ANY] for the key there. *)
Theorem commit_cmddelete_emits_commit_any (filenum : Z) (key : list byte)
    (oplsn : Z) (st : state) (i : nat) (ft : FT) (lg : TOKULOGGER) :
  find_zero (open_fts (txn st)) filenum = (0, Some (i, ft)) →
  logger st = Some lg →
  oplsn = 0 ∨ checkpoint_lsn ft < oplsn →
  TOKU_DO_COMMIT_CMD_DELETE = true
  ∧ toku_commit_cmddelete filenum key oplsn st
    = Returned 0
        (write_ft i (toku_ft_root_put_msg ft (key_msg FT_COMMIT_ANY key st)
                       (gc_info_of lg st)) st)
  ∧ toku_rollback_cmddelete filenum key oplsn st
    = Returned 0
        (write_ft i (toku_ft_root_put_msg ft (key_msg FT_ABORT_ANY key st)
                       (gc_info_of lg st)) st).
Proof.
  intros Hfind Hlg Hguard. split; [done|].
  unfold toku_commit_cmddelete, toku_rollback_cmddelete.
  cbn [TOKU_DO_COMMIT_CMD_DELETE].
  split; by apply do_insertion_emits.
Qed.

Lemma commit_cmddelete_emits_commit_any_witness :
  TOKU_DO_COMMIT_CMD_DELETE = true
  ∧ toku_commit_cmddelete 7 ["k"%byte] 0 ex_state
    = Returned 0
        (write_ft 0 (toku_ft_root_put_msg ex_ft
                       (key_msg FT_COMMIT_ANY ["k"%byte] ex_state)
                       (gc_info_of ex_logger ex_state)) ex_state)
  ∧ toku_rollback_cmddelete 7 ["k"%byte] 0 ex_state
    = Returned 0
        (write_ft 0 (toku_ft_root_put_msg ex_ft
                       (key_msg FT_ABORT_ANY ["k"%byte] ex_state)
                       (gc_info_of ex_logger ex_state)) ex_state).
Proof.
  apply (commit_cmddelete_emits_commit_any 7 ["k"%byte] 0 ex_state 0 ex_ft
           ex_logger).
  - reflexivity.
  - reflexivity.
  - left. reflexivity.
Defined.

(** ** ft/roll.cc: the walker *)

Section WalkerProofs.
Variable func : roll_entry → Z → state → outcome Z.

(** When the outer loop ends with all nodes done, the local [next_log]
    and the local copy of [spilled_tail] are [ROLLBACK_NONE]; the local
    copy of [spilled_head] is [ROLLBACK_NONE] if the head was met and as
    it was otherwise. *)
Lemma apply_nodes_locals fuel xid : ∀ l oplsn st l' st',
  apply_nodes func fuel xid l oplsn st = Returned (0, l') st' →
  spilled_tail_arg l = next_log l →
  (found_head l = true → spilled_head_arg l = ROLLBACK_NONE) →
  next_log l' = ROLLBACK_NONE
  ∧ spilled_tail_arg l' = ROLLBACK_NONE
  ∧ (found_head l = true → found_head l' = true)
  ∧ (if found_head l' then spilled_head_arg l' = ROLLBACK_NONE
     else spilled_head_arg l' = spilled_head_arg l).
Proof.
  induction fuel as [|fuel IH]; intros l oplsn st l' st'; [done|].
  cbn [apply_nodes]. case_bool_decide as Hnone.
  { intros [= <- <-] Htail Hhead. split; [done|]. split; [congruence|].
    split; [done|]. destruct (found_head l); auto. }
  destruct (toku_get_and_pin_rollback_log _ st) as [[log st1]|]; [|done].
  destruct (negb (toku_rollback_verify_contents _ _ _)); [done|].
  cbn [next_log spilled_head_arg found_head last_sequence].
  destruct (apply_items _ _ _ _ _) as [r st2| |]; [|done..].
  case_bool_decide as Hr; cbn [negb]; [|by intros [= ? _ _]].
  destruct (logs st2 !! next_log l) as [log2|]; [|done].
  destruct (_ && _); [done|].
  set (found := if bool_decide (next_log l = spilled_head_arg l) then true
                else found_head l).
  destruct (found && _) eqn:Hassert; [done|].
  assert (found = true → previous log2 = ROLLBACK_NONE) as Hlast.
  { intros ->. cbn [andb] in Hassert. apply negb_false_iff in Hassert.
    by apply bool_decide_eq_true_1 in Hassert. }
  intros Hrec _ Hhead.
  apply IH in Hrec as (Hnext & Htail & Hmono & Hhd); cbn [next_log
    spilled_tail_arg found_head spilled_head_arg] in *; [|done|].
  - split; [done|]. split; [done|]. split.
    + intros Hl. apply Hmono. subst found. rewrite Hl. by case_bool_decide.
    + destruct (found_head l') eqn:Hl'; [done|]. rewrite Hhd.
      clearbody found. destruct found; [by specialize (Hmono eq_refl)|done].
  - intros ->. by apply Hlast.
Qed.

(** If the entry function keeps the spilled pointers of the transaction,
    so do the two loops. *)
Hypothesis func_same_spilled : ∀ item oplsn st r st',
  func item oplsn st = Returned r st' → same_spilled st st'.

Lemma apply_items_same_spilled fuel blocknum oplsn : ∀ st r st',
  apply_items func fuel blocknum oplsn st = Returned r st' →
  same_spilled st st'.
Proof.
  induction fuel as [|fuel IH]; intros st r st'; [done|].
  cbn [apply_items]. destruct (logs st !! blocknum) as [log|]; [|done].
  destruct (newest_logentry log) as [|item prev]; [by intros [= _ <-]|].
  destruct (func _ _ _) as [r1 st1| |] eqn:Hfunc; [|done..].
  apply func_same_spilled in Hfunc as [Hh Ht]. cbn [txn set_logs] in Hh, Ht.
  case_bool_decide; cbn [negb].
  - intros [Hh' Ht']%IH. split; congruence.
  - intros [= _ <-]. by split.
Qed.

Lemma apply_nodes_same_spilled fuel xid : ∀ l oplsn st res st',
  apply_nodes func fuel xid l oplsn st = Returned res st' →
  same_spilled st st'.
Proof.
  induction fuel as [|fuel IH]; intros l oplsn st res st'; [done|].
  cbn [apply_nodes]. case_bool_decide as Hnone; [by intros [= _ <-]|].
  unfold toku_get_and_pin_rollback_log.
  destruct (logs st !! next_log l) as [log|]; [|done].
  cbn [mbind option_bind].
  destruct (negb (toku_rollback_verify_contents _ _ _)); [done|].
  cbn [next_log spilled_head_arg found_head last_sequence].
  destruct (apply_items _ _ _ _ _) as [r st2| |] eqn:Hitems; [|done..].
  apply apply_items_same_spilled in Hitems as [Hh Ht].
  assert (same_spilled st st2) as [Hh2 Ht2].
  { revert Hh Ht. unfold toku_maybe_prefetch_previous_rollback_log.
    case_bool_decide; by split. }
  case_bool_decide as Hr; cbn [negb]; [|by intros [= _ <-]].
  destruct (logs st2 !! next_log l) as [log2|]; [|done].
  destruct (_ && _); [done|]. destruct (_ && _); [done|].
  intros [Hh' Ht']%IH. cbn [txn toku_rollback_log_unpin_and_remove set_logs
    set_pinned] in Hh', Ht'. split; congruence.
Qed.

Lemma apply_rollinclude_same_spilled fuel xid num_nodes spilled_head
    spilled_tail oplsn st r st' :
  toku_apply_rollinclude func fuel xid num_nodes spilled_head spilled_tail
    oplsn st = Returned r st' →
  same_spilled st st'.
Proof.
  unfold toku_apply_rollinclude. case_bool_decide; [done|].
  destruct (apply_nodes _ _ _ _ _ _) as [[r1 l1] st1| |] eqn:Hnodes; [|done..].
  intros [= _ <-]. by eapply apply_nodes_same_spilled.
Qed.

End WalkerProofs.

(** *** No entry function writes the spilled pointers of the transaction *)

Section Frame.
Implicit Types (st : state).

Lemma txn_unlink_on_close cf st : txn (toku_cachefile_unlink_on_close cf st) = txn st.
Proof.
  unfold toku_cachefile_unlink_on_close.
  destruct (logger st) as [lg|]; [|done]. by destruct (ct lg !! cf).
Qed.

Lemma txn_fsync lsn st : txn (toku_logger_fsync_if_lsn_not_fsynced lsn st) = txn st.
Proof.
  unfold toku_logger_fsync_if_lsn_not_fsynced.
  destruct (logger st); [|done]. by case_bool_decide.
Qed.

Lemma txn_unlink fname st r errno st' :
  unlink fname st = (r, errno, st') → txn st' = txn st.
Proof.
  unfold unlink. destruct (unlink_refused fname st); [by intros [= _ _ <-]|].
  case_bool_decide; by intros [= _ _ <-].
Qed.

Lemma same_spilled_refl st : same_spilled st st.
Proof. by split. Qed.

Lemma same_spilled_txn st st' : txn st' = txn st → same_spilled st st'.
Proof. intros Ht. unfold same_spilled. by rewrite Ht. Qed.

Lemma same_spilled_write_ft i ft st : same_spilled st (write_ft i ft st).
Proof. by split. Qed.

End Frame.

Create HintDb frame discriminated.
#[local] Hint Resolve same_spilled_refl same_spilled_write_ft : frame.

(** Case analysis of an entry function that returned. *)
Ltac entry_cases :=
  repeat match goal with
         | H : Returned _ _ = Returned _ _ |- _ => injection H as _ <-
         | H : Fatal = Returned _ _ |- _ => discriminate H
         | H : OutOfFuel = Returned _ _ |- _ => discriminate H
         | H : context [match ?x with _ => _ end] |- _ => destruct x eqn:?
         end.

Ltac frame_done :=
  first [ by auto with frame
        | apply same_spilled_txn;
          rewrite ?txn_unlink_on_close, ?txn_fsync, ?txn_unlink_on_close;
          first [ done | by eapply txn_unlink
                | by (etrans; [eapply txn_unlink; eassumption|]) ] ].

Lemma do_insertion_same_spilled type filenum key data oplsn reset st r st' :
  do_insertion type filenum key data oplsn reset st = Returned r st' →
  same_spilled st st'.
Proof. unfold do_insertion. intros H. entry_cases; frame_done. Qed.

Lemma commit_item_same_spilled fuel : ∀ item oplsn st r st',
  toku_commit_rollback_item fuel item oplsn st = Returned r st' →
  same_spilled st st'.
Proof.
  induction fuel as [|fuel IH]; intros item oplsn st r st'; [done|].
  destruct item; cbn [toku_commit_rollback_item];
    unfold toku_commit_cmdinsert, toku_commit_cmddelete,
      toku_commit_cmdupdate, toku_commit_cmdupdatebroadcast,
      toku_commit_rollinclude, toku_commit_fcreate,
      toku_commit_fdelete, toku_commit_load, toku_commit_hot_index,
      toku_commit_dictionary_redirect, toku_commit_change_fdescriptor,
      do_nothing_with_filenum;
    cbn [TOKU_DO_COMMIT_CMD_INSERT TOKU_DO_COMMIT_CMD_DELETE
         TOKU_DO_COMMIT_CMD_UPDATE];
    intros H;
    first [ by eapply do_insertion_same_spilled
          | by eapply apply_rollinclude_same_spilled
          | entry_cases; repeat case_match; frame_done ].
Qed.

Lemma abort_item_same_spilled fuel : ∀ item oplsn st r st',
  toku_abort_rollback_item fuel item oplsn st = Returned r st' →
  same_spilled st st'.
Proof.
  induction fuel as [|fuel IH]; intros item oplsn st r st'; [done|].
  destruct item; cbn [toku_abort_rollback_item];
    unfold toku_rollback_cmdinsert, toku_rollback_cmddelete,
      toku_rollback_cmdupdate, toku_rollback_cmdupdatebroadcast,
      toku_rollback_rollinclude, toku_rollback_fcreate, toku_rollback_fdelete,
      toku_rollback_load, toku_rollback_hot_index,
      toku_rollback_dictionary_redirect, toku_dictionary_redirect_abort,
      toku_rollback_change_fdescriptor;
    intros H;
    first [ by eapply do_insertion_same_spilled
          | by eapply apply_rollinclude_same_spilled
          | entry_cases; repeat case_match; frame_done ].
Qed.

(** Whatever the spliced subchain, [toku_commit_rollinclude] and
    [toku_rollback_rollinclude] return with the spilled pointers of the
    transaction as they found them. *)
Lemma rollinclude_same_spilled (fuel fuel' : nat) (xid : Z * Z)
    (num_nodes spilled_head spilled_tail oplsn : Z) (st : state) (r : Z)
    (st' : state) :
  toku_commit_rollinclude (toku_commit_rollback_item fuel') fuel xid num_nodes
    spilled_head spilled_tail oplsn st = Returned r st'
  ∨ toku_rollback_rollinclude (toku_abort_rollback_item fuel') fuel xid
      num_nodes spilled_head spilled_tail oplsn st = Returned r st' →
  same_spilled st st'.
Proof.
  unfold toku_commit_rollinclude, toku_rollback_rollinclude.
  intros [H|H]; eapply apply_rollinclude_same_spilled; try exact H.
  - apply commit_item_same_spilled.
  - apply abort_item_same_spilled.
Qed.

(** C3. The abort and the commit of the [RollInclude] entry of the example
    return 0 after draining the nodes 20, 21 and 22, and the
    spilled-head and spilled-tail pointers of the transaction are block 5
    as before, not [ROLLBACK_NONE]. *)
Theorem rollinclude_leaves_txn_spilled_pointers :
  ∃ st1 st2,
    toku_rollback_rollinclude (toku_abort_rollback_item 8) 8 (1, 10) 3 20 22 0
      ex_state = Returned 0 st1
    ∧ toku_commit_rollinclude (toku_commit_rollback_item 8) 8 (1, 10) 3 20 22 0
        ex_state = Returned 0 st2
    ∧ dom (logs st1) = {[5]}
    ∧ dom (logs st2) = {[5]}
    ∧ spilled_rollback_head (txn st1) = 5
    ∧ spilled_rollback_tail (txn st1) = 5
    ∧ spilled_rollback_head (txn st2) = 5
    ∧ spilled_rollback_tail (txn st2) = 5
    ∧ ROLLBACK_NONE = -1.
Proof.
  eexists _, _. split; [by vm_compute|]. split; [by vm_compute|].
  split_and!; by vm_compute.
Qed.

(** *** The fuel is only a bound *)

Section Fuel.
(** [g] is [f] with more fuel: it agrees with [f] wherever [f] has
    enough. *)
Variables f g : roll_entry → Z → state → outcome Z.
Hypothesis g_extends_f : ∀ item oplsn st,
  f item oplsn st ≠ OutOfFuel → g item oplsn st = f item oplsn st.

Lemma apply_items_fuel fuel : ∀ fuel' blocknum oplsn st,
  (fuel ≤ fuel')%nat →
  apply_items f fuel blocknum oplsn st ≠ OutOfFuel →
  apply_items g fuel' blocknum oplsn st = apply_items f fuel blocknum oplsn st.
Proof.
  induction fuel as [|fuel IH]; intros fuel' blocknum oplsn st Hle; [done|].
  destruct fuel' as [|fuel']; [lia|]. cbn [apply_items].
  destruct (logs st !! blocknum) as [log|]; [|done].
  destruct (newest_logentry log) as [|item prev]; [done|].
  destruct (f item oplsn _) as [r st1| |] eqn:Hf; [|by rewrite g_extends_f, Hf by by rewrite Hf|done].
  rewrite g_extends_f, Hf by by rewrite Hf.
  case_bool_decide; cbn [negb]; [|done]. apply IH. lia.
Qed.

Lemma apply_nodes_fuel fuel xid : ∀ fuel' l oplsn st,
  (fuel ≤ fuel')%nat →
  apply_nodes f fuel xid l oplsn st ≠ OutOfFuel →
  apply_nodes g fuel' xid l oplsn st = apply_nodes f fuel xid l oplsn st.
Proof.
  induction fuel as [|fuel IH]; intros fuel' l oplsn st Hle; [done|].
  destruct fuel' as [|fuel']; [lia|]. cbn [apply_nodes].
  case_bool_decide; [done|].
  destruct (toku_get_and_pin_rollback_log _ st) as [[log st1]|]; [|done].
  destruct (negb (toku_rollback_verify_contents _ _ _)); [done|].
  cbn [next_log spilled_head_arg found_head last_sequence].
  destruct (apply_items f fuel _ _ _) as [r st2| |] eqn:Hitems; [| |done].
  - rewrite (apply_items_fuel fuel), Hitems by (lia || by rewrite Hitems).
    case_bool_decide; cbn [negb]; [|done].
    destruct (logs st2 !! next_log l) as [log2|]; [|done].
    destruct (_ && _); [done|]. destruct (_ && _); [done|]. apply IH. lia.
  - by rewrite (apply_items_fuel fuel), Hitems by (lia || by rewrite Hitems).
Qed.

Lemma apply_rollinclude_fuel fuel fuel' xid num_nodes spilled_head spilled_tail
    oplsn st :
  (fuel ≤ fuel')%nat →
  toku_apply_rollinclude f fuel xid num_nodes spilled_head spilled_tail oplsn st
  ≠ OutOfFuel →
  toku_apply_rollinclude g fuel' xid num_nodes spilled_head spilled_tail oplsn st
  = toku_apply_rollinclude f fuel xid num_nodes spilled_head spilled_tail
      oplsn st.
Proof.
  intros Hle. unfold toku_apply_rollinclude. case_bool_decide; [done|].
  destruct (apply_nodes f fuel _ _ _ _) as [[r l'] st'| |] eqn:Hnodes; [| |done];
    intros _;
    by rewrite (apply_nodes_fuel fuel), Hnodes by (lia || by rewrite Hnodes).
Qed.

End Fuel.

(** A dispatcher that has returned or aborted does the same with any
    larger fuel. *)
Lemma commit_item_fuel fuel : ∀ fuel' item oplsn st,
  (fuel ≤ fuel')%nat →
  toku_commit_rollback_item fuel item oplsn st ≠ OutOfFuel →
  toku_commit_rollback_item fuel' item oplsn st
  = toku_commit_rollback_item fuel item oplsn st.
Proof.
  induction fuel as [|fuel IH]; intros fuel' item oplsn st Hle; [done|].
  destruct fuel' as [|fuel']; [lia|].
  destruct item; cbn [toku_commit_rollback_item]; try done.
  unfold toku_commit_rollinclude. apply apply_rollinclude_fuel; [|lia].
  intros item oplsn' st'. apply IH. lia.
Qed.

Lemma abort_item_fuel fuel : ∀ fuel' item oplsn st,
  (fuel ≤ fuel')%nat →
  toku_abort_rollback_item fuel item oplsn st ≠ OutOfFuel →
  toku_abort_rollback_item fuel' item oplsn st
  = toku_abort_rollback_item fuel item oplsn st.
Proof.
  induction fuel as [|fuel IH]; intros fuel' item oplsn st Hle; [done|].
  destruct fuel' as [|fuel']; [lia|].
  destruct item; cbn [toku_abort_rollback_item]; try done.
  unfold toku_rollback_rollinclude. apply apply_rollinclude_fuel; [|lia].
  intros item oplsn' st'. apply IH. lia.
Qed.

(** *** Pins on the path without errors *)

Section Pins.
Implicit Types (st : state).

Lemma pinned_unlink_on_close cf st :
  pinned (toku_cachefile_unlink_on_close cf st) = pinned st.
Proof.
  unfold toku_cachefile_unlink_on_close.
  destruct (logger st) as [lg|]; [|done]. by destruct (ct lg !! cf).
Qed.

Lemma pinned_fsync lsn st :
  pinned (toku_logger_fsync_if_lsn_not_fsynced lsn st) = pinned st.
Proof.
  unfold toku_logger_fsync_if_lsn_not_fsynced.
  destruct (logger st); [|done]. by case_bool_decide.
Qed.

Lemma pinned_unlink fname st r errno st' :
  unlink fname st = (r, errno, st') → pinned st' = pinned st.
Proof.
  unfold unlink. destruct (unlink_refused fname st); [by intros [= _ _ <-]|].
  case_bool_decide; by intros [= _ _ <-].
Qed.

Lemma pinned_prefetch log st :
  pinned (toku_maybe_prefetch_previous_rollback_log log st) = pinned st.
Proof. unfold toku_maybe_prefetch_previous_rollback_log. by case_bool_decide. Qed.

Lemma remove_pin_head blocknum pins :
  remove_pin blocknum (blocknum :: pins) = pins.
Proof. simpl. by rewrite bool_decide_eq_true_2. Qed.

(** An entry function that returns only 0 and keeps the pins. *)
Variable func : roll_entry → Z → state → outcome Z.
Hypothesis func_zero : ∀ item oplsn st r st',
  func item oplsn st = Returned r st' → r = 0 ∧ pinned st' = pinned st.

Lemma apply_items_pins fuel blocknum oplsn : ∀ st r st',
  apply_items func fuel blocknum oplsn st = Returned r st' →
  r = 0 ∧ pinned st' = pinned st.
Proof.
  induction fuel as [|fuel IH]; intros st r st'; [done|].
  cbn [apply_items]. destruct (logs st !! blocknum) as [log|]; [|done].
  destruct (newest_logentry log) as [|item prev]; [by intros [= <- <-]|].
  destruct (func _ _ _) as [r1 st1| |] eqn:Hfunc; [|done..].
  apply func_zero in Hfunc as [-> Hpins]. cbn [pinned set_logs] in Hpins.
  rewrite bool_decide_eq_true_2 by done. cbn [negb].
  intros [-> Hpins']%IH. split; [done|congruence].
Qed.

(** With such an entry function the walker returns 0, and each node it
    pinned has been unpinned: the pins are those of the start. *)
Lemma apply_nodes_pins fuel xid : ∀ l oplsn st r l' st',
  apply_nodes func fuel xid l oplsn st = Returned (r, l') st' →
  r = 0 ∧ pinned st' = pinned st.
Proof.
  induction fuel as [|fuel IH]; intros l oplsn st r l' st'; [done|].
  cbn [apply_nodes]. case_bool_decide as Hnone; [by intros [= <- _ <-]|].
  unfold toku_get_and_pin_rollback_log.
  destruct (logs st !! next_log l) as [log|]; [|done].
  cbn [mbind option_bind].
  destruct (negb (toku_rollback_verify_contents _ _ _)); [done|].
  cbn [next_log spilled_head_arg found_head last_sequence].
  destruct (apply_items _ _ _ _ _) as [r2 st2| |] eqn:Hitems; [|done..].
  apply apply_items_pins in Hitems as [-> Hpins].
  rewrite pinned_prefetch in Hpins. cbn [pinned set_pinned] in Hpins.
  rewrite bool_decide_eq_true_2 by done. cbn [negb].
  destruct (logs st2 !! next_log l) as [log2|]; [|done].
  destruct (_ && _); [done|]. destruct (_ && _); [done|].
  intros [-> Hpins']%IH. split; [done|].
  rewrite Hpins'. unfold toku_rollback_log_unpin_and_remove.
  cbn [pinned set_logs set_pinned]. by rewrite Hpins, remove_pin_head.
Qed.

Lemma apply_rollinclude_pins fuel xid num_nodes spilled_head spilled_tail
    oplsn st r st' :
  toku_apply_rollinclude func fuel xid num_nodes spilled_head spilled_tail
    oplsn st = Returned r st' →
  r = 0 ∧ pinned st' = pinned st.
Proof.
  unfold toku_apply_rollinclude. case_bool_decide; [done|].
  destruct (apply_nodes _ _ _ _ _ _) as [[r1 l1] st1| |] eqn:Hnodes; [|done..].
  intros [= <- <-]. by eapply apply_nodes_pins.
Qed.

End Pins.

(** Case analysis of an entry function that returned, keeping what is
    known of the value returned. *)
Ltac entry_cases_value :=
  repeat match goal with
         | H : Returned _ _ = Returned _ _ |- _ => injection H as <- <-
         | H : Fatal = Returned _ _ |- _ => discriminate H
         | H : OutOfFuel = Returned _ _ |- _ => discriminate H
         | H : negb (bool_decide (_ = 0)) = false |- _ =>
             apply negb_false_iff, bool_decide_eq_true_1 in H
         | H : (_, _) = (_, _) |- _ => injection H as <- <-
         | H : context [match ?x with _ => _ end] |- _ => destruct x eqn:?
         end.

Ltac pins_done :=
  split; [done|];
  repeat case_match;
  rewrite ?pinned_unlink_on_close, ?pinned_fsync, ?pinned_unlink_on_close;
  first [ done | by eapply pinned_unlink ].

Lemma do_insertion_pins type filenum key data oplsn reset st r st' :
  do_insertion type filenum key data oplsn reset st = Returned r st' →
  r = 0 ∧ pinned st' = pinned st.
Proof. unfold do_insertion. intros H. entry_cases_value; pins_done. Qed.

(** The entry functions of roll.cc return 0 when they return, and leave
    the pins as they were. *)
Lemma commit_item_pins fuel : ∀ item oplsn st r st',
  toku_commit_rollback_item fuel item oplsn st = Returned r st' →
  r = 0 ∧ pinned st' = pinned st.
Proof.
  induction fuel as [|fuel IH]; intros item oplsn st r st'; [done|].
  destruct item; cbn [toku_commit_rollback_item];
    unfold toku_commit_cmdinsert, toku_commit_cmddelete,
      toku_commit_cmdupdate, toku_commit_cmdupdatebroadcast,
      toku_commit_rollinclude, toku_commit_fcreate,
      toku_commit_fdelete, toku_commit_load, toku_commit_hot_index,
      toku_commit_dictionary_redirect, toku_commit_change_fdescriptor,
      do_nothing_with_filenum;
    cbn [TOKU_DO_COMMIT_CMD_INSERT TOKU_DO_COMMIT_CMD_DELETE
         TOKU_DO_COMMIT_CMD_UPDATE];
    intros H;
    first [ by eapply do_insertion_pins
          | by eapply apply_rollinclude_pins
          | entry_cases_value; pins_done ].
Qed.

Lemma abort_item_pins fuel : ∀ item oplsn st r st',
  toku_abort_rollback_item fuel item oplsn st = Returned r st' →
  r = 0 ∧ pinned st' = pinned st.
Proof.
  induction fuel as [|fuel IH]; intros item oplsn st r st'; [done|].
  destruct item; cbn [toku_abort_rollback_item];
    unfold toku_rollback_cmdinsert, toku_rollback_cmddelete,
      toku_rollback_cmdupdate, toku_rollback_cmdupdatebroadcast,
      toku_rollback_rollinclude, toku_rollback_fcreate, toku_rollback_fdelete,
      toku_rollback_load, toku_rollback_hot_index,
      toku_rollback_dictionary_redirect, toku_dictionary_redirect_abort,
      toku_rollback_change_fdescriptor;
    intros H;
    first [ by eapply do_insertion_pins
          | by eapply apply_rollinclude_pins
          | entry_cases_value; pins_done ].
Qed.

(** * Further properties of read/read0read.cc *)

(** ** The growth of an [ids_t] *)

Section IdsGrowth.
Variable UNIV_DEBUG : bool.
Implicit Types (v : ids_t.t) (value : Z) (n : nat).

Lemma reserve_capacity n v v' :
  ids_t.reserve UNIV_DEBUG n v = Some v' →
  ids_t.m_reserved v'
  = if bool_decide (n ≤ ids_t.m_reserved v)%nat then ids_t.m_reserved v
    else Nat.max n MIN_TRX_IDS.
Proof.
  unfold ids_t.reserve, ids_t.capacity. case_bool_decide as Hn; [by intros [= <-]|].
  assert ((if bool_decide (n < MIN_TRX_IDS)%nat then MIN_TRX_IDS else n)
          = Nat.max n MIN_TRX_IDS) as -> by (case_bool_decide; lia).
  destruct (ut_ad _ _); [|done]. cbn [mbind option_bind ids_t.m_ptr
    ids_t.m_size ids_t.m_reserved].
  destruct (ids_t.m_ptr v); [by intros [= <-]|].
  destruct (memmove _ _ _ _ _); [|done]. by intros [= <-].
Qed.

(** The part of [push_back] behind the growth. *)
Lemma push_back_store value v :
  ids_wf v → (ids_t.m_size v < ids_t.m_reserved v)%nat →
  ∃ v', (store (ids_t.m_ptr v) (ids_t.m_size v) value
         ≫= λ q, let v0 := ids_t.mk q (S (ids_t.m_size v)) (ids_t.m_reserved v) in
                 ut_ad UNIV_DEBUG
                   (bool_decide (ids_t.size v0 ≤ ids_t.capacity v0)%nat)
                 ≫= λ _, Some v0) = Some v'
        ∧ ids_wf v' ∧ ids_t.contents v' = ids_t.contents v ++ [value]
        ∧ ids_t.m_reserved v' = ids_t.m_reserved v.
Proof.
  intros [Hlen Hsize] Hroom. rewrite store_Some by lia.
  cbn [mbind option_bind]. unfold ids_t.size, ids_t.capacity.
  cbn [ids_t.m_size ids_t.m_reserved].
  rewrite ut_ad_true by (apply bool_decide_eq_true_2; lia).
  cbn [mbind option_bind]. eexists. split; [done|].
  unfold ids_wf, ids_t.contents. cbn [ids_t.m_size ids_t.m_reserved ids_t.m_ptr].
  rewrite length_insert. split; [split; [done|lia]|]. split; [|done].
  erewrite take_S_r by (apply list_lookup_insert_eq; lia).
  by rewrite take_insert_ge by lia.
Qed.

End IdsGrowth.

(** X1. [ReadView::ids_t::reserve(n)] on a well-formed vector returns with
    the cells and the size it had. It never shrinks the allocation: the
    capacity stays when it is at least [n], and becomes the larger of [n]
    and [MIN_TRX_IDS] otherwise. *)
Theorem ids_reserve_keeps_contents (UNIV_DEBUG : bool) (n : nat)
    (v : ids_t.t) :
  ids_wf v →
  ∃ v', ids_t.reserve UNIV_DEBUG n v = Some v'
        ∧ ids_wf v'
        ∧ ids_t.contents v' = ids_t.contents v
        ∧ ids_t.m_size v' = ids_t.m_size v
        ∧ ids_t.m_reserved v'
          = (if bool_decide (n ≤ ids_t.m_reserved v)%nat
             then ids_t.m_reserved v else Nat.max n MIN_TRX_IDS)
        ∧ (ids_t.m_reserved v ≤ ids_t.m_reserved v')%nat.
Proof.
  intros Hwf.
  destruct (reserve_spec UNIV_DEBUG n v Hwf) as (v' & Hv' & Hwf' & Hc & Hs & Hn).
  pose proof (reserve_capacity UNIV_DEBUG n v v' Hv') as Hcap.
  exists v'. split_and!; try done. rewrite Hcap. case_bool_decide; lia.
Qed.

Lemma ids_reserve_keeps_contents_witness :
  ∃ v', ids_t.reserve true 3 (ids_t.mk [4; 7] 2 2) = Some v'
        ∧ ids_wf v'
        ∧ ids_t.contents v' = [4; 7]
        ∧ ids_t.m_size v' = 2%nat
        ∧ ids_t.m_reserved v' = 32%nat
        ∧ (2 ≤ ids_t.m_reserved v')%nat.
Proof.
  apply (ids_reserve_keeps_contents true 3 (ids_t.mk [4; 7] 2 2)).
  split; simpl; lia.
Defined.

(** X2. [ReadView::ids_t::push_back] on a well-formed vector fails exactly
    when the vector has no allocation: [reserve(size() * 2)] asks for 0
    cells and does nothing, and the value is written through the null
    pointer. On a vector with an allocation it appends the value, after
    growing a full vector to the larger of twice its size and
    [MIN_TRX_IDS]. *)
Theorem ids_push_back_needs_allocation (UNIV_DEBUG : bool) (value : Z)
    (v : ids_t.t) :
  ids_wf v →
  (ids_t.m_reserved v = 0%nat → ids_t.push_back UNIV_DEBUG value v = None)
  ∧ (ids_t.m_reserved v ≠ 0%nat →
     ∃ v', ids_t.push_back UNIV_DEBUG value v = Some v'
           ∧ ids_wf v'
           ∧ ids_t.contents v' = ids_t.contents v ++ [value]
           ∧ ids_t.m_reserved v'
             = if bool_decide (ids_t.m_size v < ids_t.m_reserved v)%nat
               then ids_t.m_reserved v
               else Nat.max (ids_t.m_size v * 2) MIN_TRX_IDS).
Proof.
  intros Hwf. split.
  - intros Hzero. destruct Hwf as [Hlen Hsize].
    unfold ids_t.push_back, ids_t.capacity, ids_t.size, ids_t.reserve,
      ids_t.capacity.
    rewrite bool_decide_eq_true_2 by lia.
    rewrite bool_decide_eq_true_2 by lia. cbn [mbind option_bind].
    unfold store. by rewrite bool_decide_eq_false_2 by lia.
  - intros Hnz. unfold ids_t.push_back, ids_t.capacity, ids_t.size.
    case_bool_decide as Hfull.
    + destruct (reserve_spec UNIV_DEBUG (ids_t.m_size v * 2) v Hwf)
        as (v1 & Hv1 & Hwf1 & Hc1 & Hs1 & Hn1).
      pose proof (reserve_capacity _ _ _ _ Hv1) as Hcap.
      destruct Hwf as [Hlen Hsize].
      rewrite bool_decide_eq_false_2 in Hcap by lia.
      rewrite Hv1. cbn [mbind option_bind].
      destruct (push_back_store UNIV_DEBUG value v1)
        as (v' & Hpb & Hwf' & Hc' & Hr'); [done|unfold MIN_TRX_IDS in *; lia|].
      exists v'. split_and!; [exact Hpb|done|by rewrite Hc', Hc1|].
      rewrite bool_decide_eq_false_2 by lia. congruence.
    + cbn [mbind option_bind].
      destruct (push_back_store UNIV_DEBUG value v)
        as (v' & Hpb & Hwf' & Hc' & Hr'); [done|lia|].
      exists v'. split_and!; [exact Hpb|done..|].
      by rewrite bool_decide_eq_true_2 by lia.
Qed.

Lemma ids_push_back_needs_allocation_witness :
  (ids_t.m_reserved ids_t.init = 0%nat →
   ids_t.push_back true 4 ids_t.init = None)
  ∧ (ids_t.m_reserved ids_t.init ≠ 0%nat →
     ∃ v', ids_t.push_back true 4 ids_t.init = Some v'
           ∧ ids_wf v'
           ∧ ids_t.contents v' = ids_t.contents ids_t.init ++ [4]
           ∧ ids_t.m_reserved v'
             = if bool_decide (ids_t.m_size ids_t.init
                               < ids_t.m_reserved ids_t.init)%nat
               then ids_t.m_reserved ids_t.init
               else Nat.max (ids_t.m_size ids_t.init * 2) MIN_TRX_IDS).
Proof.
  apply (ids_push_back_needs_allocation true 4 ids_t.init).
  split; simpl; lia.
Defined.

(** X3. [ReadView::ids_t::assign(start, end)] on a well-formed vector
    returns with exactly the [end - start] cells of the source, whatever
    the vector held before, and it never gives memory back: the capacity
    stays when it is enough and becomes the larger of the number of cells
    and [MIN_TRX_IDS] otherwise. *)
Theorem ids_assign_replaces (UNIV_DEBUG : bool) (start : list Z) (n : nat)
    (v : ids_t.t) :
  ids_wf v → (n ≤ length start)%nat →
  ∃ v', ids_t.assign UNIV_DEBUG start n v = Some v'
        ∧ ids_wf v'
        ∧ ids_t.contents v' = take n start
        ∧ ids_t.m_reserved v'
          = if bool_decide (n ≤ ids_t.m_reserved v)%nat
            then ids_t.m_reserved v else Nat.max n MIN_TRX_IDS.
Proof.
  intros [Hp Hs] Hn. unfold ids_t.assign. rewrite clear_spec.
  cbn [mbind option_bind].
  destruct (reserve_spec UNIV_DEBUG n
              (ids_t.mk (ids_t.m_ptr v) 0 (ids_t.m_reserved v)))
    as (v1 & Hv1 & [Hp1 _] & _ & _ & Hr1); [split; simpl; [done|lia]|].
  pose proof (reserve_capacity _ _ _ _ Hv1) as Hcap. simpl in Hcap.
  rewrite Hv1. cbn [mbind option_bind]. rewrite resize_spec by done.
  cbn [mbind option_bind]. unfold ids_t.size. cbn [ids_t.m_size ids_t.m_ptr
    ids_t.m_reserved].
  rewrite ut_ad_true by by apply bool_decide_eq_true_2.
  cbn [mbind option_bind]. rewrite memmove_Some by lia.
  cbn [mbind option_bind]. rewrite take_0, drop_0, app_nil_l. cbn [Nat.add].
  assert (length (take n start) = n) as Hl by (rewrite length_take; lia).
  eexists. split; [done|]. split_and!.
  - split; cbn [ids_t.m_size ids_t.m_ptr ids_t.m_reserved]; [|lia].
    rewrite length_app, length_drop, Hl. lia.
  - unfold ids_t.contents. cbn [ids_t.m_size ids_t.m_ptr].
    by rewrite take_app_length'.
  - done.
Qed.

Lemma ids_assign_replaces_witness :
  ∃ v', ids_t.assign true [3; 8; 9] 2 (ids_t.mk (replicate 32 7) 5 32)
        = Some v'
        ∧ ids_wf v'
        ∧ ids_t.contents v' = [3; 8]
        ∧ ids_t.m_reserved v' = 32%nat.
Proof.
  apply (ids_assign_replaces true [3; 8; 9] 2 (ids_t.mk (replicate 32 7) 5 32)).
  - split; simpl; lia.
  - simpl. lia.
Defined.

(** ** Views that [prepare] opens *)

Section PrepareProofs.
Variable UNIV_DEBUG : bool.
Implicit Types (view : ReadView.t) (sys : trx_sys_t) (l : list Z) (id : Z).

Lemma lower_bound_at l1 y l2 id :
  ascending (l1 ++ y :: l2) → Forall (λ x, x < id) l1 → id ≤ y →
  lower_bound (l1 ++ y :: l2) 0 (length (l1 ++ y :: l2)) id
  = Some (length l1).
Proof.
  intros Hs H1 Hy.
  destruct (lower_bound_spec (l1 ++ y :: l2) id Hs) as (lb & -> & Hb & Hl & Hu).
  f_equal. destruct (decide (lb < length l1)%nat) as [Hlt|].
  - exfalso. destruct (l1 !! lb) as [x|] eqn:Hx;
      [|apply lookup_ge_None in Hx; lia].
    rewrite Forall_lookup in Hu. specialize (Hu 0%nat x).
    rewrite lookup_drop, Nat.add_0_r, lookup_app_l, Hx in Hu by done.
    specialize (Hu eq_refl). simpl in Hu.
    rewrite Forall_lookup in H1. specialize (H1 lb x Hx). simpl in H1. lia.
  - destruct (decide (lb = length l1)) as [|Hne]; [done|].
    exfalso. rewrite Forall_lookup in Hl. specialize (Hl (length l1) y).
    rewrite lookup_take_lt, list_lookup_middle in Hl by (done || lia).
    specialize (Hl eq_refl). simpl in Hl. lia.
Qed.

(** [copy_trx_ids] of a view with a positive creator id leaves out the
    cell at the lower bound of that id. *)
Lemma copy_trx_ids_lower_bound sys l1 y l2 view :
  0 < ReadView.m_creator_trx_id view →
  ids_wf (ReadView.m_ids view) →
  ascending (l1 ++ y :: l2) →
  Forall (λ x, x < ReadView.m_creator_trx_id view) l1 →
  ReadView.m_creator_trx_id view ≤ y →
  l1 ++ l2 ≠ [] →
  (UNIV_DEBUG = true →
   mutex sys = true ∧ y = ReadView.m_creator_trx_id view) →
  ∃ ids,
    ReadView.copy_trx_ids UNIV_DEBUG sys (l1 ++ y :: l2) view
    = Some (ReadView.set_up_limit_id
              (hd (ReadView.m_up_limit_id view) (l1 ++ l2))
              (ReadView.set_ids ids view))
    ∧ ids_wf ids
    ∧ ids_t.contents ids = l1 ++ l2.
Proof.
  intros Hc Hwf Hasc H1 Hy Hne Hdebug. unfold ReadView.copy_trx_ids.
  rewrite (ut_ad_ok UNIV_DEBUG (mutex_own sys)) by (intros Hd; by apply Hdebug).
  cbn [mbind option_bind].
  set (c := ReadView.m_creator_trx_id view) in *.
  remember (l1 ++ y :: l2) as l eqn:Hl.
  assert (lower_bound l 0 (length l) c = Some (length l1)) as Hlb
    by (rewrite Hl in *; by apply lower_bound_at).
  assert (l !! length l1 = Some y) as Hat
    by (rewrite Hl; by apply list_lookup_middle).
  assert (take (length l1) l = l1) as Htake
    by (rewrite Hl; apply take_app_length).
  assert (drop (length l1 + 1) l = l2) as Hdrop.
  { rewrite Hl, (cons_middle y l1 l2), app_assoc.
    apply drop_app_length'. rewrite length_app. simpl. lia. }
  assert (length l = length l1 + 1 + length l2)%nat as Hll
    by (rewrite Hl, length_app; simpl; lia).
  assert (0 < length l1 + length l2)%nat as Hpos.
  { destruct l1, l2; simpl in *; try done; lia. }
  clear Hl.
  rewrite bool_decide_eq_true_2 by done.
  rewrite ut_ad_true by (apply bool_decide_eq_true_2; lia).
  cbn [mbind option_bind].
  rewrite bool_decide_eq_false_2 by lia. cbn [mbind option_bind].
  rewrite bool_decide_eq_false_2 by lia.
  destruct (reserve_spec UNIV_DEBUG (length l - 1) _ Hwf)
    as (ids1 & -> & Hwf1 & _ & _ & Hr1).
  cbn [mbind option_bind]. rewrite resize_spec by done.
  cbn [mbind option_bind]. unfold ids_t.data. cbn [ids_t.m_ptr].
  destruct Hwf1 as [Hp1 _]. set (p := ids_t.m_ptr ids1) in *.
  rewrite Hlb. cbn [mbind option_bind].
  rewrite (ut_ad_ok UNIV_DEBUG (bool_decide (_ ≠ _ ∧ _))); cycle 1.
  { intros Hd. apply bool_decide_eq_true_2. split; [lia|].
    rewrite Hat. f_equal. by apply Hdebug. }
  cbn [mbind option_bind].
  rewrite memmove_Some by lia. cbn [mbind option_bind].
  rewrite bool_decide_eq_true_2 by lia.
  unfold ids_t.size. cbn [ids_t.m_size].
  rewrite (ut_ad_true _ (bool_decide (_ = _)))
    by (apply bool_decide_eq_true_2; lia).
  cbn [mbind option_bind].
  rewrite take_0, drop_0, app_nil_l, Htake. cbn [Nat.add].
  replace (length l - length l1 - 1)%nat with (length l2) by lia.
  assert (∃ rest, (if bool_decide (0 < length l2)%nat
                   then memmove (l1 ++ drop (length l1) p) (length l1)
                          l (length l1 + 1) (length l2)
                   else Some (l1 ++ drop (length l1) p))
                  = Some ((l1 ++ l2) ++ rest)
                  ∧ length ((l1 ++ l2) ++ rest) = ids_t.m_reserved ids1)
    as (rest & -> & Hrest).
  { case_bool_decide as Hn.
    - rewrite memmove_Some;
        [|lia|rewrite length_app, length_drop; lia].
      rewrite take_app_length, Hdrop, firstn_all.
      eexists. rewrite <- app_assoc. split; [done|].
      rewrite !length_app, !length_drop, length_app, length_drop. lia.
    - assert (l2 = []) as -> by (apply nil_length_inv; lia).
      rewrite app_nil_r. eexists. split; [done|].
      rewrite length_app, length_drop. simpl in *. lia. }
  cbn [mbind option_bind]. unfold ids_t.front, ids_t.empty, ids_t.size.
  cbn [ids_t.m_size ids_t.m_ptr].
  rewrite ut_ad_true by (rewrite bool_decide_eq_false_2; [done|lia]).
  cbn [mbind option_bind].
  replace (length l - 1)%nat with (length (l1 ++ l2))
    by (rewrite length_app; lia).
  destruct (l1 ++ l2) as [|x l'] eqn:Hl'; [done|].
  cbn [app lookup list_lookup mbind option_bind hd].
  eexists. split; [done|]. split.
  - split; cbn [ids_t.m_ptr ids_t.m_size ids_t.m_reserved]; [done|].
    rewrite <- Hrest, length_app. lia.
  - apply (contents_mk_app (x :: l')).
Qed.

(** What [prepare] returns: the statement the properties below start
    from. *)
Lemma prepare_returns sys id view :
  ids_wf (ReadView.m_ids view) →
  ascending (rw_trx_ids sys) →
  (0 < id → occurrences id (rw_trx_ids sys) = 1%nat) →
  (UNIV_DEBUG = true →
   mutex sys = true ∧ Forall (λ x, x ≤ max_trx_id sys) (rw_trx_ids sys)) →
  ∃ ids,
    ReadView.prepare UNIV_DEBUG sys id view
    = Some (ReadView.mk (max_trx_id sys)
              (hd (max_trx_id sys) (without_creator id (rw_trx_ids sys)))
              id ids
              (match serialisation_list sys with
               | trx_no :: _ => Z.min trx_no (max_trx_id sys)
               | [] => max_trx_id sys
               end)
              (ReadView.m_open view) (ReadView.m_registered view))
    ∧ ids_wf ids
    ∧ ids_t.contents ids = without_creator id (rw_trx_ids sys).
Proof.
  intros Hwf Hasc Honce Hdebug. unfold ReadView.prepare, get_max_trx_id.
  rewrite (ut_ad_ok UNIV_DEBUG (mutex_own sys)) by (intros Hd; by apply Hdebug).
  cbn [mbind option_bind].
  set (view0 := ReadView.mk _ _ _ _ _ _ _).
  assert (∃ ids,
    (if negb (bool_decide (rw_trx_ids sys = []))
     then ReadView.copy_trx_ids UNIV_DEBUG sys (rw_trx_ids sys) view0
     else ids_t.clear UNIV_DEBUG (ReadView.m_ids view0)
          ≫= λ ids, Some (ReadView.set_ids ids view0))
    = Some (ReadView.set_up_limit_id
              (hd (max_trx_id sys) (without_creator id (rw_trx_ids sys)))
              (ReadView.set_ids ids view0))
    ∧ ids_wf ids
    ∧ ids_t.contents ids = without_creator id (rw_trx_ids sys))
    as (ids & -> & Hwf' & Hc).
  { case_bool_decide as Hrw; cbn [negb].
    - rewrite clear_spec. cbn [mbind option_bind]. rewrite Hrw.
      assert (without_creator id [] = []) as ->
        by (unfold without_creator; by case_bool_decide).
      exists (ids_t.mk (ids_t.m_ptr (ReadView.m_ids view)) 0
                (ids_t.m_reserved (ReadView.m_ids view))).
      split; [reflexivity|]. split; [|done].
      destruct Hwf. split; simpl; [done|lia].
    - apply (copy_trx_ids_spec UNIV_DEBUG sys (rw_trx_ids sys) view0);
        [intros Hd; by apply Hdebug|done..]. }
  cbn [mbind option_bind].
  cbn [ReadView.set_up_limit_id ReadView.set_ids ReadView.m_up_limit_id
       ReadView.m_low_limit_id ReadView.m_low_limit_no view0].
  rewrite ut_ad_ok; cycle 1.
  { intros Hd. apply bool_decide_eq_true_2.
    apply without_creator_bound. by apply Hdebug. }
  cbn [mbind option_bind]. exists ids. split; [|done].
  destruct (serialisation_list sys) as [|trx_no ?]; [done|].
  case_bool_decide as Hno.
  - by rewrite Z.min_l by lia.
  - by rewrite Z.min_r by lia.
Qed.

End PrepareProofs.

Section StrictlyAscending.
Implicit Types (l k : list Z) (x id : Z).

Lemma strictly_ascending_filter (P : Z → Prop) `{∀ x, Decision (P x)} l :
  strictly_ascending l → strictly_ascending (base.filter P l).
Proof.
  induction 1 as [|x l Hl IH Hx]; [constructor|].
  rewrite filter_cons. case_decide; [|done]. constructor; [done|].
  apply Forall_forall. intros y [_ Hy]%list_elem_of_filter.
  rewrite Forall_forall in Hx. by apply Hx.
Qed.


Lemma occurrences_strict id l :
  strictly_ascending l → id ∈ l → occurrences id l = 1%nat.
Proof.
  unfold occurrences. induction 1 as [|x l Hl IH Hx]; [by intros ?%elem_of_nil|].
  rewrite filter_cons. intros [->|Hin]%elem_of_cons.
  - rewrite decide_True by done. simpl. f_equal.
    assert (base.filter (λ y, y = x) l = []) as ->; [|done].
    destruct (base.filter (λ y, y = x) l) as [|y ?] eqn:Hf; [done|].
    assert (y ∈ base.filter (λ y, y = x) l) as [-> Hy]%list_elem_of_filter
      by (rewrite Hf; by left).
    rewrite Forall_forall in Hx. specialize (Hx x Hy). lia.
  - rewrite decide_False; [by apply IH|].
    intros ->. rewrite Forall_forall in Hx. specialize (Hx id Hin). lia.
Qed.

Lemma without_creator_elem id l x :
  x ∈ without_creator id l ↔ x ∈ l ∧ (0 < id → x ≠ id).
Proof.
  unfold without_creator. case_bool_decide as Hid.
  - rewrite list_elem_of_filter. split.
    + by intros [Hx Hl].
    + intros [Hl Hx]. split; [by apply Hx|done].
  - split; [by intros Hl|by intros [Hl _]].
Qed.

Lemma strictly_ascending_hd l (d : Z) :
  strictly_ascending l → Forall (λ x, hd d l ≤ x) l.
Proof.
  destruct 1 as [|x l Hl Hx]; [constructor|]. simpl. constructor; [lia|].
  eapply Forall_impl; [done|]. simpl. lia.
Qed.

End StrictlyAscending.

(** What [prepare] returns when [rw_trx_ids] holds one id and the creator
    id is positive. *)
Lemma prepare_one_rw_id (UNIV_DEBUG : bool) (sys : trx_sys_t) (id x : Z)
    (view : ReadView.t) :
  rw_trx_ids sys = [x] → 0 < id →
  (UNIV_DEBUG = true → mutex sys = true) →
  ∃ view',
    ReadView.prepare UNIV_DEBUG sys id view = Some view'
    ∧ ids_t.contents (ReadView.m_ids view') = []
    ∧ ReadView.m_up_limit_id view' = max_trx_id sys
    ∧ ReadView.m_low_limit_id view' = max_trx_id sys
    ∧ ReadView.m_creator_trx_id view' = id.
Proof.
  intros Hrw Hid Hmutex. unfold ReadView.prepare, ReadView.copy_trx_ids.
  rewrite !(ut_ad_ok UNIV_DEBUG (mutex_own sys)) by done.
  rewrite Hrw. cbn [mbind option_bind bool_decide negb length
    ReadView.m_creator_trx_id].
  rewrite bool_decide_eq_false_2 by done. cbn [negb].
  rewrite bool_decide_eq_true_2 by done.
  rewrite ut_ad_true by (apply bool_decide_eq_true_2; lia).
  cbn [mbind option_bind].
  rewrite bool_decide_eq_false_2 by lia. cbn [mbind option_bind Nat.sub].
  rewrite bool_decide_eq_true_2 by done.
  rewrite clear_spec. cbn [mbind option_bind].
  cbn [ReadView.set_ids ReadView.m_up_limit_id ReadView.m_low_limit_id
       ReadView.m_ids].
  rewrite ut_ad_true by (apply bool_decide_eq_true_2; lia).
  cbn [mbind option_bind].
  destruct (serialisation_list sys) as [|trx_no ?];
    [|case_bool_decide]; (eexists; split; [done|]); done.
Qed.

(** X4. [ReadView::prepare(id)] with [id > 0], when [rw_trx_ids] holds a
    single id, returns a view without ids, whether or not that id is
    [id]: [copy_trx_ids] clears [m_ids] before it looks the creator id up,
    and the assertion that the id is in the list is not reached, in a
    debug build either. *)
Theorem prepare_one_rw_id_unchecked (UNIV_DEBUG : bool) (sys : trx_sys_t)
    (id x : Z) (view : ReadView.t) :
  rw_trx_ids sys = [x] → 0 < id →
  (UNIV_DEBUG = true → mutex sys = true) →
  ∃ view',
    ReadView.prepare UNIV_DEBUG sys id view = Some view'
    ∧ ids_t.contents (ReadView.m_ids view') = []
    ∧ ReadView.m_up_limit_id view' = max_trx_id sys
    ∧ ReadView.m_low_limit_id view' = max_trx_id sys
    ∧ ReadView.m_creator_trx_id view' = id.
Proof. apply prepare_one_rw_id. Qed.

Lemma prepare_one_rw_id_unchecked_witness :
  ∃ view',
    ReadView.prepare true (mk_trx_sys 9 [3] [] true) 5 ex_view = Some view'
    ∧ ids_t.contents (ReadView.m_ids view') = []
    ∧ ReadView.m_up_limit_id view' = 9
    ∧ ReadView.m_low_limit_id view' = 9
    ∧ ReadView.m_creator_trx_id view' = 5.
Proof.
  apply (prepare_one_rw_id_unchecked true (mk_trx_sys 9 [3] [] true) 5 3
           ex_view); [reflexivity|lia|reflexivity].
Defined.

(** X5. In a debug build [ReadView::prepare(id)] with [id > 0] does not
    return when [rw_trx_ids] holds two ids or more and [id] is not one of
    them: if the assertions before it hold, the assertion of
    [copy_trx_ids] that the lower bound of the creator id is the creator
    id fails. *)
Theorem prepare_debug_asserts_creator_listed (sys : trx_sys_t) (id : Z)
    (view : ReadView.t) :
  0 < id → id ∉ rw_trx_ids sys → (2 ≤ length (rw_trx_ids sys))%nat →
  ReadView.prepare true sys id view = None.
Proof.
  intros Hid Hnotin Hlen. unfold ReadView.prepare.
  destruct (ut_ad true (mutex_own sys)); [|done]. cbn [mbind option_bind].
  rewrite bool_decide_eq_false_2
    by (intros E; rewrite E in Hlen; simpl in Hlen; lia).
  cbn [negb].
  set (view0 := ReadView.mk _ _ _ _ _ _ _).
  assert (ReadView.copy_trx_ids true sys (rw_trx_ids sys) view0 = None)
    as ->; [|done].
  unfold ReadView.copy_trx_ids.
  destruct (ut_ad true (mutex_own sys)); [|done]. cbn [mbind option_bind].
  cbn [view0 ReadView.m_creator_trx_id].
  rewrite bool_decide_eq_true_2 by done.
  rewrite ut_ad_true by (apply bool_decide_eq_true_2; lia).
  cbn [mbind option_bind].
  rewrite bool_decide_eq_false_2 by lia. cbn [mbind option_bind].
  rewrite bool_decide_eq_false_2 by lia.
  destruct (ids_t.reserve _ _ _) as [ids1|]; [|done]. cbn [mbind option_bind].
  destruct (ids_t.resize _ _ _) as [ids2|]; [|done]. cbn [mbind option_bind].
  destruct (lower_bound _ _ _ _) as [it|]; [|done]. cbn [mbind option_bind].
  rewrite (bool_decide_eq_false_2 (_ ∧ _)); [done|].
  intros [_ Hat]. apply Hnotin. by eapply list_elem_of_lookup_2.
Qed.

Lemma prepare_debug_asserts_creator_listed_witness :
  ReadView.prepare true (mk_trx_sys 9 [3; 8] [] true) 5 ex_view = None.
Proof.
  apply (prepare_debug_asserts_creator_listed (mk_trx_sys 9 [3; 8] [] true) 5
           ex_view).
  - lia.
  - simpl. by apply (bool_decide_unpack _); vm_compute.
  - simpl. lia.
Defined.

(** X6. In a release build [ReadView::prepare(id)] with [id > 0] leaves
    out of [m_ids] the first id of the ascending [rw_trx_ids] that is not
    below [id], whether or not it is [id]: that the lower bound is the
    creator id is only asserted in a debug build. *)
Theorem prepare_release_leaves_out_lower_bound (sys : trx_sys_t) (id : Z)
    (view : ReadView.t) (l1 : list Z) (y : Z) (l2 : list Z) :
  ids_wf (ReadView.m_ids view) →
  rw_trx_ids sys = l1 ++ y :: l2 →
  ascending (l1 ++ y :: l2) →
  0 < id → Forall (λ x, x < id) l1 → id ≤ y →
  ∃ view',
    ReadView.prepare false sys id view = Some view'
    ∧ ids_t.contents (ReadView.m_ids view') = l1 ++ l2
    ∧ ReadView.m_up_limit_id view' = hd (max_trx_id sys) (l1 ++ l2).
Proof.
  intros Hwf Hrw Hasc Hid H1 Hy.
  destruct (decide (l1 ++ l2 = [])) as [Hnil|Hne].
  { apply app_eq_nil in Hnil as [-> ->].
    destruct (prepare_one_rw_id false sys id y view Hrw Hid)
      as (view' & Hp & Hc & Hup & _); [done|].
    exists view'. by split_and!. }
  unfold ReadView.prepare, get_max_trx_id. cbn [ut_ad mbind option_bind].
  set (view0 := ReadView.mk _ _ _ _ _ _ _).
  rewrite Hrw. rewrite bool_decide_eq_false_2 by by destruct l1.
  cbn [negb].
  destruct (copy_trx_ids_lower_bound false sys l1 y l2 view0)
    as (ids & -> & Hwf' & Hc); [done..|].
  cbn [mbind option_bind].
  destruct (serialisation_list sys) as [|trx_no ?];
    [|case_bool_decide]; (eexists; split; [done|]); done.
Qed.

Lemma prepare_release_leaves_out_lower_bound_witness :
  ∃ view',
    ReadView.prepare false (mk_trx_sys 9 [3; 6; 8] [] true) 5 ex_view
    = Some view'
    ∧ ids_t.contents (ReadView.m_ids view') = [3; 8]
    ∧ ReadView.m_up_limit_id view' = 3.
Proof.
  apply (prepare_release_leaves_out_lower_bound
           (mk_trx_sys 9 [3; 6; 8] [] true) 5 ex_view [3] 6 [8]).
  - split; simpl; lia.
  - reflexivity.
  - unfold ascending. simpl. by apply (bool_decide_unpack _); vm_compute.
  - lia.
  - by apply (bool_decide_unpack _); vm_compute.
  - lia.
Defined.

(** X7. [ReadView::prepare(id)], when [rw_trx_ids] is in ascending order
    without duplicates, holds no id above [max_trx_id] and holds [id] if
    [id > 0], returns a view that satisfies the invariants the clone
    relies on: [m_ids] is well formed, in ascending order without
    duplicates and without the creator id. Every id of [m_ids] lies
    between [m_up_limit_id] and [m_low_limit_id], and neither
    [m_up_limit_id] nor [m_low_limit_no] is above [m_low_limit_id]. *)
Theorem prepare_establishes_view_invariant (UNIV_DEBUG : bool)
    (sys : trx_sys_t) (id : Z) (view : ReadView.t) :
  ids_wf (ReadView.m_ids view) →
  strictly_ascending (rw_trx_ids sys) →
  (0 < id → id ∈ rw_trx_ids sys) →
  Forall (λ x, x ≤ max_trx_id sys) (rw_trx_ids sys) →
  (UNIV_DEBUG = true → mutex sys = true) →
  ∃ view',
    ReadView.prepare UNIV_DEBUG sys id view = Some view'
    ∧ view_invariant UNIV_DEBUG view'
    ∧ Forall (λ x, ReadView.m_up_limit_id view' ≤ x
                   ∧ x ≤ ReadView.m_low_limit_id view')
        (ids_t.contents (ReadView.m_ids view'))
    ∧ ReadView.m_up_limit_id view' ≤ ReadView.m_low_limit_id view'
    ∧ ReadView.m_low_limit_no view' ≤ ReadView.m_low_limit_id view'.
Proof.
  intros Hwf Hasc Hin Hmax Hmutex.
  destruct (prepare_returns UNIV_DEBUG sys id view) as (ids & -> & Hwf' & Hc);
    [done|by apply strictly_ascending_ascending
     |intros Hid; apply occurrences_strict; auto|by split; auto|].
  assert (strictly_ascending (without_creator id (rw_trx_ids sys))) as Hasc'.
  { unfold without_creator. case_bool_decide; [|done].
    by apply strictly_ascending_filter. }
  assert (hd (max_trx_id sys) (without_creator id (rw_trx_ids sys))
          ≤ max_trx_id sys) as Hup by by apply without_creator_bound.
  eexists. split; [done|].
  cbn [ReadView.m_ids ReadView.m_up_limit_id ReadView.m_low_limit_id
       ReadView.m_low_limit_no].
  split_and!; [| |done|].
  - unfold view_invariant.
    cbn [ReadView.m_ids ReadView.m_up_limit_id ReadView.m_low_limit_id
         ReadView.m_creator_trx_id].
    rewrite Hc. split_and!; [done|done| |done].
    intros Hid [_ Hne]%without_creator_elem. by apply Hne.
  - rewrite Hc. apply Forall_forall. intros x Hx. split.
    + pose proof (strictly_ascending_hd _ (max_trx_id sys) Hasc') as Hhd.
      rewrite Forall_forall in Hhd. by apply Hhd.
    + apply without_creator_elem in Hx as [Hx _].
      rewrite Forall_forall in Hmax. by apply Hmax.
  - destruct (serialisation_list sys); lia.
Qed.

Lemma prepare_establishes_view_invariant_witness :
  ∃ view',
    ReadView.prepare true (mk_trx_sys 9 [3; 5; 8] [7] true) 5 ex_view
    = Some view'
    ∧ view_invariant true view'
    ∧ Forall (λ x, ReadView.m_up_limit_id view' ≤ x
                   ∧ x ≤ ReadView.m_low_limit_id view')
        (ids_t.contents (ReadView.m_ids view'))
    ∧ ReadView.m_up_limit_id view' ≤ ReadView.m_low_limit_id view'
    ∧ ReadView.m_low_limit_no view' ≤ ReadView.m_low_limit_id view'.
Proof.
  apply (prepare_establishes_view_invariant true
           (mk_trx_sys 9 [3; 5; 8] [7] true) 5 ex_view).
  - split; simpl; lia.
  - unfold strictly_ascending. simpl.
    by apply (bool_decide_unpack _); vm_compute.
  - intros _. simpl. by apply (bool_decide_unpack _); vm_compute.
  - simpl. by apply (bool_decide_unpack _); vm_compute.
  - reflexivity.
Defined.







(** ** The list of views *)

Section ViewList.
Implicit Types (views : list ReadView.t) (view : ReadView.t).

Lemma count_open_filter views n :
  MVCC.count_open views n
  = (n + length (base.filter (λ v, ReadView.is_open v = true) views))%nat.
Proof.
  revert n. induction views as [|v views IH]; intros n; simpl; [lia|].
  rewrite IH, filter_cons. destruct (ReadView.is_open v).
  - rewrite decide_True by done. simpl. lia.
  - by rewrite decide_False by done.
Qed.

Lemma find_oldest_open_closed views :
  MVCC.find_oldest_open views = None
  ↔ Forall (λ v, ReadView.is_open v = false) views.
Proof.
  split; [apply find_oldest_open_None|].
  induction 1 as [|v views Hv _ IH]; [done|]. simpl. by rewrite Hv.
Qed.

Lemma no_open_filter views :
  length (base.filter (λ v, ReadView.is_open v = true) views) = 0%nat
  ↔ Forall (λ v, ReadView.is_open v = false) views.
Proof.
  induction views as [|v views IH]; [by split; [constructor|]|].
  rewrite filter_cons, Forall_cons. destruct (ReadView.is_open v) eqn:Hv.
  - rewrite decide_True by done. simpl. split; [lia|by intros [? _]].
  - rewrite decide_False by done. rewrite IH. split; [done|by intros [_ ?]].
Qed.

(** The calls of [ViewCheck] on a list all return exactly when every view
    is registered and every view agrees with the one before it. *)
Lemma ut_list_map_Some views prev :
  is_Some (MVCC.ut_list_map true views prev)
  ↔ Forall (λ v, ReadView.is_registered v = true) views
    ∧ Sorted view_after views
    ∧ match prev with
      | Some p => HdRel view_after p views
      | None => True
      end.
Proof.
  revert prev. induction views as [|v views IH]; intros prev.
  { simpl. split; [|by eauto]. intros _. split_and!; [constructor..|].
    destruct prev; [constructor|done]. }
  cbn [MVCC.ut_list_map]. unfold MVCC.ViewCheck, ut_ad, ut_a.
  rewrite Forall_cons.
  destruct (ReadView.is_registered v) eqn:Hreg; cbn [mbind option_bind];
    [|split; [by intros [? ?]|by intros [[? _] _]]].
  assert ((match prev with
           | Some p => negb (ReadView.is_open v) || ReadView.le v p
           | None => true
           end) = true
          ↔ match prev with
            | Some p => HdRel view_after p (v :: views)
            | None => True
            end) as Hcond.
  { destruct prev as [p|]; [|done]. unfold ReadView.le, view_after.
    split.
    - intros Hc. constructor. intros Ho. rewrite Ho in Hc. simpl in Hc.
      by apply bool_decide_eq_true_1 in Hc.
    - intros Hd. apply HdRel_inv in Hd.
      destruct (ReadView.is_open v); [|done]. simpl.
      apply bool_decide_eq_true_2. by apply Hd. }
  destruct (match prev with
            | Some p => negb (ReadView.is_open v) || ReadView.le v p
            | None => true
            end) eqn:Hc; cbn [mbind option_bind].
  - rewrite IH. split.
    + intros (Hall & Hs & Hd). split_and!; [done|done|by constructor|].
      by apply Hcond.
    + intros ((_ & Hall) & Hs & _). apply Sorted_inv in Hs as [Hs Hd].
      done.
  - split; [by intros [? ?]|]. intros (_ & _ & Hd).
    apply Hcond in Hd. done.
Qed.

End ViewList.

(** X9. [MVCC::size()], called without [trx_sys.mutex], returns the number
    of open views of the list with the mutex released again, and it is 0
    exactly when the scan of [clone_oldest_view] finds no view to copy. *)
Theorem size_counts_open_views (sys : trx_sys_t)
    (m_views : list ReadView.t) :
  mutex sys = false →
  MVCC.size sys m_views
  = Some (sys, length (base.filter (λ v, ReadView.is_open v = true) m_views))
  ∧ (length (base.filter (λ v, ReadView.is_open v = true) m_views) = 0%nat
     ↔ MVCC.find_oldest_open (reverse m_views) = None).
Proof.
  intros Hmutex. split.
  - unfold MVCC.size, MVCC.UT_LIST_GET_FIRST.
    destruct (mutex_enter_exit sys Hmutex) as [-> Hexit].
    cbn [mbind option_bind locked mutex_own mutex]. rewrite Hexit.
    cbn [mbind option_bind]. by rewrite count_open_filter.
  - rewrite no_open_filter, find_oldest_open_closed.
    by rewrite Forall_reverse.
Qed.

Lemma size_counts_open_views_witness :
  MVCC.size ex_sys ex_views = Some (ex_sys, 2%nat).
Proof.
  apply (size_counts_open_views ex_sys ex_views). reflexivity.
Defined.

(** X10. [MVCC::validate()] of a debug build returns (and then returns
    true) exactly when the caller holds [trx_sys.mutex], every view of the
    list is registered, and every open view but the first has a
    [m_low_limit_no] that is not above that of the view just before it in
    the list. A closed view is not compared with its predecessor, but its
    successor is compared with it. *)
Theorem validate_checks_neighbours (sys : trx_sys_t)
    (m_views : list ReadView.t) :
  MVCC.validate true sys m_views = Some true
  ↔ mutex sys = true
    ∧ Forall (λ v, ReadView.is_registered v = true) m_views
    ∧ Sorted view_after m_views.
Proof.
  unfold MVCC.validate, ut_ad, mutex_own.
  destruct (mutex sys); cbn [mbind option_bind];
    [|split; [done|by intros [? _]]].
  pose proof (ut_list_map_Some m_views None) as Hmap.
  destruct (MVCC.ut_list_map true m_views None) as [last|];
    cbn [mbind option_bind].
  - split; [intros _|done]. split; [done|].
    destruct Hmap as [Hmap _]. destruct Hmap as (? & ? & _); by eauto.
  - split; [done|]. intros (_ & Hall & Hs).
    destruct Hmap as [_ Hmap]. by destruct Hmap.
Qed.

(** ** Opening a view *)

Section ViewOpen.
Implicit Types (views : list nat) (elem : nat) (mvcc : MVCC.t)
  (view : ReadView.t) (sys : trx_sys_t) (trx : MVCC.trx_t).

Lemma filter_other_absent views elem :
  elem ∉ views → base.filter (λ e, e ≠ elem) views = views.
Proof.
  induction views as [|e views IH]; [done|].
  intros [Hne Hnotin]%not_elem_of_cons.
  rewrite filter_cons, decide_True by done. by rewrite IH.
Qed.

Lemma detach_NoDup views elem :
  NoDup views → elem ∈ views →
  MVCC.detach views elem = Some (base.filter (λ e, e ≠ elem) views).
Proof.
  induction 1 as [|e views Hnotin Hnd IH]; [by intros ?%elem_of_nil|].
  cbn [MVCC.detach]. rewrite filter_cons. case_bool_decide as He.
  - subst e. intros _. rewrite decide_False by (intros Hne; by apply Hne).
    by rewrite filter_other_absent.
  - intros [->|Hin]%elem_of_cons; [done|].
    rewrite IH by done. cbn [mbind option_bind].
    by rewrite decide_True by done.
Qed.

Lemma UT_LIST_REMOVE_NoDup sys views elem :
  mutex sys = true → NoDup views → elem ∈ views →
  MVCC.UT_LIST_REMOVE sys views elem
  = Some (base.filter (λ e, e ≠ elem) views).
Proof.
  intros Hmutex Hnd Hin. unfold MVCC.UT_LIST_REMOVE, mutex_own.
  rewrite Hmutex. by apply detach_NoDup.
Qed.

Lemma UT_LIST_ADD_FIRST_absent sys views elem :
  mutex sys = true → elem ∉ views →
  MVCC.UT_LIST_ADD_FIRST sys views elem = Some (elem :: views).
Proof.
  intros Hmutex Hnotin. unfold MVCC.UT_LIST_ADD_FIRST, mutex_own.
  rewrite Hmutex. by rewrite bool_decide_eq_false_2.
Qed.

Lemma absent_after_remove views elem :
  elem ∉ base.filter (λ e, e ≠ elem) views.
Proof. intros [Hne _]%list_elem_of_filter. by apply Hne. Qed.

(** A registry stays well formed when a view is set to open and
    registered and moves to the head of the list. *)
Lemma registry_wf_add_first mvcc elem view :
  registry_wf mvcc →
  ReadView.is_registered view = true →
  registry_wf
    (MVCC.mk (elem :: base.filter (λ e, e ≠ elem) (MVCC.m_views mvcc))
       (<[elem:=view]> (MVCC.objects mvcc))).
Proof.
  intros (Hnd & Hmem & Hopen) Hreg. split_and!; cbn [MVCC.m_views MVCC.objects].
  - constructor; [apply absent_after_remove|by apply NoDup_filter].
  - intros e. destruct (decide (e = elem)) as [->|Hne].
    + split; [|intros _; by left]. intros _. exists view.
      by rewrite lookup_insert_eq.
    + rewrite elem_of_cons, list_elem_of_filter, lookup_insert_ne by done.
      rewrite Hmem. split.
      * by intros [?|[_ ?]].
      * intros ?. by right.
  - intros e v. destruct (decide (e = elem)) as [->|Hne].
    + rewrite lookup_insert_eq. by intros [= <-].
    + rewrite lookup_insert_ne by done. apply Hopen.
Qed.

(** A registry stays well formed when a registered view is reopened
    where it is. *)
Lemma registry_wf_reopen mvcc elem view :
  registry_wf mvcc →
  MVCC.objects mvcc !! elem = Some view →
  ReadView.is_registered view = true →
  registry_wf
    (MVCC.mk (MVCC.m_views mvcc)
       (<[elem:=ReadView.set_open true view]> (MVCC.objects mvcc))).
Proof.
  intros (Hnd & Hmem & Hopen) Hobj Hreg.
  split_and!; cbn [MVCC.m_views MVCC.objects]; [done|..].
  - intros e. destruct (decide (e = elem)) as [->|Hne].
    + rewrite lookup_insert_eq. split.
      * intros _. by eexists.
      * intros _. apply Hmem. by eexists.
    + by rewrite lookup_insert_ne by done.
  - intros e v. destruct (decide (e = elem)) as [->|Hne].
    + rewrite lookup_insert_eq. by intros [= <-].
    + rewrite lookup_insert_ne by done. apply Hopen.
Qed.

Lemma views_of_others (objs : gmap nat ReadView.t) views elem view :
  elem ∉ views →
  (∀ e, e ∈ views → is_Some (objs !! e)) →
  mapM (λ e, <[elem:=view]> objs !! e) views
  = Some (omap (λ e, objs !! e) views).
Proof.
  induction views as [|e views IH]; [done|].
  intros [Hne Hnotin]%not_elem_of_cons Hall.
  cbn [mapM omap]. rewrite lookup_insert_ne by done.
  destruct (Hall e) as [v Hv]; [by left|]. rewrite Hv.
  cbn [mbind option_bind]. rewrite IH; [|done|]; cycle 1.
  { intros e' He'. apply Hall. by right. }
  cbn [mbind option_bind mret option_ret]. change (list_omap nat ReadView.t) with (@omap list _ nat ReadView.t). cbn [omap list_omap]. by rewrite Hv.
Qed.

Lemma other_views_registered mvcc elem :
  registry_wf mvcc →
  Forall (λ v, ReadView.is_registered v = true) (other_views mvcc elem).
Proof.
  intros (_ & Hmem & _). apply Forall_forall. intros v.
  unfold other_views. rewrite list_elem_of_omap.
  intros (e & [_ He]%list_elem_of_filter & Hv).
  apply Hmem in He as (v' & Hv' & Hr). congruence.
Qed.

(** The path of [view_open] that takes [trx_sys.mutex]: the view holds
    what [prepare] made of it with the mutex held, is open and
    registered, and is the first of [m_views]; the other views keep their
    order. A debug build validates the new list before it releases the
    mutex. *)
Lemma view_open_fresh (UNIV_DEBUG : bool) sys trx mvcc view :
  registry_wf mvcc →
  MVCC.objects mvcc !! MVCC.read_view trx = Some view →
  ids_wf (ReadView.m_ids view) →
  mutex sys = false →
  ascending (rw_trx_ids sys) →
  (0 < MVCC.trx_id trx →
   occurrences (MVCC.trx_id trx) (rw_trx_ids sys) = 1%nat) →
  ReadView.is_open view = false →
  reusable sys trx view = false →
  (UNIV_DEBUG = true →
   Forall (λ x, x ≤ max_trx_id sys) (rw_trx_ids sys)
   ∧ valid_behind (match serialisation_list sys with
                   | trx_no :: _ => Z.min trx_no (max_trx_id sys)
                   | [] => max_trx_id sys
                   end)
       (other_views mvcc (MVCC.read_view trx))) →
  ∃ ids,
    MVCC.view_open UNIV_DEBUG false sys trx mvcc
    = Some (sys,
            MVCC.mk (MVCC.read_view trx
                     :: base.filter (λ e, e ≠ MVCC.read_view trx)
                          (MVCC.m_views mvcc))
              (<[MVCC.read_view trx :=
                   ReadView.mk (max_trx_id sys)
                     (hd (max_trx_id sys)
                        (without_creator (MVCC.trx_id trx) (rw_trx_ids sys)))
                     (MVCC.trx_id trx) ids
                     (match serialisation_list sys with
                      | trx_no :: _ => Z.min trx_no (max_trx_id sys)
                      | [] => max_trx_id sys
                      end)
                     true true]> (MVCC.objects mvcc)))
    ∧ ids_wf ids
    ∧ ids_t.contents ids
      = without_creator (MVCC.trx_id trx) (rw_trx_ids sys)
    ∧ ReadView.prepare UNIV_DEBUG (locked sys) (MVCC.trx_id trx) view
      = Some (ReadView.mk (max_trx_id sys)
                (hd (max_trx_id sys)
                   (without_creator (MVCC.trx_id trx) (rw_trx_ids sys)))
                (MVCC.trx_id trx) ids
                (match serialisation_list sys with
                 | trx_no :: _ => Z.min trx_no (max_trx_id sys)
                 | [] => max_trx_id sys
                 end)
                (ReadView.m_open view) (ReadView.m_registered view)).
Proof.
  intros Hreg Hobj Hwf Hmutex Hasc Honce Hclosed Hreuse Hdebug.
  pose proof Hreg as (Hnd & Hmem & Hopen).
  unfold MVCC.view_open. rewrite Hobj. cbn [mbind option_bind].
  rewrite Hclosed. fold (reusable sys trx view). rewrite Hreuse.
  destruct (mutex_enter_exit sys Hmutex) as [-> Hexit].
  cbn [mbind option_bind].
  destruct (prepare_returns UNIV_DEBUG (locked sys) (MVCC.trx_id trx) view)
    as (ids & Hprepare & Hwf' & Hc); [done..| |].
  { intros Hd. split; [done|]. by apply Hdebug. }
  rewrite Hprepare.
  cbn [mbind option_bind ReadView.is_registered ReadView.m_registered
       locked max_trx_id rw_trx_ids serialisation_list] in *.
  exists ids. split; [|done].
  set (no := match serialisation_list sys with
             | trx_no :: _ => Z.min trx_no (max_trx_id sys)
             | [] => max_trx_id sys
             end) in *.
  set (up := hd (max_trx_id sys)
               (without_creator (MVCC.trx_id trx) (rw_trx_ids sys))) in *.
  set (elem := MVCC.read_view trx) in *.
  set (others := base.filter (λ e, e ≠ elem) (MVCC.m_views mvcc)).
  assert ((if ReadView.m_registered view
           then MVCC.UT_LIST_REMOVE (locked sys) (MVCC.m_views mvcc) elem
                ≫= λ views,
                  Some (ReadView.mk (max_trx_id sys) up (MVCC.trx_id trx)
                          ids no (ReadView.m_open view)
                          (ReadView.m_registered view), views)
           else Some (ReadView.set_registered true
                        (ReadView.mk (max_trx_id sys) up (MVCC.trx_id trx)
                           ids no (ReadView.m_open view)
                           (ReadView.m_registered view)),
                      MVCC.m_views mvcc))
          = Some (ReadView.mk (max_trx_id sys) up (MVCC.trx_id trx) ids no
                    (ReadView.m_open view) true, others)) as ->.
  { destruct (ReadView.m_registered view) eqn:Hr.
    - rewrite UT_LIST_REMOVE_NoDup; [done..|]. apply Hmem. by eexists.
    - cbn [ReadView.set_registered ReadView.m_low_limit_id
           ReadView.m_up_limit_id ReadView.m_creator_trx_id ReadView.m_ids
           ReadView.m_low_limit_no ReadView.m_open].
      unfold others. rewrite filter_other_absent; [done|].
      intros (v & Hv & Hrv)%Hmem. rewrite Hobj in Hv. injection Hv as <-.
      unfold ReadView.is_registered in Hrv. congruence. }
  cbn [mbind option_bind ReadView.set_open ReadView.m_low_limit_id
       ReadView.m_up_limit_id ReadView.m_creator_trx_id ReadView.m_ids
       ReadView.m_low_limit_no ReadView.m_registered].
  rewrite UT_LIST_ADD_FIRST_absent by (done || apply absent_after_remove).
  cbn [mbind option_bind]. fold (locked sys).
  destruct UNIV_DEBUG; cbn [mbind option_bind]; [|by rewrite Hexit].
  destruct Hdebug as (_ & Hsorted & Hhead); [done|].
  unfold MVCC.views_of. cbn [MVCC.m_views MVCC.objects mapM].
  rewrite lookup_insert_eq. cbn [mbind option_bind].
  rewrite views_of_others; cycle 1.
  { apply absent_after_remove. }
  { intros e [_ He]%list_elem_of_filter.
    apply Hmem in He as (v & -> & _). by eexists. }
  cbn [mbind option_bind mret option_ret].
  unfold MVCC.validate, ut_ad, mutex_own. cbn [locked mutex mbind option_bind].
  change (omap _ others) with (other_views mvcc elem).
  set (view' := ReadView.set_open true _).
  destruct (ut_list_map_Some (view' :: other_views mvcc elem) None)
    as [_ [last ->]].
  { split_and!; [|constructor; [done|]|done].
    - constructor; [done|]. by apply other_views_registered.
    - destruct (other_views mvcc elem) as [|first ?]; constructor.
      exact Hhead. }
  cbn [mbind option_bind]. by rewrite Hexit.
Qed.

Lemma ex_mvcc_wf : registry_wf ex_mvcc.
Proof.
  unfold registry_wf, ex_mvcc. cbn [MVCC.m_views MVCC.objects]. split_and!.
  - by apply (bool_decide_unpack _); vm_compute.
  - intros e. rewrite !elem_of_cons, elem_of_nil. split.
    + intros [->|[->|[]]]; eexists; (split; [reflexivity|done]).
    + intros (v & Hv & Hr).
      apply lookup_insert_Some in Hv as [[<- <-]|[_ Hv]]; [by left|].
      apply lookup_insert_Some in Hv as [[<- <-]|[_ Hv]]; [right; by left|].
      apply lookup_insert_Some in Hv as [[<- <-]|[_ Hv]]; [done|].
      by rewrite lookup_empty in Hv.
  - intros e v Hv.
    apply lookup_insert_Some in Hv as [[<- <-]|[_ Hv]]; [done|].
    apply lookup_insert_Some in Hv as [[<- <-]|[_ Hv]]; [done|].
    apply lookup_insert_Some in Hv as [[<- <-]|[_ Hv]]; [done|].
    by rewrite lookup_empty in Hv.
Qed.


End ViewOpen.

(** X11. [MVCC::view_open(trx)] in a release build, outside read-only
    mode and called without [trx_sys.mutex] on a well-formed registry,
    returns with the mutex released and the registry well formed. The
    view of the transaction is then open and registered, every other view
    is as it was, and the views of the list other than that of the
    transaction keep their order. *)
Theorem view_open_keeps_registry (sys : trx_sys_t) (trx : MVCC.trx_t)
    (mvcc : MVCC.t) (view : ReadView.t) :
  registry_wf mvcc →
  MVCC.objects mvcc !! MVCC.read_view trx = Some view →
  ids_wf (ReadView.m_ids view) →
  mutex sys = false →
  ascending (rw_trx_ids sys) →
  (0 < MVCC.trx_id trx →
   occurrences (MVCC.trx_id trx) (rw_trx_ids sys) = 1%nat) →
  ∃ mvcc' view',
    MVCC.view_open false false sys trx mvcc = Some (sys, mvcc')
    ∧ registry_wf mvcc'
    ∧ MVCC.objects mvcc' !! MVCC.read_view trx = Some view'
    ∧ ReadView.is_open view' = true
    ∧ ReadView.is_registered view' = true
    ∧ (∀ elem, elem ≠ MVCC.read_view trx →
               MVCC.objects mvcc' !! elem = MVCC.objects mvcc !! elem)
    ∧ base.filter (λ e, e ≠ MVCC.read_view trx) (MVCC.m_views mvcc')
      = base.filter (λ e, e ≠ MVCC.read_view trx) (MVCC.m_views mvcc).
Proof.
  intros Hreg Hobj Hwf Hmutex Hasc Honce.
  destruct (ReadView.is_open view) eqn:Hopen.
  { (* the view is open already *)
    exists mvcc, view. unfold MVCC.view_open. rewrite Hobj.
    cbn [mbind option_bind]. rewrite Hopen. split_and!; try done.
    destruct Hreg as (_ & _ & Hor). by apply (Hor (MVCC.read_view trx)). }
  destruct (reusable sys trx view) eqn:Hreuse.
  { (* the closed view is reused *)
    assert (ReadView.is_registered view = true) as Hr.
    { unfold reusable in Hreuse.
      by destruct (ReadView.is_registered view). }
    eexists. exists (ReadView.set_open true view).
    unfold MVCC.view_open. rewrite Hobj. cbn [mbind option_bind].
    rewrite Hopen. fold (reusable sys trx view). rewrite Hreuse.
    split; [done|]. cbn [MVCC.objects MVCC.m_views].
    split_and!; try done.
    - by apply registry_wf_reopen.
    - by rewrite lookup_insert_eq.
    - intros elem Hne. by rewrite lookup_insert_ne by done. }
  destruct (view_open_fresh false sys trx mvcc view)
    as (ids & -> & Hwf' & Hc & _); [done..|].
  eexists. eexists. split; [done|]. cbn [MVCC.objects MVCC.m_views].
  split_and!.
  - by apply registry_wf_add_first.
  - by rewrite lookup_insert_eq.
  - done.
  - done.
  - intros elem Hne. by rewrite lookup_insert_ne by done.
  - rewrite filter_cons, decide_False by (intros Hne; by apply Hne).
    apply filter_other_absent, absent_after_remove.
Qed.

Lemma view_open_keeps_registry_witness :
  ∃ mvcc' view',
    MVCC.view_open false false ex_sys ex_trx ex_mvcc = Some (ex_sys, mvcc')
    ∧ registry_wf mvcc'
    ∧ MVCC.objects mvcc' !! 3%nat = Some view'
    ∧ ReadView.is_open view' = true
    ∧ ReadView.is_registered view' = true
    ∧ (∀ elem, elem ≠ 3%nat →
               MVCC.objects mvcc' !! elem = MVCC.objects ex_mvcc !! elem)
    ∧ base.filter (λ e, e ≠ 3%nat) (MVCC.m_views mvcc') = [1; 2]%nat.
Proof.
  apply (view_open_keeps_registry ex_sys ex_trx ex_mvcc ex_view).
  - apply ex_mvcc_wf.
  - reflexivity.
  - split; simpl; lia.
  - reflexivity.
  - unfold ascending. simpl. by apply (bool_decide_unpack _); vm_compute.
  - intros _. reflexivity.
Defined.



(** * Further properties of ft/roll.cc *)

(** ** What the entry functions return *)

(** X13. Every entry function of roll.cc, reached through
    [toku_commit_rollback_item] or [toku_abort_rollback_item], returns 0
    when it returns, also through nested [RollInclude] entries: a failure
    is an assertion failure, never an error code. On return every rollback
    node that was pinned on the way is unpinned again, and the
    spilled-head and spilled-tail pointers of the transaction are as
    before. *)
Theorem rollback_items_return_zero (fuel : nat) (item : roll_entry)
    (oplsn : Z) (st : state) (r : Z) (st' : state) :
  toku_commit_rollback_item fuel item oplsn st = Returned r st'
  ∨ toku_abort_rollback_item fuel item oplsn st = Returned r st' →
  r = 0 ∧ pinned st' = pinned st ∧ same_spilled st st'.
Proof.
  intros [H|H].
  - destruct (commit_item_pins _ _ _ _ _ _ H) as [-> Hp].
    split_and!; [done..|]. by eapply commit_item_same_spilled.
  - destruct (abort_item_pins _ _ _ _ _ _ H) as [-> Hp].
    split_and!; [done..|]. by eapply abort_item_same_spilled.
Qed.

Lemma rollback_items_return_zero_witness :
  ∃ st',
    toku_abort_rollback_item 9 (RollInclude (1, 10) 3 20 22) 0 ex_state
    = Returned 0 st'
    ∧ pinned st' = [5] ∧ same_spilled ex_state st'.
Proof.
  eexists. split; [vm_compute; reflexivity|].
  eapply (rollback_items_return_zero 9 (RollInclude (1, 10) 3 20 22) 0
            ex_state 0).
  right. vm_compute. reflexivity.
Defined.

(** ** The tree of a logged operation *)

Section Insertion.
Implicit Types (st : state) (ft : FT) (filenum oplsn : Z).

Lemma find_zero_absent (fts : list FT) filenum :
  Forall (λ ft, ft_filenum ft ≠ filenum) fts →
  find_zero fts filenum = (DB_NOTFOUND, None).
Proof.
  intros Hall. unfold find_zero.
  destruct (list_find _ fts) as [[i ft]|] eqn:Hfind; [|done].
  apply list_find_Some in Hfind as (Hi & Hz & _).
  rewrite Forall_lookup in Hall. specialize (Hall i ft Hi). simpl in Hall.
  unfold find_ft_from_filenum in Hz. repeat case_bool_decide; (done || lia).
Qed.

Lemma do_insertion_absent type filenum key data oplsn reset st :
  Forall (λ ft, ft_filenum ft ≠ filenum) (open_fts (txn st)) →
  do_insertion type filenum key data oplsn reset st
  = if for_recovery (txn st) then Returned 0 st else Fatal.
Proof.
  intros Hall. unfold do_insertion. rewrite find_zero_absent by done.
  by rewrite bool_decide_eq_true_2.
Qed.

(** [do_insertion] when the message is put. *)
Lemma do_insertion_puts type filenum key data oplsn reset st i ft lg :
  find_zero (open_fts (txn st)) filenum = (0, Some (i, ft)) →
  logger st = Some lg →
  oplsn = 0 ∨ checkpoint_lsn ft < oplsn →
  do_insertion type filenum key data oplsn reset st
  = Returned 0
      (write_ft i
         (let ft' := toku_ft_root_put_msg ft
                       (mk_ft_msg key (default [] data) type ZERO_MSN
                          (xids (txn st)))
                       (gc_info_of lg st) in
          if reset
          then toku_reset_root_xid_that_created ft'
                 (toku_xids_get_outermost_xid (xids (txn st)))
          else ft') st).
Proof.
  intros Hfind Hlg Hguard. unfold do_insertion. rewrite Hfind, Hlg.
  rewrite bool_decide_eq_false_2 by done.
  rewrite (bool_decide_eq_true_2 (0 = 0)) by done. cbn [negb].
  assert (negb (bool_decide (oplsn = 0))
          && bool_decide (oplsn ≤ toku_ft_checkpoint_lsn ft) = false) as ->.
  { unfold toku_ft_checkpoint_lsn. destruct Hguard as [->|Hlt].
    - by rewrite bool_decide_eq_true_2.
    - rewrite (bool_decide_eq_false_2 (oplsn ≤ _)) by lia.
      by rewrite andb_false_r. }
  unfold gc_info_of, toku_txn_get_xids, toku_fill_dbt, toku_init_dbt.
  rewrite firstn_all.
  assert ((if bool_decide (0 < length key)%nat then key else []) = key) as ->.
  { destruct key; [done|]. rewrite bool_decide_eq_true_2; [done|simpl; lia]. }
  assert (match data with
          | Some d => take (length d) d
          | None => []
          end = default [] data) as ->.
  { destruct data; [|done]. simpl. by rewrite firstn_all. }
  done.
Qed.

End Insertion.

(** X14. When no tree of [txn->open_fts] has the file number of a logged
    insert, delete, update or update-broadcast, the entry functions that
    send a message (all but the commit of an insert and of an update,
    which are compiled to do nothing) return 0 without any effect during
    recovery, and fail the assertion on [txn->for_recovery] outside
    it. *)
Theorem closed_tree_tolerated_in_recovery (filenum : Z) (key : list byte)
    (oplsn : Z) (is_resetting_op : bool) (st : state) :
  Forall (λ ft, ft_filenum ft ≠ filenum) (open_fts (txn st)) →
  let tolerated := if for_recovery (txn st) then Returned 0 st else Fatal in
  toku_rollback_cmdinsert filenum key oplsn st = tolerated
  ∧ toku_commit_cmddelete filenum key oplsn st = tolerated
  ∧ toku_rollback_cmddelete filenum key oplsn st = tolerated
  ∧ toku_rollback_cmdupdate filenum key oplsn st = tolerated
  ∧ toku_commit_cmdupdatebroadcast filenum is_resetting_op oplsn st
    = tolerated
  ∧ toku_rollback_cmdupdatebroadcast filenum is_resetting_op oplsn st
    = tolerated
  ∧ toku_commit_cmdinsert filenum key oplsn st = Returned 0 st
  ∧ toku_commit_cmdupdate filenum key oplsn st = Returned 0 st.
Proof.
  intros Hall tolerated.
  unfold toku_commit_cmdinsert, toku_rollback_cmdinsert,
    toku_commit_cmddelete, toku_rollback_cmddelete, toku_commit_cmdupdate,
    toku_rollback_cmdupdate, toku_commit_cmdupdatebroadcast,
    toku_rollback_cmdupdatebroadcast, do_nothing_with_filenum.
  cbn [TOKU_DO_COMMIT_CMD_INSERT TOKU_DO_COMMIT_CMD_DELETE
       TOKU_DO_COMMIT_CMD_UPDATE].
  split_and!; try done; by apply do_insertion_absent.
Qed.

Lemma closed_tree_tolerated_in_recovery_witness :
  toku_rollback_cmdinsert 8 ["k"%byte] 0 ex_state = Fatal
  ∧ toku_commit_cmddelete 8 ["k"%byte] 0 ex_state = Fatal
  ∧ toku_rollback_cmddelete 8 ["k"%byte] 0 ex_state = Fatal
  ∧ toku_rollback_cmdupdate 8 ["k"%byte] 0 ex_state = Fatal
  ∧ toku_commit_cmdupdatebroadcast 8 true 0 ex_state = Fatal
  ∧ toku_rollback_cmdupdatebroadcast 8 true 0 ex_state = Fatal
  ∧ toku_commit_cmdinsert 8 ["k"%byte] 0 ex_state = Returned 0 ex_state
  ∧ toku_commit_cmdupdate 8 ["k"%byte] 0 ex_state = Returned 0 ex_state.
Proof.
  apply (closed_tree_tolerated_in_recovery 8 ["k"%byte] 0 true ex_state).
  by apply (bool_decide_unpack _); vm_compute.
Defined.

(** X15. When the tree is open in the transaction and the recovery guard
    does not apply, the commit of an update-broadcast puts
    [FT_COMMIT_BROADCAST_ALL] at the root of the tree and sets its
    [root_xid_that_created] to the outermost xid of the transaction if
    the operation is a resetting one, and puts [FT_COMMIT_BROADCAST_TXN]
    and leaves [root_xid_that_created] otherwise. The abort puts
    [FT_ABORT_BROADCAST_TXN] and never touches [root_xid_that_created],
    also for a resetting operation. The message has an empty key and an
    empty value. *)
Theorem updatebroadcast_resets_root_xid_on_commit (filenum : Z)
    (is_resetting_op : bool) (oplsn : Z) (st : state) (i : nat) (ft : FT)
    (lg : TOKULOGGER) :
  find_zero (open_fts (txn st)) filenum = (0, Some (i, ft)) →
  logger st = Some lg →
  oplsn = 0 ∨ checkpoint_lsn ft < oplsn →
  ∃ ftc fta,
    toku_commit_cmdupdatebroadcast filenum is_resetting_op oplsn st
    = Returned 0 (write_ft i ftc st)
    ∧ toku_rollback_cmdupdatebroadcast filenum is_resetting_op oplsn st
      = Returned 0 (write_ft i fta st)
    ∧ root_msgs ftc
      = root_msgs ft
        ++ [(key_msg (if is_resetting_op then FT_COMMIT_BROADCAST_ALL
                      else FT_COMMIT_BROADCAST_TXN) [] st,
             gc_info_of lg st)]
    ∧ root_xid_that_created ftc
      = (if is_resetting_op
         then toku_xids_get_outermost_xid (xids (txn st))
         else root_xid_that_created ft)
    ∧ root_msgs fta
      = root_msgs ft ++ [(key_msg FT_ABORT_BROADCAST_TXN [] st,
                          gc_info_of lg st)]
    ∧ root_xid_that_created fta = root_xid_that_created ft.
Proof.
  intros Hfind Hlg Hguard.
  unfold toku_commit_cmdupdatebroadcast, toku_rollback_cmdupdatebroadcast.
  rewrite !(do_insertion_puts _ _ _ _ _ _ _ _ _ _ Hfind Hlg Hguard).
  eexists _, _. split; [done|]. split; [done|].
  by destruct is_resetting_op.
Qed.

Lemma updatebroadcast_resets_root_xid_on_commit_witness :
  ∃ ftc fta,
    toku_commit_cmdupdatebroadcast 7 true 0 ex_state
    = Returned 0 (write_ft 0 ftc ex_state)
    ∧ toku_rollback_cmdupdatebroadcast 7 true 0 ex_state
      = Returned 0 (write_ft 0 fta ex_state)
    ∧ root_msgs ftc
      = [(key_msg FT_COMMIT_BROADCAST_ALL [] ex_state,
          gc_info_of ex_logger ex_state)]
    ∧ root_xid_that_created ftc = 1
    ∧ root_msgs fta
      = [(key_msg FT_ABORT_BROADCAST_TXN [] ex_state,
          gc_info_of ex_logger ex_state)]
    ∧ root_xid_that_created fta = 0.
Proof.
  apply (updatebroadcast_resets_root_xid_on_commit 7 true 0 ex_state 0 ex_ft
           ex_logger).
  - reflexivity.
  - reflexivity.
  - left. reflexivity.
Defined.

(** ** Files of a load *)

Section Files.
Implicit Types (st : state) (lg : TOKULOGGER) (cfs : list CACHEFILE)
  (filenum oplsn lsn : Z) (c : CACHEFILE).

Lemma cachefile_of_filenum_ext cfs cfs' filenum :
  cf_filenum <$> cfs = cf_filenum <$> cfs' →
  toku_cachefile_of_filenum cfs filenum
  = toku_cachefile_of_filenum cfs' filenum.
Proof.
  unfold toku_cachefile_of_filenum.
  assert (∀ cfs cfs', cf_filenum <$> cfs = cf_filenum <$> cfs' →
            fst <$> list_find (λ cf, cf_filenum cf = filenum) cfs
            = fst <$> list_find (λ cf, cf_filenum cf = filenum) cfs') as Hfind.
  { clear. induction cfs as [|c cfs IH]; intros [|c' cfs'] Heq; try done.
    injection Heq as Hc Heq. cbn [list_find]. rewrite <- Hc.
    case_decide; [done|]. specialize (IH cfs' Heq).
    destruct (list_find _ cfs) as [[??]|], (list_find _ cfs') as [[??]|];
      simpl in *; congruence. }
  intros Heq. specialize (Hfind cfs cfs' Heq).
  destruct (list_find _ cfs) as [[??]|], (list_find _ cfs') as [[??]|];
    simpl in *; congruence.
Qed.

Lemma cachefile_of_filenum_marked cfs filenum (cf : nat) c :
  cfs !! cf = Some c →
  toku_cachefile_of_filenum
    (<[cf:=mk_CACHEFILE (cf_filenum c) (fname_in_env c) true]> cfs) filenum
  = toku_cachefile_of_filenum cfs filenum.
Proof.
  intros Hc. apply cachefile_of_filenum_ext.
  rewrite list_fmap_insert. cbn [cf_filenum].
  apply list_insert_id. by rewrite list_lookup_fmap, Hc.
Qed.

Lemma filter_absent (fname : list byte) (names : list (list byte)) :
  fname ∉ names → base.filter (λ f, f ≠ fname) names = names.
Proof.
  induction names as [|f names IH]; [done|].
  intros [Hne Hnotin]%not_elem_of_cons.
  rewrite filter_cons, decide_True by done. by rewrite IH.
Qed.

(** The state after [toku_logger_fsync_if_lsn_not_fsynced]. *)
Lemma fsync_state lsn st lg :
  logger st = Some lg →
  ∃ lg1,
    logger (toku_logger_fsync_if_lsn_not_fsynced lsn st) = Some lg1
    ∧ ct lg1 = ct lg
    ∧ lsn ≤ fsynced_lsn lg1
    ∧ fsynced_lsn lg ≤ fsynced_lsn lg1
    ∧ oldest_referenced_xid_estimate lg1 = oldest_referenced_xid_estimate lg
    ∧ txn (toku_logger_fsync_if_lsn_not_fsynced lsn st) = txn st
    ∧ trace (toku_logger_fsync_if_lsn_not_fsynced lsn st)
      = trace st ++ (if bool_decide (fsynced_lsn lg < lsn)
                     then [EvFsync lsn] else [])
    ∧ files (toku_logger_fsync_if_lsn_not_fsynced lsn st) = files st.
Proof.
  intros Hlg. unfold toku_logger_fsync_if_lsn_not_fsynced. rewrite Hlg.
  case_bool_decide.
  - eexists. split; [done|]. cbn. split_and!; try done; lia.
  - exists lg. rewrite app_nil_r. split_and!; try done; lia.
Qed.

Lemma is_unlink_on_close_lookup (cf : nat) st lg c :
  logger st = Some lg → ct lg !! cf = Some c →
  toku_cachefile_is_unlink_on_close cf st = unlink_on_close c.
Proof.
  intros Hlg Hc. unfold toku_cachefile_is_unlink_on_close.
  by rewrite Hlg, Hc.
Qed.

Lemma unlink_on_close_state (cf : nat) st lg c :
  logger st = Some lg → ct lg !! cf = Some c →
  toku_cachefile_unlink_on_close cf st
  = emit (EvUnlinkOnClose (cf_filenum c))
      (set_logger
         (mk_TOKULOGGER
            (<[cf:=mk_CACHEFILE (cf_filenum c) (fname_in_env c) true]> (ct lg))
            (fsynced_lsn lg) (oldest_referenced_xid_estimate lg)) st).
Proof.
  intros Hlg Hc. unfold toku_cachefile_unlink_on_close. by rewrite Hlg, Hc.
Qed.

End Files.

(** X16. When [toku_commit_load] finds the cachefile of the old file, it
    returns 0 with that cachefile marked unlink-on-close and the log
    fsynced up to [txn->do_fsync_lsn]. The fsync, if one is needed, comes
    before the mark, and a cachefile that is marked already is not marked
    again. Committing the same load a second time changes nothing. *)
Theorem commit_load_marks_once (old_filenum : Z) (new_iname : list byte)
    (oplsn : Z) (st : state) (lg : TOKULOGGER) (cf : nat) (c : CACHEFILE) :
  logger st = Some lg →
  toku_cachefile_of_filenum (ct lg) old_filenum = (0, Some cf) →
  ct lg !! cf = Some c →
  ∃ st' lg',
    toku_commit_load old_filenum new_iname oplsn st = Returned 0 st'
    ∧ trace st'
      = trace st
        ++ (if bool_decide (fsynced_lsn lg < do_fsync_lsn (txn st))
            then [EvFsync (do_fsync_lsn (txn st))] else [])
        ++ (if unlink_on_close c then []
            else [EvUnlinkOnClose (cf_filenum c)])
    ∧ logger st' = Some lg'
    ∧ do_fsync_lsn (txn st) ≤ fsynced_lsn lg'
    ∧ toku_cachefile_is_unlink_on_close cf st' = true
    ∧ toku_commit_load old_filenum new_iname oplsn st' = Returned 0 st'.
Proof.
  intros Hlg Hcf Hc.
  assert (∀ st1 lg1,
    logger st1 = Some lg1 →
    toku_cachefile_of_filenum (ct lg1) old_filenum = (0, Some cf) →
    do_fsync_lsn (txn st1) ≤ fsynced_lsn lg1 →
    toku_cachefile_is_unlink_on_close cf st1 = true →
    toku_commit_load old_filenum new_iname oplsn st1 = Returned 0 st1)
    as Hagain.
  { intros st1 lg1 Hlg1 Hcf1 Hsync Hmarked. unfold toku_commit_load.
    rewrite Hlg1, Hcf1.
    rewrite (bool_decide_eq_false_2 (0 = ENOENT)) by done.
    rewrite (bool_decide_eq_true_2 (0 = 0)) by done. cbn [negb].
    unfold toku_logger_fsync_if_lsn_not_fsynced. rewrite Hlg1.
    rewrite bool_decide_eq_false_2 by lia. by rewrite Hmarked. }
  destruct (fsync_state (do_fsync_lsn (txn st)) st lg Hlg)
    as (lg1 & Hlg1 & Hct1 & Hsync1 & _ & _ & Htxn1 & Htrace1 & _).
  set (st1 := toku_logger_fsync_if_lsn_not_fsynced _ st) in *.
  assert (ct lg1 !! cf = Some c) as Hc1 by by rewrite Hct1.
  assert (toku_commit_load old_filenum new_iname oplsn st
          = Returned 0 (if negb (unlink_on_close c)
                        then toku_cachefile_unlink_on_close cf st1
                        else st1)) as ->.
  { unfold toku_commit_load. rewrite Hlg, Hcf.
    rewrite (bool_decide_eq_false_2 (0 = ENOENT)) by done.
    rewrite (bool_decide_eq_true_2 (0 = 0)) by done. cbn [negb].
    fold st1. by rewrite (is_unlink_on_close_lookup cf st1 lg1 c). }
  destruct (unlink_on_close c) eqn:Hmark; cbn [negb].
  - (* marked already *)
    exists st1, lg1. split; [done|]. rewrite app_nil_r.
    split; [done|]. split; [done|]. split; [done|].
    assert (toku_cachefile_is_unlink_on_close cf st1 = true) as Hm
      by by rewrite (is_unlink_on_close_lookup cf st1 lg1 c).
    split; [done|]. eapply Hagain; [done| |by rewrite Htxn1|done].
    by rewrite Hct1.
  - rewrite (unlink_on_close_state cf st1 lg1 c) by done.
    eexists _, _. split; [done|]. cbn [trace emit set_logger logger].
    split; [by rewrite Htrace1, <- app_assoc|]. split; [done|].
    cbn [fsynced_lsn]. split; [done|].
    match goal with |- toku_cachefile_is_unlink_on_close cf ?s = true ∧ _ =>
      assert (toku_cachefile_is_unlink_on_close cf s = true) as Hm
    end.
    { unfold toku_cachefile_is_unlink_on_close. cbn [logger emit set_logger ct].
      rewrite list_lookup_insert_eq; [done|]. by eapply lookup_lt_Some. }
    split; [done|]. eapply Hagain; [done| |cbn; by rewrite Htxn1|done].
    cbn [ct]. rewrite cachefile_of_filenum_marked by done. by rewrite Hct1.
Qed.

Lemma commit_load_marks_once_witness :
  ∃ st' lg',
    toku_commit_load 9 ["n"%byte] 0 ex_state = Returned 0 st'
    ∧ trace st' = [EvFsync 42; EvUnlinkOnClose 9]
    ∧ logger st' = Some lg'
    ∧ 42 ≤ fsynced_lsn lg'
    ∧ toku_cachefile_is_unlink_on_close 1 st' = true
    ∧ toku_commit_load 9 ["n"%byte] 0 st' = Returned 0 st'.
Proof.
  apply (commit_load_marks_once 9 ["n"%byte] 0 ex_state ex_logger 1
           (mk_CACHEFILE 9 ["g"%byte] false)); reflexivity.
Defined.

(** X17. [toku_rollback_load], with a logger and a name of at least one
    byte, works on the name as a C string, which ends at its first NUL.
    When the cachetable has a cachefile of that name, the cachefile is
    marked unlink-on-close, no file is removed and 0 is returned.
    Otherwise the file of that name is unlinked: 0 is returned when the
    unlink succeeds, which removes the file, and when it fails with
    [ENOENT]; when it fails with any other [errno] the assertion fails.
    Whenever the function returns, it returns 0 without having fsynced
    the log, unlike the commit of a load: the fsynced LSN and the
    transaction are as before, and no file has appeared. *)
Theorem rollback_load_removes_new_file (old_filenum : Z)
    (new_iname : list byte) (oplsn : Z) (st : state) (lg : TOKULOGGER) :
  logger st = Some lg →
  new_iname ≠ [] →
  toku_rollback_load old_filenum new_iname oplsn st
  = match toku_cachefile_of_iname_in_env (ct lg) (c_string new_iname) with
    | (_, Some cf) => Returned 0 (toku_cachefile_unlink_on_close cf st)
    | (_, None) =>
        match unlink_refused (c_string new_iname) st with
        | Some errno =>
            if bool_decide (errno = ENOENT) then Returned 0 st else Fatal
        | None =>
            Returned 0
              (if bool_decide (c_string new_iname ∈ files st)
               then emit (EvUnlink (c_string new_iname))
                      (set_files
                         (base.filter (λ f, f ≠ c_string new_iname)
                            (files st)) st)
               else st)
        end
    end
  ∧ (∀ cf, toku_cachefile_of_iname_in_env (ct lg) (c_string new_iname)
           = (0, Some cf) →
           toku_cachefile_is_unlink_on_close cf
             (toku_cachefile_unlink_on_close cf st) = true
           ∧ files (toku_cachefile_unlink_on_close cf st) = files st)
  ∧ (∀ r st',
       toku_rollback_load old_filenum new_iname oplsn st = Returned r st' →
       r = 0
       ∧ txn st' = txn st
       ∧ (∃ lg', logger st' = Some lg'
                 ∧ fsynced_lsn lg' = fsynced_lsn lg)
       ∧ (∀ f, f ∈ files st' → f ∈ files st)).
Proof.
  intros Hlg Hname.
  assert (fixup_fname new_iname = Some (c_string new_iname)) as Hfix.
  { unfold fixup_fname. rewrite bool_decide_eq_true_2; [done|].
    destruct new_iname; [done|simpl; lia]. }
  assert (toku_rollback_load old_filenum new_iname oplsn st
          = match toku_cachefile_of_iname_in_env (ct lg)
                    (c_string new_iname) with
            | (_, Some cf) => Returned 0 (toku_cachefile_unlink_on_close cf st)
            | (_, None) =>
                match unlink_refused (c_string new_iname) st with
                | Some errno =>
                    if bool_decide (errno = ENOENT) then Returned 0 st
                    else Fatal
                | None =>
                    Returned 0
                      (if bool_decide (c_string new_iname ∈ files st)
                       then emit (EvUnlink (c_string new_iname))
                              (set_files
                                 (base.filter (λ f, f ≠ c_string new_iname)
                                    (files st)) st)
                       else st)
                end
            end) as Hrun.
  { unfold toku_rollback_load, toku_cachefile_of_iname_in_env.
    rewrite Hlg, Hfix.
    destruct (list_find _ (ct lg)) as [[cf c]|]; [done|].
    rewrite (bool_decide_eq_true_2 (ENOENT = ENOENT)) by done.
    unfold unlink. destruct (unlink_refused _ st) as [errno|].
    - rewrite (bool_decide_eq_false_2 (-1 = 0)) by done. cbn [orb].
      by case_bool_decide.
    - case_bool_decide; [done|].
      rewrite (bool_decide_eq_true_2 (ENOENT = ENOENT)) by done.
      by rewrite orb_true_r. }
  split; [exact Hrun|]. split.
  - intros cf Hcf. unfold toku_cachefile_of_iname_in_env in Hcf.
    destruct (list_find _ (ct lg)) as [[cf' c]|] eqn:Hfind; [|done].
    injection Hcf as <-. apply list_find_Some in Hfind as (Hc & _ & _).
    rewrite (unlink_on_close_state cf' st lg c) by done.
    split; [|done]. unfold toku_cachefile_is_unlink_on_close.
    cbn [logger emit set_logger ct].
    rewrite list_lookup_insert_eq; [done|]. by eapply lookup_lt_Some.
  - intros r st'. rewrite Hrun.
    destruct (toku_cachefile_of_iname_in_env _ _) as [r0 [cf|]].
    + intros [= <- <-]. unfold toku_cachefile_unlink_on_close. rewrite Hlg.
      destruct (ct lg !! cf); [|by eauto 10]. cbn. by eauto 10.
    + destruct (unlink_refused _ st) as [errno|].
      * case_bool_decide; [|done]. intros [= <- <-]. by eauto 10.
      * intros [= <- <-]. case_bool_decide; cbn; [|by eauto 10].
        split_and!; [done|done|by eauto|].
        by intros f [_ Hf]%list_elem_of_filter.
Qed.

Lemma rollback_load_removes_new_file_witness :
  toku_rollback_load 7 ["n"%byte; x00; "g"%byte] 0
    (mk_state ex_txn (Some ex_logger) ex_logs [5] [["n"%byte]] []
       [(["d"%byte], 21)])
  = Returned 0
      (mk_state ex_txn (Some ex_logger) ex_logs [5] [] [EvUnlink ["n"%byte]]
         [(["d"%byte], 21)])
  ∧ toku_rollback_load 7 ["d"%byte] 0
      (mk_state ex_txn (Some ex_logger) ex_logs [5] [["n"%byte]] []
         [(["d"%byte], 21)])
    = Fatal
  ∧ toku_rollback_load 7 ["a"%byte] 0
      (mk_state ex_txn (Some ex_logger) ex_logs [5] [["n"%byte]] []
         [(["d"%byte], 21)])
    = Returned 0
        (mk_state ex_txn (Some ex_logger) ex_logs [5] [["n"%byte]] []
           [(["d"%byte], 21)]).
Proof.
  split_and!.
  - destruct (rollback_load_removes_new_file 7 ["n"%byte; x00; "g"%byte] 0
                (mk_state ex_txn (Some ex_logger) ex_logs [5] [["n"%byte]] []
                   [(["d"%byte], 21)]) ex_logger) as [Hrun _];
      [reflexivity|done|].
    rewrite Hrun. reflexivity.
  - destruct (rollback_load_removes_new_file 7 ["d"%byte] 0
                (mk_state ex_txn (Some ex_logger) ex_logs [5] [["n"%byte]] []
                   [(["d"%byte], 21)]) ex_logger) as [Hrun _];
      [reflexivity|done|].
    rewrite Hrun. reflexivity.
  - destruct (rollback_load_removes_new_file 7 ["a"%byte] 0
                (mk_state ex_txn (Some ex_logger) ex_logs [5] [["n"%byte]] []
                   [(["d"%byte], 21)]) ex_logger) as [Hrun _];
      [reflexivity|done|].
    rewrite Hrun. reflexivity.
Defined.

(** X18. When the cachefile of [filenum] is in the cachetable,
    [toku_rollback_change_fdescriptor] returns 0 after giving the tree of
    that file number its old descriptor back, and changes nothing else of
    the tree or of the state. If the tree is not open in the transaction
    the assertion fails, during recovery too. The commit of a descriptor
    change does nothing. *)
Theorem rollback_change_fdescriptor_restores (filenum : Z)
    (old_descriptor : list byte) (oplsn : Z) (st : state) (lg : TOKULOGGER)
    (cf : nat) :
  logger st = Some lg →
  toku_cachefile_of_filenum (ct lg) filenum = (0, Some cf) →
  (∀ i ft, find_zero (open_fts (txn st)) filenum = (0, Some (i, ft)) →
           toku_rollback_change_fdescriptor filenum old_descriptor oplsn st
           = Returned 0
               (write_ft i
                  (mk_FT (ft_filenum ft) (checkpoint_lsn ft) (root_msgs ft)
                     (root_xid_that_created ft) old_descriptor) st))
  ∧ (Forall (λ ft, ft_filenum ft ≠ filenum) (open_fts (txn st)) →
     toku_rollback_change_fdescriptor filenum old_descriptor oplsn st
     = Fatal)
  ∧ toku_commit_change_fdescriptor filenum old_descriptor oplsn st
    = Returned 0 st.
Proof.
  intros Hlg Hcf. unfold toku_rollback_change_fdescriptor. rewrite Hlg, Hcf.
  rewrite (bool_decide_eq_false_2 (0 = ENOENT)) by done.
  rewrite (bool_decide_eq_true_2 (0 = 0)) by done. cbn [negb].
  split_and!; [| |done].
  - intros i ft ->. rewrite (bool_decide_eq_true_2 (0 = 0)) by done.
    cbn [negb]. unfold toku_ft_update_descriptor, toku_fill_dbt.
    by rewrite firstn_all.
  - intros Hall. rewrite find_zero_absent by done.
    by rewrite bool_decide_eq_false_2.
Qed.

Lemma rollback_change_fdescriptor_restores_witness :
  toku_rollback_change_fdescriptor 7 ["d"%byte] 0 ex_state
  = Returned 0 (write_ft 0 (mk_FT 7 150 [] 0 ["d"%byte]) ex_state).
Proof.
  destruct (rollback_change_fdescriptor_restores 7 ["d"%byte] 0 ex_state
              ex_logger 0) as [Hrestore _]; [reflexivity..|].
  apply (Hrestore 0%nat ex_ft). reflexivity.
Defined.

(** ** What the entry functions keep *)

Section Advances.
Implicit Types (st : state) (ft : FT) (c : CACHEFILE) (lg : TOKULOGGER).

Lemma tree_grows_refl ft : tree_grows ft ft.
Proof. by split_and!. Qed.

Lemma tree_grows_trans ft1 ft2 ft3 :
  tree_grows ft1 ft2 → tree_grows ft2 ft3 → tree_grows ft1 ft3.
Proof.
  intros (? & ? & ?) (? & ? & ?). split_and!; [congruence..|by etrans].
Qed.

Lemma cachefile_kept_refl c : cachefile_kept c c.
Proof. by split_and!. Qed.

Lemma cachefile_kept_trans c1 c2 c3 :
  cachefile_kept c1 c2 → cachefile_kept c2 c3 → cachefile_kept c1 c3.
Proof. intros (? & ? & ?) (? & ? & ?). split_and!; [congruence..|auto]. Qed.

#[local] Instance tree_grows_po : PreOrder tree_grows.
Proof. split; [exact tree_grows_refl|exact tree_grows_trans]. Qed.

#[local] Instance cachefile_kept_po : PreOrder cachefile_kept.
Proof. split; [exact cachefile_kept_refl|exact cachefile_kept_trans]. Qed.

Lemma logger_advances_refl lg : logger_advances lg lg.
Proof. by split_and!. Qed.

Lemma logger_advances_trans lg1 lg2 lg3 :
  logger_advances lg1 lg2 → logger_advances lg2 lg3 → logger_advances lg1 lg3.
Proof.
  intros (? & ? & ?) (? & ? & ?). split_and!; [by etrans|lia|congruence].
Qed.

Lemma advances_refl st : advances st st.
Proof.
  split_and!; try done.
  destruct (logger st); constructor. apply logger_advances_refl.
Qed.

Lemma advances_trans st1 st2 st3 :
  advances st1 st2 → advances st2 st3 → advances st1 st3.
Proof.
  intros (? & ? & ? & ? & Hl12 & ? & ?) (? & ? & ? & ? & Hl23 & ? & ?).
  split_and!; [congruence..|by etrans| |auto|by etrans].
  destruct Hl12 as [lg1 lg2 H12|]; inversion Hl23 as [? lg3 H23|]; subst;
    constructor. by eapply logger_advances_trans.
Qed.

Lemma advances_set_logs m st : advances st (set_logs m st).
Proof. exact (advances_refl st). Qed.

Lemma advances_set_pinned p st : advances st (set_pinned p st).
Proof. exact (advances_refl st). Qed.

Lemma advances_emit e st : advances st (emit e st).
Proof.
  destruct (advances_refl st) as (? & ? & ? & ? & ? & ? & _).
  split_and!; try done. by apply prefix_app_r.
Qed.

Lemma advances_prefetch log st :
  advances st (toku_maybe_prefetch_previous_rollback_log log st).
Proof.
  unfold toku_maybe_prefetch_previous_rollback_log.
  case_bool_decide; [apply advances_refl|apply advances_emit].
Qed.

Lemma Forall2_update {A} (R : relation A) `{!Reflexive R} (l : list A) i x y :
  l !! i = Some x → R x y → Forall2 R l (<[i:=y]> l).
Proof.
  intros Hi Hxy. rewrite <- (list_insert_id l i x) at 1 by done.
  by apply Forall2_insert.
Qed.

Lemma advances_write_ft i ft ft' st :
  open_fts (txn st) !! i = Some ft → tree_grows ft ft' →
  advances st (write_ft i ft' st).
Proof.
  intros Hi Hg. destruct (advances_refl st) as (? & ? & ? & _ & ? & ? & ?).
  split_and!; try done. cbn. by eapply Forall2_update.
Qed.

Lemma advances_fsync lsn st :
  advances st (toku_logger_fsync_if_lsn_not_fsynced lsn st).
Proof.
  unfold toku_logger_fsync_if_lsn_not_fsynced.
  destruct (logger st) as [lg|] eqn:Hlg; [|apply advances_refl].
  case_bool_decide; [|apply advances_refl].
  split_and!; try done; cbn.
  - rewrite Hlg. constructor. split_and!; cbn; [done|lia|done].
  - by apply prefix_app_r.
Qed.

Lemma advances_unlink_on_close (cf : nat) st :
  advances st (toku_cachefile_unlink_on_close cf st).
Proof.
  unfold toku_cachefile_unlink_on_close.
  destruct (logger st) as [lg|] eqn:Hlg; [|apply advances_refl].
  destruct (ct lg !! cf) as [c|] eqn:Hc; [|apply advances_refl].
  split_and!; try done; cbn.
  - rewrite Hlg. constructor. split_and!; cbn; [|done..].
    apply (Forall2_update cachefile_kept _ cf c); [done|]. by split_and!.
  - by apply prefix_app_r.
Qed.

Lemma advances_unlink fname st r errno st' :
  unlink fname st = (r, errno, st') → advances st st'.
Proof.
  unfold unlink.
  destruct (unlink_refused fname st); [intros [= _ _ <-]; apply advances_refl|].
  case_bool_decide; intros [= _ _ <-]; [|apply advances_refl].
  destruct (advances_refl st) as (? & ? & ? & ? & ? & _ & _).
  split_and!; try done; cbn.
  - by intros f [_ Hf]%list_elem_of_filter.
  - by apply prefix_app_r.
Qed.

Lemma find_zero_lookup (fts : list FT) filenum r i ft :
  find_zero fts filenum = (r, Some (i, ft)) →
  fts !! i = Some ft ∧ ft_filenum ft = filenum.
Proof.
  unfold find_zero.
  destruct (list_find _ fts) as [[j ft']|] eqn:Hfind; [|done].
  intros [= _ <- <-]. apply list_find_Some in Hfind as (Hi & Hz & _).
  split; [done|]. unfold find_ft_from_filenum in Hz.
  repeat case_bool_decide; (done || lia).
Qed.

Lemma do_insertion_advances type filenum key data oplsn reset st r st' :
  do_insertion type filenum key data oplsn reset st = Returned r st' →
  advances st st'.
Proof.
  unfold do_insertion.
  destruct (find_zero _ _) as [r0 [[i ft]|]] eqn:Hfind.
  - apply find_zero_lookup in Hfind as [Hi _]. intros H.
    repeat case_match; try done; injection H as _ <-;
      try apply advances_refl; apply advances_write_ft with ft; try done;
      (split_and!; [done..|]); cbn; by apply prefix_app_r.
  - intros H. repeat case_match; try done; injection H as _ <-;
      apply advances_refl.
Qed.

(** The walker keeps what its entry function keeps. *)
Variable func : roll_entry → Z → state → outcome Z.
Hypothesis func_advances : ∀ item oplsn st r st',
  func item oplsn st = Returned r st' → advances st st'.

Lemma apply_items_advances fuel blocknum oplsn : ∀ st r st',
  apply_items func fuel blocknum oplsn st = Returned r st' →
  advances st st'.
Proof.
  induction fuel as [|fuel IH]; intros st r st'; [done|].
  cbn [apply_items]. destruct (logs st !! blocknum) as [log|]; [|done].
  destruct (newest_logentry log) as [|item prev];
    [intros [= _ <-]; apply advances_refl|].
  destruct (func _ _ _) as [r1 st1| |] eqn:Hfunc; [|done..].
  apply func_advances in Hfunc.
  assert (advances st st1) as Hst1
    by (eapply advances_trans; [apply advances_set_logs|done]).
  case_bool_decide as Hr; cbn [negb]; [|by intros [= _ <-]].
  intros Hrec%IH. by eapply advances_trans.
Qed.

Lemma apply_nodes_advances fuel xid : ∀ l oplsn st r l' st',
  apply_nodes func fuel xid l oplsn st = Returned (r, l') st' →
  advances st st'.
Proof.
  induction fuel as [|fuel IH]; intros l oplsn st r l' st'; [done|].
  cbn [apply_nodes]. case_bool_decide as Hnone;
    [intros [= _ _ <-]; apply advances_refl|].
  unfold toku_get_and_pin_rollback_log.
  destruct (logs st !! next_log l) as [log|]; [|done].
  cbn [mbind option_bind].
  destruct (negb (toku_rollback_verify_contents _ _ _)); [done|].
  cbn [next_log spilled_head_arg found_head last_sequence].
  destruct (apply_items _ _ _ _ _) as [r2 st2| |] eqn:Hitems; [|done..].
  apply apply_items_advances in Hitems.
  assert (advances st st2) as Hst2.
  { eapply advances_trans; [|done].
    eapply advances_trans; [apply (advances_set_pinned (next_log l :: pinned st))|].
    apply advances_prefetch. }
  case_bool_decide as Hr; cbn [negb]; [|by intros [= _ _ <-]].
  destruct (logs st2 !! next_log l) as [log2|]; [|done].
  destruct (_ && _); [done|]. destruct (_ && _); [done|].
  intros Hrec%IH. eapply advances_trans; [done|].
  eapply advances_trans; [|done].
  exact (advances_refl st2).
Qed.

Lemma apply_rollinclude_advances fuel xid num_nodes spilled_head spilled_tail
    oplsn st r st' :
  toku_apply_rollinclude func fuel xid num_nodes spilled_head spilled_tail
    oplsn st = Returned r st' →
  advances st st'.
Proof.
  unfold toku_apply_rollinclude. case_bool_decide; [done|].
  destruct (apply_nodes _ _ _ _ _ _) as [[r1 l1] st1| |] eqn:Hnodes; [|done..].
  intros [= _ <-]. by eapply apply_nodes_advances.
Qed.

End Advances.

Ltac advances_done :=
  repeat case_match;
  first [ apply advances_refl
        | apply advances_unlink_on_close
        | apply advances_fsync
        | apply advances_emit
        | by eapply advances_unlink
        | eapply advances_trans;
          [apply advances_fsync|apply advances_unlink_on_close] ].

Lemma commit_item_advances fuel : ∀ item oplsn st r st',
  toku_commit_rollback_item fuel item oplsn st = Returned r st' →
  advances st st'.
Proof.
  induction fuel as [|fuel IH]; intros item oplsn st r st'; [done|].
  destruct item; cbn [toku_commit_rollback_item];
    unfold toku_commit_cmdinsert, toku_commit_cmddelete,
      toku_commit_cmdupdate, toku_commit_cmdupdatebroadcast,
      toku_commit_rollinclude, toku_commit_fcreate,
      toku_commit_fdelete, toku_commit_load, toku_commit_hot_index,
      toku_commit_dictionary_redirect, toku_commit_change_fdescriptor,
      do_nothing_with_filenum;
    cbn [TOKU_DO_COMMIT_CMD_INSERT TOKU_DO_COMMIT_CMD_DELETE
         TOKU_DO_COMMIT_CMD_UPDATE];
    intros H;
    first [ by eapply do_insertion_advances
          | by eapply apply_rollinclude_advances
          | entry_cases; advances_done ].
Qed.

Lemma abort_item_advances fuel : ∀ item oplsn st r st',
  toku_abort_rollback_item fuel item oplsn st = Returned r st' →
  advances st st'.
Proof.
  induction fuel as [|fuel IH]; intros item oplsn st r st'; [done|].
  destruct item; cbn [toku_abort_rollback_item];
    unfold toku_rollback_cmdinsert, toku_rollback_cmddelete,
      toku_rollback_cmdupdate, toku_rollback_cmdupdatebroadcast,
      toku_rollback_rollinclude, toku_rollback_fcreate, toku_rollback_fdelete,
      toku_rollback_load, toku_rollback_hot_index,
      toku_rollback_dictionary_redirect, toku_dictionary_redirect_abort;
    intros H;
    first [ by eapply do_insertion_advances
          | by eapply apply_rollinclude_advances
          | entry_cases; advances_done
          | idtac ].
  (* the descriptor of a tree is not part of what is kept *)
  unfold toku_rollback_change_fdescriptor in H.
  destruct (logger st) as [lg|]; [|done].
  destruct (toku_cachefile_of_filenum _ _) as [r1 cf].
  destruct (find_zero _ _) as [r0 [[i ft]|]] eqn:Hfind.
  - apply find_zero_lookup in Hfind as [Hi _].
    repeat case_match; try done; injection H as _ <-;
      try apply advances_refl. apply advances_write_ft with ft; [done|].
    by split_and!.
  - repeat case_match; try done; injection H as _ <-; apply advances_refl.
Qed.

(** X19. Whatever entry is committed or aborted, also through nested
    [RollInclude] entries, the entry functions of roll.cc only add: on
    return the transaction has its flags and xids, its open trees are the
    same trees with the same file numbers and checkpoint LSNs and with
    their old messages followed by the new ones; the cachetable has the
    same cachefiles and no unlink-on-close mark is cleared; the log is
    fsynced no less far; no file has appeared; and the events recorded so
    far are a prefix of the events recorded. *)
Theorem rollback_items_only_add (fuel : nat) (item : roll_entry)
    (oplsn : Z) (st : state) (r : Z) (st' : state) :
  toku_commit_rollback_item fuel item oplsn st = Returned r st'
  ∨ toku_abort_rollback_item fuel item oplsn st = Returned r st' →
  advances st st'.
Proof.
  intros [H|H];
    [by eapply commit_item_advances|by eapply abort_item_advances].
Qed.

Lemma rollback_items_only_add_witness :
  ∃ st',
    toku_abort_rollback_item 9 (RollInclude (1, 10) 3 20 22) 0 ex_state
    = Returned 0 st'
    ∧ advances ex_state st'.
Proof.
  eexists. split; [vm_compute; reflexivity|].
  eapply (rollback_items_only_add 9 (RollInclude (1, 10) 3 20 22) 0
            ex_state 0).
  right. vm_compute. reflexivity.
Defined.

(** ** The walker on a chain *)

Section WalkerRuns.
Variable func : roll_entry → Z → state → outcome Z.
Variable oplsn : Z.
Implicit Types (st : state) (m : gmap Z ROLLBACK_LOG_NODE) (p : list Z)
  (log : ROLLBACK_LOG_NODE) (chain : list (Z * ROLLBACK_LOG_NODE)).

Lemma state_storage st : set_pinned (pinned st) (set_logs (logs st) st) = st.
Proof. by destruct st. Qed.

Lemma prefetch_storage log m p st :
  toku_maybe_prefetch_previous_rollback_log log (set_pinned p (set_logs m st))
  = set_pinned p
      (set_logs m (toku_maybe_prefetch_previous_rollback_log log st)).
Proof.
  unfold toku_maybe_prefetch_previous_rollback_log. by case_bool_decide.
Qed.

Lemma foldr_delete_comm (b : Z) (bs : list Z) m :
  foldr delete (delete b m) bs = delete b (foldr delete m bs).
Proof.
  induction bs as [|b' bs IH]; [done|]. simpl.
  by rewrite IH, delete_delete.
Qed.

Lemma chain_from_delete m xid spilled_head (b : Z) chain :
  ∀ last_sequence blocknum,
    b ∉ chain.*1 →
    chain_from m xid spilled_head last_sequence blocknum chain →
    chain_from (delete b m) xid spilled_head last_sequence blocknum chain.
Proof.
  induction chain as [|[b' log] chain IH]; intros last_sequence blocknum;
    [done|].
  cbn [fmap list_fmap fst chain_from].
  intros [Hne Hnotin]%not_elem_of_cons (-> & ? & ? & ? & ? & ? & Hrest).
  split_and!; try done.
  - by rewrite lookup_delete_ne.
  - by apply IH.
Qed.

(** The inner loop on the node of a block applies the entries of the node
    as [run_items] does, and leaves in the storage what it has not
    applied. *)
Lemma apply_items_run items : ∀ fuel log m p st blocknum,
  m !! blocknum = Some log →
  newest_logentry log = items →
  Forall (ignores_storage func) items →
  (length items < fuel)%nat →
  match run_items func oplsn items st with
  | Returned r st1 =>
      ∃ rest,
        apply_items func fuel blocknum oplsn (set_pinned p (set_logs m st))
        = Returned r
            (set_pinned p
               (set_logs
                  (<[blocknum:=mk_ROLLBACK_LOG_NODE (txnid log) (sequence log)
                                 (previous log) rest]> m) st1))
        ∧ (r = 0 → rest = [])
  | Fatal =>
      apply_items func fuel blocknum oplsn (set_pinned p (set_logs m st))
      = Fatal
  | OutOfFuel =>
      apply_items func fuel blocknum oplsn (set_pinned p (set_logs m st))
      = OutOfFuel
  end.
Proof.
  induction items as [|item prev IH];
    intros fuel log m p st blocknum Hm Hitems Hframe Hfuel;
    (destruct fuel as [|fuel]; [simpl in Hfuel; lia|]);
    cbn [apply_items run_items logs set_pinned set_logs];
    rewrite Hm, Hitems.
  - exists []. split; [|done]. do 3 f_equal. symmetry. apply insert_id.
    rewrite Hm. f_equal. destruct log. simpl in Hitems. by subst.
  - apply Forall_cons in Hframe as [Hitem Hprev].
    set (log' := mk_ROLLBACK_LOG_NODE (txnid log) (sequence log)
                   (previous log) prev).
    change (set_logs (<[blocknum:=log']> m) (set_pinned p (set_logs m st)))
      with (set_pinned p (set_logs (<[blocknum:=log']> m) st)).
    rewrite (Hitem oplsn st (<[blocknum:=log']> m) p).
    destruct (func item oplsn st) as [r st1| |]; cbn [with_storage]; [|done..].
    case_bool_decide as Hr; cbn [negb].
    + specialize (IH fuel log' (<[blocknum:=log']> m) p st1 blocknum).
      rewrite lookup_insert_eq in IH.
      specialize (IH eq_refl eq_refl Hprev).
      assert (length prev < fuel)%nat as Hlt by (simpl in Hfuel; lia).
      specialize (IH Hlt).
      destruct (run_items func oplsn prev st1) as [r2 st2| |]; [|done..].
      destruct IH as (rest & -> & Hrest). exists rest. split; [|done].
      by rewrite insert_insert_eq.
    + exists prev. split; [done|]. by intros ->.
Qed.

End WalkerRuns.

Section WalkerChain.
Variable func : roll_entry → Z → state → outcome Z.
Variable oplsn : Z.
Variable xid : Z * Z.
Variable spilled_head : Z.
Implicit Types (st : state) (m : gmap Z ROLLBACK_LOG_NODE) (p : list Z)
  (log : ROLLBACK_LOG_NODE) (chain : list (Z * ROLLBACK_LOG_NODE))
  (l : locals).

Lemma apply_nodes_run chain : ∀ fuel l m p st,
  chain_from m xid spilled_head (last_sequence l) (next_log l) chain →
  NoDup chain.*1 →
  (chain ≠ [] → found_head l = false ∧ spilled_head_arg l = spilled_head) →
  Forall (ignores_storage func) (entries_of chain) →
  (length chain + length (entries_of chain) + 2 ≤ fuel)%nat →
  match run_nodes func oplsn chain.*2 st with
  | Returned r st1 =>
      if bool_decide (r = 0)
      then
        ∃ l',
          apply_nodes func fuel xid l oplsn (set_pinned p (set_logs m st))
          = Returned (0, l')
              (set_pinned p (set_logs (foldr delete m chain.*1) st1))
      else
        ∃ l' b log m',
          apply_nodes func fuel xid l oplsn (set_pinned p (set_logs m st))
          = Returned (r, l') (set_pinned (b :: p) (set_logs m' st1))
          ∧ b ∈ chain.*1 ∧ m' !! b = Some log
  | Fatal =>
      apply_nodes func fuel xid l oplsn (set_pinned p (set_logs m st)) = Fatal
  | OutOfFuel =>
      apply_nodes func fuel xid l oplsn (set_pinned p (set_logs m st))
      = OutOfFuel
  end.
Proof.
  induction chain as [|[b log] chain IH];
    intros fuel l m p st Hchain Hnd Hl Hframe Hfuel;
    (destruct fuel as [|fuel]; [lia|]).
  { cbn [chain_from] in Hchain. cbn [apply_nodes run_nodes fmap list_fmap].
    rewrite bool_decide_eq_true_2 by done.
    rewrite bool_decide_eq_true_2 by done. by exists l. }
  destruct Hchain as (Hb & Hnone & Hm & Hx & Hseq & Hhead & Hrest).
  destruct (Hl ltac:(done)) as [Hfound Harg].
  cbn [fmap list_fmap fst snd] in *.
  apply NoDup_cons in Hnd as [Hnotin Hnd].
  unfold entries_of in Hframe, Hfuel. cbn [fmap list_fmap snd concat] in *.
  apply Forall_app in Hframe as [Hframe1 Hframe2].
  rewrite length_app in Hfuel. cbn [length] in Hfuel.
  set (A := apply_nodes func (S fuel) xid l oplsn
              (set_pinned p (set_logs m st))).
  set (l1 := mk_locals b (sequence log) false spilled_head
               (spilled_tail_arg l)).
  assert (A = match apply_items func fuel b oplsn
                      (set_pinned (b :: p)
                         (set_logs m
                            (toku_maybe_prefetch_previous_rollback_log log
                               st))) with
              | Returned r st2 =>
                  if negb (bool_decide (r = 0)) then Returned (r, l1) st2
                  else
                    match logs st2 !! b with
                    | None => Fatal
                    | Some log2 =>
                        if bool_decide (b = spilled_head)
                           && negb (bool_decide (sequence log2 = 0))
                        then Fatal
                        else if bool_decide (b = spilled_head)
                                && negb (bool_decide
                                           (previous log2 = ROLLBACK_NONE))
                        then Fatal
                        else
                          apply_nodes func fuel xid
                            (mk_locals (previous log2) (sequence log)
                               (bool_decide (b = spilled_head))
                               (if bool_decide (b = spilled_head)
                                then previous log2 else spilled_head)
                               (previous log2))
                            oplsn (toku_rollback_log_unpin_and_remove b st2)
                    end
              | Fatal => Fatal
              | OutOfFuel => OutOfFuel
              end) as HA.
  { subst A. cbn [apply_nodes]. rewrite bool_decide_eq_false_2 by done.
    unfold toku_get_and_pin_rollback_log. cbn [logs set_pinned set_logs].
    rewrite <- Hb, Hm. cbn [mbind option_bind].
    unfold toku_rollback_verify_contents.
    rewrite !bool_decide_eq_true_2 by done. cbn [andb negb].
    cbn [next_log last_sequence found_head spilled_head_arg].
    rewrite Hfound, Harg. cbn [orb].
    change (set_pinned (b :: pinned (set_pinned p (set_logs m st)))
              (set_pinned p (set_logs m st)))
      with (set_pinned (b :: p) (set_logs m st)).
    rewrite prefetch_storage.
    destruct (apply_items _ _ _ _ _) as [r2 st2| |]; [|done..].
    destruct (negb (bool_decide (r2 = 0))); [done|].
    destruct (logs st2 !! b) as [log2|]; [|done].
    by destruct (bool_decide (b = spilled_head)). }
  clearbody A.
  assert (length (newest_logentry log) < fuel)%nat as Hlt by lia.
  pose proof (apply_items_run func oplsn (newest_logentry log) fuel log m
                (b :: p) (toku_maybe_prefetch_previous_rollback_log log st)
                b Hm eq_refl Hframe1 Hlt) as Hitems.
  cbn [run_nodes].
  destruct (run_items func oplsn (newest_logentry log) _) as [r st1| |];
    [|by rewrite HA, Hitems..].
  destruct Hitems as (rest & Hai & Hnil). rewrite Hai in HA. clear Hai.
  case_bool_decide as Hr; cbn [negb] in *.
  - (* the entries of the node are done *)
    subst r. rewrite (Hnil eq_refl) in HA. clear Hnil rest.
    cbn [logs set_pinned set_logs] in HA. rewrite lookup_insert_eq in HA.
    cbn [sequence previous] in HA.
    assert (bool_decide (b = spilled_head)
            && negb (bool_decide (sequence log = 0)) = false) as Hc1.
    { case_bool_decide as Hat; [|done]. destruct (Hhead Hat) as [Hz _].
      by rewrite bool_decide_eq_true_2. }
    assert (bool_decide (b = spilled_head)
            && negb (bool_decide (previous log = ROLLBACK_NONE)) = false)
      as Hc2.
    { case_bool_decide as Hat; [|done]. destruct (Hhead Hat) as [_ Hp].
      by rewrite bool_decide_eq_true_2. }
    rewrite Hc1, Hc2 in HA. clear Hc1 Hc2.
    assert (toku_rollback_log_unpin_and_remove b
              (set_pinned (b :: p)
                 (set_logs
                    (<[b:=mk_ROLLBACK_LOG_NODE (txnid log) (sequence log)
                            (previous log) []]> m) st1))
            = set_pinned p (set_logs (delete b m) st1)) as Hunpin.
    { unfold toku_rollback_log_unpin_and_remove.
      cbn [logs pinned set_pinned set_logs].
      by rewrite delete_insert_eq, remove_pin_head. }
    rewrite Hunpin in HA. clear Hunpin.
    set (l2 := mk_locals _ _ _ _ _) in HA.
    specialize (IH fuel l2 (delete b m) p st1).
    assert (chain ≠ [] →
            found_head l2 = false ∧ spilled_head_arg l2 = spilled_head)
      as Hl2.
    { intros Hne. cbn [l2 found_head spilled_head_arg].
      case_bool_decide as Hat; [|done]. destruct (Hhead Hat) as [_ Hp].
      rewrite Hp in Hrest. destruct chain as [|[b' log'] chain']; [done|].
      by destruct Hrest as (_ & Hcontra & _). }
    specialize (IH (chain_from_delete _ _ _ _ _ _ _ Hnotin Hrest) Hnd Hl2
                  Hframe2).
    assert (length chain + length (entries_of chain) + 2 ≤ fuel)%nat as Hfuel2
      by (unfold entries_of; lia).
    specialize (IH Hfuel2).
    destruct (run_nodes func oplsn chain.*2 st1) as [r st2| |];
      [|by rewrite HA..].
    case_bool_decide as Hr2.
    + destruct IH as (l' & IH). exists l'. rewrite HA, IH.
      cbn [foldr]. by rewrite foldr_delete_comm.
    + destruct IH as (l' & b' & log' & m' & IH & Hin & Hm').
      exists l', b', log', m'. rewrite HA, IH. split_and!; [done| |done].
      by right.
  - (* an entry has returned an error *)
    rewrite bool_decide_eq_false_2 by done.
    exists l1, b. eexists _, _. split; [exact HA|]. split; [by left|].
    by rewrite lookup_insert_eq.
Qed.

Lemma apply_rollinclude_run fuel num_nodes spilled_tail st chain :
  chain ≠ [] →
  chain_from (logs st) xid spilled_head num_nodes spilled_tail chain →
  NoDup chain.*1 →
  Forall (ignores_storage func) (entries_of chain) →
  (length chain + length (entries_of chain) + 2 ≤ fuel)%nat →
  match run_nodes func oplsn chain.*2 st with
  | Returned r st1 =>
      if bool_decide (r = 0)
      then
        toku_apply_rollinclude func fuel xid num_nodes spilled_head
          spilled_tail oplsn st
        = Returned 0
            (set_pinned (pinned st)
               (set_logs (foldr delete (logs st) chain.*1) st1))
      else
        ∃ b log m',
          toku_apply_rollinclude func fuel xid num_nodes spilled_head
            spilled_tail oplsn st
          = Returned r (set_pinned (b :: pinned st) (set_logs m' st1))
          ∧ b ∈ chain.*1 ∧ m' !! b = Some log
  | Fatal =>
      toku_apply_rollinclude func fuel xid num_nodes spilled_head
        spilled_tail oplsn st = Fatal
  | OutOfFuel =>
      toku_apply_rollinclude func fuel xid num_nodes spilled_head
        spilled_tail oplsn st = OutOfFuel
  end.
Proof.
  intros Hne Hchain Hnd Hframe Hfuel. unfold toku_apply_rollinclude.
  set (l := mk_locals spilled_tail num_nodes false spilled_head spilled_tail).
  assert (next_log l ≠ ROLLBACK_NONE) as Hnone.
  { destruct chain as [|[b log] chain']; [done|].
    by destruct Hchain as (_ & Hnone & _). }
  rewrite bool_decide_eq_false_2 by done.
  pose proof (apply_nodes_run chain fuel l (logs st) (pinned st) st Hchain Hnd
                ltac:(done) Hframe Hfuel) as Hrun.
  rewrite state_storage in Hrun.
  destruct (run_nodes func oplsn chain.*2 st) as [r st1| |];
    [|by rewrite Hrun..].
  case_bool_decide.
  - destruct Hrun as (l' & ->). done.
  - destruct Hrun as (l' & b & log & m' & -> & Hin & Hm').
    by exists b, log, m'.
Qed.

End WalkerChain.

(** The entry functions other than that of [RollInclude] do not look at
    the rollback log storage or at the pins. *)
Lemma do_insertion_ignores_storage type filenum key data oplsn reset st m p :
  do_insertion type filenum key data oplsn reset (set_pinned p (set_logs m st))
  = with_storage m p (do_insertion type filenum key data oplsn reset st).
Proof.
  unfold do_insertion. cbn [txn logger set_pinned set_logs].
  repeat case_match; done.
Qed.

Lemma fsync_storage lsn m p st :
  toku_logger_fsync_if_lsn_not_fsynced lsn (set_pinned p (set_logs m st))
  = set_pinned p (set_logs m (toku_logger_fsync_if_lsn_not_fsynced lsn st)).
Proof.
  unfold toku_logger_fsync_if_lsn_not_fsynced.
  cbn [logger set_pinned set_logs]. destruct (logger st); [|done].
  by case_bool_decide.
Qed.

Lemma unlink_on_close_storage (cf : nat) m p st :
  toku_cachefile_unlink_on_close cf (set_pinned p (set_logs m st))
  = set_pinned p (set_logs m (toku_cachefile_unlink_on_close cf st)).
Proof.
  unfold toku_cachefile_unlink_on_close.
  cbn [logger set_pinned set_logs]. destruct (logger st) as [lg|]; [|done].
  by destruct (ct lg !! cf).
Qed.

Lemma is_unlink_on_close_storage (cf : nat) m p st :
  toku_cachefile_is_unlink_on_close cf (set_pinned p (set_logs m st))
  = toku_cachefile_is_unlink_on_close cf st.
Proof. done. Qed.

Lemma unlink_storage fname m p st :
  unlink fname (set_pinned p (set_logs m st))
  = (let '(r, errno, st') := unlink fname st in
     (r, errno, set_pinned p (set_logs m st'))).
Proof.
  unfold unlink, unlink_refused. cbn [files refused set_pinned set_logs].
  destruct (list_find _ (refused st)) as [[? [? ?]]|]; [done|].
  by case_bool_decide.
Qed.

Ltac storage_projections :=
  repeat match goal with
         | |- context [logger (set_pinned ?p (set_logs ?m ?st))] =>
             change (logger (set_pinned p (set_logs m st))) with (logger st)
         | |- context [txn (set_pinned ?p (set_logs ?m ?st))] =>
             change (txn (set_pinned p (set_logs m st))) with (txn st)
         end.

Lemma commit_item_ignores_storage fuel item :
  (∀ xid num_nodes spilled_head spilled_tail,
     item ≠ RollInclude xid num_nodes spilled_head spilled_tail) →
  ignores_storage (toku_commit_rollback_item (S fuel)) item.
Proof.
  intros Hitem oplsn st m p.
  destruct item; cbn [toku_commit_rollback_item];
    unfold toku_commit_cmdinsert, toku_commit_cmddelete,
      toku_commit_cmdupdate, toku_commit_cmdupdatebroadcast,
      toku_commit_fcreate, toku_commit_fdelete, toku_commit_load,
      toku_commit_hot_index, toku_commit_dictionary_redirect,
      toku_commit_change_fdescriptor, do_nothing_with_filenum;
    cbn [TOKU_DO_COMMIT_CMD_INSERT TOKU_DO_COMMIT_CMD_DELETE
         TOKU_DO_COMMIT_CMD_UPDATE];
    try done;
    try (by apply do_insertion_ignores_storage);
    try (by destruct (Hitem xid num_nodes spilled_head spilled_tail));
    cbv zeta; storage_projections; rewrite ?fsync_storage;
    (destruct (logger st); [|done]);
    try (destruct (toku_cachefile_of_filenum _ _) as [? [?|]]);
    rewrite ?is_unlink_on_close_storage, ?unlink_on_close_storage;
    repeat case_match; done.
Qed.

Lemma abort_item_ignores_storage fuel item :
  (∀ xid num_nodes spilled_head spilled_tail,
     item ≠ RollInclude xid num_nodes spilled_head spilled_tail) →
  ignores_storage (toku_abort_rollback_item (S fuel)) item.
Proof.
  intros Hitem oplsn st m p.
  destruct item; cbn [toku_abort_rollback_item];
    unfold toku_rollback_cmdinsert, toku_rollback_cmddelete,
      toku_rollback_cmdupdate, toku_rollback_cmdupdatebroadcast,
      toku_rollback_fcreate, toku_rollback_fdelete, toku_rollback_load,
      toku_rollback_hot_index, toku_rollback_dictionary_redirect,
      toku_dictionary_redirect_abort, toku_rollback_change_fdescriptor;
    try done;
    try (by apply do_insertion_ignores_storage);
    try (by destruct (Hitem xid num_nodes spilled_head spilled_tail));
    cbv zeta; storage_projections;
    try (destruct (for_recovery (txn st)); [done|]; cbn [negb]);
    (destruct (logger st); [|done]);
    try (destruct (fixup_fname _); [|done]);
    rewrite ?unlink_storage;
    try (destruct (toku_cachefile_of_filenum _ _) as [? [?|]]);
    try (destruct (toku_cachefile_of_iname_in_env _ _) as [? [?|]]);
    try (destruct (unlink _ st) as [[? ?] ?]; cbv beta iota);
    rewrite ?unlink_on_close_storage;
    repeat case_match; done.
Qed.

(** X20. A walk without errors drains the chain. When the storage holds a
    chain from [spilled_tail] on whose nodes belong to [xid] and count
    their sequence numbers down from [num_nodes - 1], and the entry
    function does not touch the storage and returns 0 on every entry when
    the entries are applied from the tail node to the last node, newest
    entry first, with the prefetch hint for the previous node before the
    entries of a node, then [toku_apply_rollinclude] returns 0 in the
    state these calls lead to, with the nodes of the chain removed from
    the storage and the pins as at the start. The fuel of the model has
    to cover the nodes and the entries. *)
Theorem apply_rollinclude_drains_chain
    (func : roll_entry → Z → state → outcome Z) (fuel : nat) (xid : Z * Z)
    (num_nodes spilled_head spilled_tail oplsn : Z) (st st1 : state)
    (chain : list (Z * ROLLBACK_LOG_NODE)) :
  chain ≠ [] →
  chain_from (logs st) xid spilled_head num_nodes spilled_tail chain →
  NoDup chain.*1 →
  Forall (ignores_storage func) (entries_of chain) →
  run_nodes func oplsn chain.*2 st = Returned 0 st1 →
  (length chain + length (entries_of chain) + 2 ≤ fuel)%nat →
  toku_apply_rollinclude func fuel xid num_nodes spilled_head spilled_tail
    oplsn st
  = Returned 0
      (set_pinned (pinned st)
         (set_logs (foldr delete (logs st) chain.*1) st1)).
Proof.
  intros Hne Hchain Hnd Hframe Hrun Hfuel.
  pose proof (apply_rollinclude_run func oplsn xid spilled_head fuel
                num_nodes spilled_tail st chain Hne Hchain Hnd Hframe Hfuel)
    as H.
  rewrite Hrun in H. by rewrite bool_decide_eq_true_2 in H.
Qed.

Lemma ex_chain_in_storage :
  chain_from (logs ex_state) (1, 10) 20 3 22 ex_chain.
Proof.
  unfold ex_chain. cbn [chain_from sequence previous txnid].
  split_and!; try done.
Qed.

Lemma apply_rollinclude_drains_chain_witness :
  ∃ st1,
    run_nodes (toku_abort_rollback_item 1) 0 ex_chain.*2 ex_state
    = Returned 0 st1
    ∧ toku_apply_rollinclude (toku_abort_rollback_item 1) 8 (1, 10) 3 20 22 0
        ex_state
      = Returned 0
          (set_pinned [5] (set_logs (foldr delete ex_logs [22; 21; 20]) st1)).
Proof.
  eexists. split; [vm_compute; reflexivity|].
  apply (apply_rollinclude_drains_chain (toku_abort_rollback_item 1) 8 (1, 10)
           3 20 22 0 ex_state _ ex_chain).
  - done.
  - apply ex_chain_in_storage.
  - by apply (bool_decide_unpack _); vm_compute.
  - repeat constructor; by apply abort_item_ignores_storage.
  - vm_compute. reflexivity.
  - vm_compute. lia.
Defined.

(** X22. Every entry function but that of [RollInclude], on the commit
    side and on the abort side, neither reads nor writes the rollback log
    storage and the pins: called in a state with another storage and other
    pins it does the same, and returns that storage and those pins. *)
Theorem entry_functions_ignore_storage (fuel : nat) (item : roll_entry) :
  (∀ xid num_nodes spilled_head spilled_tail,
     item ≠ RollInclude xid num_nodes spilled_head spilled_tail) →
  ignores_storage (toku_commit_rollback_item (S fuel)) item
  ∧ ignores_storage (toku_abort_rollback_item (S fuel)) item.
Proof.
  intros Hitem. split;
    [by apply commit_item_ignores_storage|by apply abort_item_ignores_storage].
Qed.

Lemma entry_functions_ignore_storage_witness :
  ignores_storage (toku_commit_rollback_item 1) (FDelete 7)
  ∧ ignores_storage (toku_abort_rollback_item 1) (FDelete 7).
Proof.
  apply (entry_functions_ignore_storage 0 (FDelete 7)). intros; discriminate.
Defined.

(** X23. [toku_rollback_dictionary_redirect] does nothing during
    recovery, where it does not even look the files up. Outside recovery
    it calls the redirect-abort primitive once, from the new file back to
    the old one, and returns 0; a file that has no cachefile is not
    tolerated there: the assertion fails. The commit of a redirect does
    nothing. *)
Theorem rollback_dictionary_redirect_outside_recovery
    (old_filenum new_filenum oplsn : Z) (st : state) (lg : TOKULOGGER) :
  logger st = Some lg →
  toku_commit_dictionary_redirect old_filenum new_filenum oplsn st
  = Returned 0 st
  ∧ toku_rollback_dictionary_redirect old_filenum new_filenum oplsn st
    = if for_recovery (txn st) then Returned 0 st
      else if bool_decide
                (Exists (λ c, cf_filenum c = new_filenum) (ct lg)
                 ∧ Exists (λ c, cf_filenum c = old_filenum) (ct lg))
      then Returned 0 (emit (EvRedirectAbort old_filenum new_filenum) st)
      else Fatal.
Proof.
  intros Hlg. split; [done|]. unfold toku_rollback_dictionary_redirect.
  destruct (for_recovery (txn st)); [done|]. cbn [negb]. rewrite Hlg.
  unfold toku_cachefile_of_filenum, toku_dictionary_redirect_abort.
  destruct (list_find (λ c, cf_filenum c = new_filenum) (ct lg))
    as [[i c]|] eqn:Hnew.
  - apply list_find_Some in Hnew as (Hi & Hc & _).
    assert (Exists (λ c, cf_filenum c = new_filenum) (ct lg)) as Hex
      by (apply Exists_exists; exists c; split;
          [by eapply list_elem_of_lookup_2|done]).
    rewrite (bool_decide_eq_true_2 (0 = 0)) by done. cbn [negb].
    destruct (list_find (λ c, cf_filenum c = old_filenum) (ct lg))
      as [[j c']|] eqn:Hold.
    + apply list_find_Some in Hold as (Hj & Hc' & _).
      rewrite (bool_decide_eq_true_2 (_ ∧ _)); [done|]. split; [done|].
      apply Exists_exists. exists c'. split;
        [by eapply list_elem_of_lookup_2|done].
    + apply list_find_None in Hold.
      rewrite (bool_decide_eq_false_2 (ENOENT = 0)) by done. cbn [negb].
      rewrite (bool_decide_eq_false_2 (_ ∧ _)); [done|]. intros [_ Hex'].
      apply Exists_exists in Hex' as (c' & Hin & Hc').
      rewrite Forall_forall in Hold. by apply (Hold c').
  - apply list_find_None in Hnew.
    rewrite (bool_decide_eq_false_2 (ENOENT = 0)) by done. cbn [negb].
    rewrite (bool_decide_eq_false_2 (_ ∧ _)); [done|]. intros [Hex' _].
    apply Exists_exists in Hex' as (c' & Hin & Hc').
    rewrite Forall_forall in Hnew. by apply (Hnew c').
Qed.

Lemma rollback_dictionary_redirect_outside_recovery_witness :
  toku_commit_dictionary_redirect 7 9 0 ex_state = Returned 0 ex_state
  ∧ toku_rollback_dictionary_redirect 7 9 0 ex_state
    = Returned 0 (emit (EvRedirectAbort 7 9) ex_state).
Proof.
  apply (rollback_dictionary_redirect_outside_recovery 7 9 0 ex_state
           ex_logger).
  reflexivity.
Defined.

(** ** Every node that is pinned is unpinned and removed *)

Section Drains.
Implicit Types (st : state) (b : Z).

Lemma storage_shrinks_refl st : storage_shrinks st st.
Proof. intros b log' Hb. by exists log'. Qed.



Lemma drains_refl st : drains st st.
Proof.
  split; [apply storage_shrinks_refl|]. exists []. rewrite app_nil_r.
  split; [done|]. by intros b ?%elem_of_nil.
Qed.



Lemma drains_set_pinned p st : drains st (set_pinned p st).
Proof. exact (drains_refl st). Qed.







(** The walker with an entry function that returns only 0 and drains. *)
Variable func : roll_entry → Z → state → outcome Z.
Hypothesis func_drains : ∀ item oplsn st r st',
  func item oplsn st = Returned r st' → r = 0 ∧ drains st st'.




End Drains.





